(** * Training loop of the landmark classifier (src/train.py)

    A shallow embedding of [train_one_epoch], [valid_one_epoch], [optimize]
    and [one_epoch_test], and of the tests that call them.  Python floats
    are IEEE 754 binary64 values; they are modelled by the Standard
    Library's executable specification [spec_float] (precision 53, exponent
    bound 1024), so that every expression of the source can be evaluated on
    concrete inputs.

    The model, the optimizer and the data loaders are objects of the tensor
    library: the embedding threads their state through the functions and
    keeps, as a trace, what a run prints and writes.  Progress bars and the
    transfer of batches to the GPU are left out. *)

From Stdlib Require Import ZArith List Bool Lia QArith Qfield.
From Stdlib Require Import SpecFloat Permutation.
From Stdlib Require String.
Import ListNotations String.StringSyntax.

Set Implicit Arguments.

(** ** Python floats *)

Module Py.

Definition float := spec_float.

Definition prec : Z := 53.
Definition emax : Z := 1024.

(** Exceptions the modelled code can raise. *)
Inductive exn := ZeroDivisionError.

Inductive result (A : Type) :=
| Return (a : A)
| Raise (e : exn).
Arguments Return {A} a.
Arguments Raise {A} e.

Definition fadd : float -> float -> float := SFadd prec emax.
Definition fsub : float -> float -> float := SFsub prec emax.
Definition fmul : float -> float -> float := SFmul prec emax.

Definition is_zero (x : float) : bool :=
  match x with S754_zero _ => true | _ => false end.

Definition is_nan (x : float) : bool :=
  match x with S754_nan => true | _ => false end.

Definition is_finite (x : float) : bool :=
  match x with S754_zero _ | S754_finite _ _ _ => true | _ => false end.

(** [x / y] on floats: Python raises instead of returning an infinity or
    a NaN when the divisor is zero. *)
Definition truediv (x y : float) : result float :=
  if is_zero y then Raise ZeroDivisionError
  else Return (SFdiv prec emax x y).

(** [x > y]: false as soon as one side is NaN. *)
Definition gt (x y : float) : bool := SFltb y x.
Definition lt (x y : float) : bool := SFltb x y.

(** [float(z)] for an integer [z]. *)
Definition of_int (z : Z) : float := binary_normalize prec emax z 0 false.

(** [1 / k] for a positive integer [k]: the true division of two ints,
    which is the division of their floats as long as they are below 2^53
    (batch numbers are); the divisor is never zero. *)
Definition int_recip (k : positive) : float :=
  SFdiv prec emax (of_int 1) (of_int (Zpos k)).

(** Literals of the source. *)
Definition zero : float := S754_zero false.                      (* 0.0 *)
Definition lit_0_01 : float :=                                     (* 0.01 *)
  S754_finite false 5764607523034235 (-59).
Definition lit_100 : float := of_int 100.                         (* 100. *)
Definition nan : float := S754_nan.
Definition inf : float := S754_infinity false.

(** A float is well formed when its mantissa and exponent are the
    canonical ones of binary64; every value Python holds is. *)
Definition wf (x : float) : bool := valid_binary prec emax x.

End Py.

Import Py.

(** ** The arithmetic of the loss accumulators

    The running averages are computed with Python's [+], [-], [*] and
    [1 / int].  The loops are written over this interface; the program runs
    them at [binary64], and [exactQ] reads the same expressions in exact
    rational arithmetic. *)

Class LossNum (A : Type) := {
  num_zero : A;                    (* the literal 0.0 *)
  num_add : A -> A -> A;
  num_sub : A -> A -> A;
  num_mul : A -> A -> A;
  num_recip : positive -> A        (* 1 / k for an int k >= 1 *)
}.

#[export] Instance binary64 : LossNum float := {
  num_zero := zero;
  num_add := fadd;
  num_sub := fsub;
  num_mul := fmul;
  num_recip := int_recip
}.


(** ** The tensor framework

    The model, the optimizer, the scheduler and the loss function belong to
    the tensor library; the loops see them through these operations. *)

Class Framework (A : Type) := {
  Params : Type;       (* the entries of model.state_dict() *)
  Data : Type;
  Target : Type;
  Output : Type;
  Grad : Type;
  OptState : Type;     (* optimizer state, learning rates included *)
  SchedState : Type;
  (* output = model(data); the flag is the train/eval mode *)
  forward : Params -> bool -> Data -> Output;
  (* loss(output, target).item() *)
  loss_item : Output -> Target -> A;
  (* what loss_value.backward() leaves in the gradients after zero_grad() *)
  backward : Params -> bool -> Data -> Target -> Grad;
  (* optimizer.step() *)
  optimizer_step : OptState -> Params -> Grad -> OptState * Params;
  (* ReduceLROnPlateau(optimizer, 'min', patience=3) and its step *)
  scheduler_init : OptState -> SchedState;
  scheduler_step : SchedState -> A -> OptState -> SchedState * OptState;
  (* optimizer.param_groups[0]["lr"] *)
  current_lr : OptState -> A;
  (* pred.eq(target.view_as(pred)).sum().item() and data.size(0) *)
  n_correct : Output -> Target -> nat;
  size0 : Data -> nat;
  (* torch.cuda.is_available() *)
  cuda_available : bool
}.

Section Loops.

Context {A : Type} {N : LossNum A} {F : Framework A}.

(** A model object: its parameters, its train/eval mode, its device. *)
Record Model := {
  params : Params;
  training : bool;
  on_cuda : bool
}.

Definition cuda (m : Model) : Model :=
  {| params := params m; training := training m; on_cuda := true |}.

Definition set_mode (b : bool) (m : Model) : Model :=
  {| params := params m; training := b; on_cuda := on_cuda m |}.

Definition set_params (p : Params) (m : Model) : Model :=
  {| params := p; training := training m; on_cuda := on_cuda m |}.

Definition to_device (m : Model) : Model :=
  if cuda_available then cuda m else m.

(** One pass over a data loader yields its batches in order. *)
Definition Batch : Type := Data * Target.
Definition DataLoader : Type := list Batch.

(** *** [train_one_epoch]

    The loop body, for the batch numbered [batch_idx] by [enumerate]. *)
Definition train_batch (batch_idx : nat) (b : Batch)
    (st : Model * OptState * A) : Model * OptState * A :=
  let '(model, optimizer, train_loss) := st in
  let '(data, target) := b in
  let output := forward (params model) (training model) data in
  let loss_value := loss_item output target in
  let g := backward (params model) (training model) data target in
  let '(optimizer', p') := optimizer_step optimizer (params model) g in
  let train_loss' :=
    num_add train_loss
      (num_mul (num_recip (Pos.of_succ_nat batch_idx))
               (num_sub loss_value train_loss)) in
  (set_params p' model, optimizer', train_loss').

Fixpoint train_batches (batch_idx : nat) (dl : DataLoader)
    (st : Model * OptState * A) : Model * OptState * A :=
  match dl with
  | [] => st
  | b :: rest => train_batches (S batch_idx) rest (train_batch batch_idx b st)
  end.

Definition train_one_epoch (train_dataloader : DataLoader) (model : Model)
    (optimizer : OptState) : Model * OptState * A :=
  let model := to_device model in
  let model := set_mode true model in
  train_batches 0 train_dataloader (model, optimizer, num_zero).

(** *** [valid_one_epoch] *)
Definition valid_batch (batch_idx : nat) (b : Batch) (model : Model)
    (valid_loss : A) : A :=
  let '(data, target) := b in
  let output := forward (params model) (training model) data in
  let loss_value := loss_item output target in
  num_add valid_loss
    (num_mul (num_recip (Pos.of_succ_nat batch_idx))
             (num_sub loss_value valid_loss)).

Fixpoint valid_batches (batch_idx : nat) (dl : DataLoader) (model : Model)
    (valid_loss : A) : A :=
  match dl with
  | [] => valid_loss
  | b :: rest =>
      valid_batches (S batch_idx) rest model
        (valid_batch batch_idx b model valid_loss)
  end.

Definition valid_one_epoch (valid_dataloader : DataLoader) (model : Model)
    : Model * A :=
  let model := set_mode false model in
  let model := to_device model in
  (model, valid_batches 0 valid_dataloader model num_zero).

(** *** [one_epoch_test]

    [correct] and [total] start as the float 0.0 and are incremented by
    ints; the accuracy printed after the loop divides by [total]. *)
Definition test_batch (batch_idx : nat) (b : Batch) (model : Model)
    (st : A * float * float) : A * float * float :=
  let '(test_loss, correct, total) := st in
  let '(data, target) := b in
  let output := forward (params model) (training model) data in
  let loss_value := loss_item output target in
  let test_loss' :=
    num_add test_loss
      (num_mul (num_recip (Pos.of_succ_nat batch_idx))
               (num_sub loss_value test_loss)) in
  let correct' := fadd correct (of_int (Z.of_nat (n_correct output target))) in
  let total' := fadd total (of_int (Z.of_nat (size0 data))) in
  (test_loss', correct', total').

Fixpoint test_batches (batch_idx : nat) (dl : DataLoader) (model : Model)
    (st : A * float * float) : A * float * float :=
  match dl with
  | [] => st
  | b :: rest =>
      test_batches (S batch_idx) rest model (test_batch batch_idx b model st)
  end.

(** What [one_epoch_test] prints. *)
Inductive test_output :=
| PrintTestLoss (test_loss : A)
| PrintTestAccuracy (percent correct total : float).

(** The function returns the final model object, what was printed, and
    either the loss or the exception raised while formatting the
    accuracy. *)
Definition one_epoch_test (test_dataloader : DataLoader) (model : Model)
    : Model * list test_output * result A :=
  let model := set_mode false model in
  let model := to_device model in
  let '(test_loss, correct, total) :=
    test_batches 0 test_dataloader model (num_zero, zero, zero) in
  let out := [PrintTestLoss test_loss] in
  match truediv (fmul lit_100 correct) total with
  | Raise e => (model, out, Raise e)
  | Return percent =>
      (model, out ++ [PrintTestAccuracy percent correct total],
       Return test_loss)
  end.

(** *** The batch losses a loop sees, and the incremental mean

    [incremental_mean_from k avg losses] applies the update of lines 38, 68
    and 148, [avg + (1 / (k + 1)) * (loss - avg)], to the loss values in
    turn, the first of them being the batch numbered [k]. *)
Fixpoint incremental_mean_from (k : nat) (avg : A) (losses : list A) : A :=
  match losses with
  | [] => avg
  | l :: rest =>
      incremental_mean_from (S k)
        (num_add avg (num_mul (num_recip (Pos.of_succ_nat k)) (num_sub l avg)))
        rest
  end.

Definition incremental_mean (losses : list A) : A :=
  incremental_mean_from 0 num_zero losses.

Definition batch_loss (model : Model) (b : Batch) : A :=
  loss_item (forward (params model) (training model) (fst b)) (snd b).

(** The losses of a training pass: the model changes after every batch. *)
Fixpoint train_losses_from (batch_idx : nat) (dl : DataLoader)
    (st : Model * OptState * A) : list A :=
  match dl with
  | [] => []
  | b :: rest =>
      batch_loss (fst (fst st)) b
        :: train_losses_from (S batch_idx) rest (train_batch batch_idx b st)
  end.

Definition train_losses (dl : DataLoader) (model : Model)
    (optimizer : OptState) : list A :=
  train_losses_from 0 dl (set_mode true (to_device model), optimizer, num_zero).

(** The losses of an evaluation pass. *)
Definition eval_losses (dl : DataLoader) (model : Model) : list A :=
  map (batch_loss (to_device (set_mode false model))) dl.

(** The sample count [total] that [one_epoch_test] has accumulated when its
    loop ends. *)
Definition test_total (dl : DataLoader) (m : Model) : float :=
  snd (test_batches 0 dl (to_device (set_mode false m)) (num_zero, zero, zero)).

End Loops.

Arguments Model {A F}.
Arguments Batch {A F}.
Arguments DataLoader {A F}.
Arguments test_output : clear implicits.

(** ** Sample counts

    What the accumulators [correct] and [total] of [one_epoch_test] are
    compared with. *)

Section Counts.

Context {A : Type} {N : LossNum A} {F : Framework A}.

(** The number of samples the batches of a loader hold, and the number of
    them a model in evaluation mode classifies correctly. *)
Definition n_samples (dl : DataLoader) : nat :=
  list_sum (map (fun b : Batch => size0 (fst b)) dl).

Definition n_right (dl : DataLoader) (m : Model) : nat :=
  let m := to_device (set_mode false m) in
  list_sum (map (fun b : Batch =>
                   n_correct (forward (params m) (training m) (fst b)) (snd b))
                dl).

End Counts.

(** [total += n] for each [n] of a list of ints, from the float [t]. *)
Definition add_counts (t : float) (l : list nat) : float :=
  fold_left (fun t n => fadd t (of_int (Z.of_nat n))) l t.

(** A float that is +0.0, positive or +inf. *)
Definition count_like (t : float) : Prop :=
  t = S754_zero false \/ t = S754_infinity false \/
  exists m e, t = S754_finite false m e /\ bounded prec emax m e = true.


(** [last_option l] is the last element of [l], if any. *)
Definition last_option (X : Type) (l : list X) : option X :=
  last (map Some l) None.

(** ** [optimize] *)

(** [range(a, b)] *)
Definition range (a b : Z) : list Z :=
  map (fun i => (a + Z.of_nat i)%Z) (seq 0 (Z.to_nat (b - a))).

Section Optimize.

Context {F : Framework float}.

(** What a run of [optimize] does to the outside: the lines it prints, the
    checkpoints it writes to [save_path], the plot updates it sends. *)
Inductive event :=
| PrintEpochStart (epoch n_epochs : Z)
| PrintTrainLoss (epoch : Z) (train_loss : float)
| PrintValidLoss (epoch : Z) (valid_loss : float)
| PrintNewMinimum (valid_loss : float)
| TorchSave (state_dict : Params)
| LiveLossSend (loss val_loss lr : float).

Record State := {
  model : Model;
  optimizer : OptState;
  scheduler : SchedState;
  valid_loss_min : option float;
  trace : list event
}.

(** data_loaders["train"] and data_loaders["valid"]: the batches each
    loader yields in the pass of a given epoch (a shuffling loader yields
    them in another order in every pass). *)
Record DataLoaders := {
  dl_train : Z -> DataLoader;
  dl_valid : Z -> DataLoader
}.

(** The condition of line 99,
    [valid_loss_min is None or ((valid_loss_min - valid_loss) / valid_loss_min > 0.01)],
    with [or] evaluated left to right. *)
Definition improves (valid_loss_min : option float) (valid_loss : float)
    : result bool :=
  match valid_loss_min with
  | None => Return true
  | Some best =>
      match truediv (fsub best valid_loss) best with
      | Raise e => Raise e
      | Return r => Return (gt r lit_0_01)
      end
  end.

(** The body of the epoch loop. *)
Definition epoch_body (data_loaders : DataLoaders) (n_epochs : Z)
    (interactive_tracking : bool) (epoch : Z) (s : State)
    : State * result unit :=
  let tr := trace s ++ [PrintEpochStart epoch n_epochs] in
  let '(m1, o1, train_loss) :=
    train_one_epoch (dl_train data_loaders epoch) (model s) (optimizer s) in
  let tr := tr ++ [PrintTrainLoss epoch train_loss] in
  let '(m2, valid_loss) :=
    valid_one_epoch (dl_valid data_loaders epoch) m1 in
  let tr := tr ++ [PrintValidLoss epoch valid_loss] in
  match improves (valid_loss_min s) valid_loss with
  | Raise e =>
      ({| model := m2; optimizer := o1; scheduler := scheduler s;
          valid_loss_min := valid_loss_min s; trace := tr |}, Raise e)
  | Return save =>
      let tr :=
        if save
        then tr ++ [PrintNewMinimum valid_loss; TorchSave (params m2)]
        else tr in
      let best := if save then Some valid_loss else valid_loss_min s in
      let '(sch, o2) := scheduler_step (scheduler s) valid_loss o1 in
      let tr :=
        if interactive_tracking
        then tr ++ [LiveLossSend train_loss valid_loss (current_lr o2)]
        else tr in
      ({| model := m2; optimizer := o2; scheduler := sch;
          valid_loss_min := best; trace := tr |}, Return tt)
  end.

(** The [for] loop: an exception ends the run. *)
Fixpoint run_epochs (data_loaders : DataLoaders) (n_epochs : Z)
    (interactive_tracking : bool) (epochs : list Z) (s : State)
    : State * result unit :=
  match epochs with
  | [] => (s, Return tt)
  | epoch :: rest =>
      match epoch_body data_loaders n_epochs interactive_tracking epoch s with
      | (s', Return _) =>
          run_epochs data_loaders n_epochs interactive_tracking rest s'
      | (s', Raise e) => (s', Raise e)
      end
  end.

Definition initial_state (m : Model) (o : OptState) : State :=
  {| model := m; optimizer := o; scheduler := scheduler_init o;
     valid_loss_min := None; trace := [] |}.

Definition optimize (data_loaders : DataLoaders) (m : Model) (o : OptState)
    (n_epochs : Z) (interactive_tracking : bool) : State * result unit :=
  run_epochs data_loaders n_epochs interactive_tracking
    (range 1 (n_epochs + 1)) (initial_state m o).

(** *** Reading a trace *)

(** The checkpoints written, oldest first. *)
Fixpoint saves (tr : list event) : list Params :=
  match tr with
  | [] => []
  | TorchSave p :: rest => p :: saves rest
  | _ :: rest => saves rest
  end.

(** The validation losses printed, oldest first. *)
Fixpoint observed_valid_losses (tr : list event) : list float :=
  match tr with
  | [] => []
  | PrintValidLoss _ v :: rest => v :: observed_valid_losses rest
  | _ :: rest => observed_valid_losses rest
  end.

(** The losses announced as new minima, oldest first: one per checkpoint. *)
Fixpoint checkpointed_losses (tr : list event) : list float :=
  match tr with
  | [] => []
  | PrintNewMinimum v :: rest => v :: checkpointed_losses rest
  | _ :: rest => checkpointed_losses rest
  end.

(** [min(l)] as Python computes it, [None] for an empty list. *)
Definition list_min (l : list float) : option float :=
  match l with
  | [] => None
  | x :: rest => Some (fold_left (fun acc y => if lt y acc then y else acc) rest x)
  end.

(** The validation loss the epoch numbered [epoch] computes when it starts
    in state [s]. *)
Definition epoch_valid_loss (data_loaders : DataLoaders) (epoch : Z)
    (s : State) : float :=
  snd (valid_one_epoch (dl_valid data_loaders epoch)
         (fst (fst (train_one_epoch (dl_train data_loaders epoch) (model s)
                      (optimizer s))))).

(** The parameters that epoch leaves in the model. *)
Definition epoch_params (data_loaders : DataLoaders) (epoch : Z)
    (s : State) : Params :=
  params (fst (fst (train_one_epoch (dl_train data_loaders epoch) (model s)
                      (optimizer s)))).

(** The checkpoint rule in the specification's words: save iff best is
    None or (best - current) / best > 0.01. *)
Definition checkpoint_rule (best : option float) (current : float) : Prop :=
  best = None \/
  exists b r, best = Some b /\
              truediv (fsub b current) b = Return r /\
              gt r lit_0_01 = true.

(** The facts about the stored minimum that every epoch preserves. *)
Definition minimum_invariant (s : State) : Prop :=
  valid_loss_min s = last_option (checkpointed_losses (trace s)) /\
  length (checkpointed_losses (trace s)) = length (saves (trace s)) /\
  incl (checkpointed_losses (trace s)) (observed_valid_losses (trace s)).

End Optimize.

Arguments event {F}.
Arguments State {F}.
Arguments DataLoaders {F}.

(** *** More of a trace *)

Section OptimizeTrace.

Context {F : Framework float}.

(** The epochs a run has announced, oldest first. *)
Fixpoint epochs_started (tr : list event) : list Z :=
  match tr with
  | [] => []
  | PrintEpochStart epoch _ :: rest => epoch :: epochs_started rest
  | _ :: rest => epochs_started rest
  end.

(** The plot updates sent, oldest first, and the rest of the trace. *)
Fixpoint plot_updates (tr : list event) : list (float * float * float) :=
  match tr with
  | [] => []
  | LiveLossSend l v lr :: rest => (l, v, lr) :: plot_updates rest
  | _ :: rest => plot_updates rest
  end.

Fixpoint without_plots (tr : list event) : list event :=
  match tr with
  | [] => []
  | LiveLossSend _ _ _ :: rest => without_plots rest
  | e :: rest => e :: without_plots rest
  end.

(** Two states that differ by the plot updates in their traces only. *)
Definition same_but_plots (s1 s0 : State) : Prop :=
  model s1 = model s0 /\ optimizer s1 = optimizer s0 /\
  scheduler s1 = scheduler s0 /\ valid_loss_min s1 = valid_loss_min s0 /\
  without_plots (trace s1) = trace s0 /\ plot_updates (trace s0) = [].

End OptimizeTrace.

(** ** The tests of the module

    The fixtures build the loaders, the model, the loss and the optimizer
    with other modules of the project; the tests are functions of what the
    fixtures return. *)

(** How a test ends: it passes, an [assert] fails with its message, or the
    code under test raises. *)
Inductive outcome :=
| Passed
| Failed (message : String.string)
| Errored (e : exn).

Section Tests.

Context {F : Framework float}.

Local Open Scope string_scope.

(** The model and the optimizer come from a session fixture: a test works
    on the objects the tests before it have left, and hands them on.  The
    passes a test makes over a loader are numbered by its loop variable,
    and [is_nan] is [np.isnan]. *)
Fixpoint train_passes (passes : list Z) (data_loaders : DataLoaders)
    (model : Model) (optimizer : OptState) : Model * OptState * outcome :=
  match passes with
  | [] => (model, optimizer, Passed)
  | i :: rest =>
      let '(model, optimizer, lt) :=
        train_one_epoch (dl_train data_loaders i) model optimizer in
      if is_nan lt then (model, optimizer, Failed "Training loss is nan")
      else train_passes rest data_loaders model optimizer
  end.

Definition test_train_one_epoch (data_loaders : DataLoaders) (model : Model)
    (optimizer : OptState) : Model * OptState * outcome :=
  train_passes (range 0 2) data_loaders model optimizer.

Fixpoint valid_passes (passes : list Z) (data_loaders : DataLoaders)
    (model : Model) : Model * outcome :=
  match passes with
  | [] => (model, Passed)
  | i :: rest =>
      let '(model, lv) := valid_one_epoch (dl_valid data_loaders i) model in
      if is_nan lv then (model, Failed "Validation loss is nan")
      else valid_passes rest data_loaders model
  end.

Definition test_valid_one_epoch (data_loaders : DataLoaders) (model : Model)
    : Model * outcome :=
  valid_passes (range 0 2) data_loaders model.

(** [optimize] is called with two epochs and without tracking; the
    checkpoints go to a file of a temporary directory. *)
Definition test_optimize (data_loaders : DataLoaders) (model : Model)
    (optimizer : OptState) : State * outcome :=
  match optimize data_loaders model optimizer 2 false with
  | (s, Return _) => (s, Passed)
  | (s, Raise e) => (s, Errored e)
  end.

(** [test_dataloader] is data_loaders["test"]. *)
Definition test_one_epoch_test (test_dataloader : DataLoader) (model : Model)
    : Model * outcome :=
  match one_epoch_test test_dataloader model with
  | (model, _, Return tv) =>
      if is_nan tv then (model, Failed "Test loss is nan") else (model, Passed)
  | (model, _, Raise e) => (model, Errored e)
  end.

End Tests.


(** ** A small framework for concrete runs

    The model's only parameter counts the optimizer steps taken so far; a
    batch carries its size and, as its target, the loss it yields after
    0, 1, 2, ... steps. *)

Definition toy (A : Type) (default lr : A) : Framework A := {|
  Params := nat;
  Data := nat;
  Target := list A;
  Output := nat;
  Grad := unit;
  OptState := unit;
  SchedState := unit;
  forward := fun p _ _ => p;
  loss_item := fun out target => nth out target default;
  backward := fun _ _ _ _ => tt;
  optimizer_step := fun o p _ => (o, S p);
  scheduler_init := fun _ => tt;
  scheduler_step := fun s _ o => (s, o);
  current_lr := fun _ => lr;
  n_correct := fun _ _ => 0%nat;
  size0 := fun d => d;
  cuda_available := false
|}.

Definition toy_model (A : Type) (default lr : A) : @Model A (toy default lr) :=
  @Build_Model A (toy default lr) 0%nat false false.

(** A batch of [size] samples whose loss is [l] whatever the parameters. *)
Definition const_batch (A : Type) (size : nat) (l : A) : nat * list A :=
  (size, repeat l 64).

(** The float m * 2^e. *)
Definition dyadic (m e : Z) : float := binary_normalize prec emax m e false.

(** The toy framework at binary64, and loaders for it: an evaluation loader
    whose batches have the given losses, and the loaders of a run whose
    training pass takes one optimizer step per epoch and whose validation
    batch yields [valid_by_step[e]] in epoch [e]. *)
Definition toy64 : Framework float := toy zero zero.

Definition toy64_model : @Model float toy64 := toy_model zero zero.

Definition toy64_loader (losses : list float) : @DataLoader float toy64 :=
  map (const_batch 1) losses.

Definition toy64_loaders (valid_by_step : list float) : @DataLoaders toy64 :=
  @Build_DataLoaders toy64
    (fun _ => [const_batch 1 (of_int 1)])
    (fun _ => [(1%nat, valid_by_step)]).










(** ** Values of binary64 floats

    What the analysis of the rounded operations speaks about: the integer a
    finite float stands for, the floats that are powers of two, one update
    of the running average, and the quotients a right shift represents. *)

Module Binary64.

Local Open Scope Z_scope.

(** The value of a finite float, in units of 2^-1074. *)
Definition F2Z (x : float) : Z :=
  match x with
  | S754_finite s m e => cond_Zopp s (Zpos m * 2 ^ (e + 1074))
  | _ => 0
  end.

(** A finite, well-formed float. *)
Definition finite_wf (x : float) : bool := is_finite x && wf x.

(** A batch loss of moderate size: finite, well formed, of magnitude at
    most 2^1022 (2^2096 units of 2^-1074). *)
Definition moderate (x : float) : bool :=
  finite_wf x && (Z.abs (F2Z x) <=? 2 ^ 2096).

(** The float of value 2^j, in units of 2^-1074, with sign [s]. *)
Definition pow2_float (s : bool) (j : Z) : float :=
  if j <? 52 then S754_finite s (Z.to_pos (2 ^ j)) (-1074)
  else S754_finite s 4503599627370496 (j - 1126).

(** One update of the running average, with the factor [c] for [1 / k]. *)
Definition update (c avg x : float) : float := fadd avg (fmul c (fsub x avg)).

(** The record of a right shift stands for the quotient of [N] by [D]:
    its mantissa is the integer part, and its round and sticky bits are
    clear when the division is exact. *)
Definition shr_rep (N D : Z) (r : shr_record) : Prop :=
  0 < D /\ 0 <= N /\ shr_m r = N / D /\
  (N mod D = 0 -> shr_r r = false /\ shr_s r = false).

(** What can be said of the running average [r] of the losses [losses]:
    it is a finite well-formed float, hence not NaN, and it lies within any
    bounds on the values of the losses. *)
Definition finite_between (losses : list float) (r : float) : Prop :=
  is_finite r = true /\ is_nan r = false /\ wf r = true /\
  forall L H : Z,
    losses <> [] ->
    Forall (fun x => L <= F2Z x <= H) losses ->
    L <= F2Z r <= H.

End Binary64.

Import Binary64.

(** A validation loss that is a positive finite float. *)
Definition positive_finite (x : float) : bool := finite_wf x && lt zero x.

Section NearLeast.

Context {F : Framework float}.

Local Open Scope Z_scope.

(** The stored minimum is positive, below every checkpointed loss, and
    no observed loss is below 63/64 of it. *)
Definition near_least (s : State) : Prop :=
  match valid_loss_min s with
  | None =>
      observed_valid_losses (trace s) = [] /\
      checkpointed_losses (trace s) = []
  | Some b =>
      positive_finite b = true /\
      Forall (fun c => F2Z b <= F2Z c) (checkpointed_losses (trace s)) /\
      Forall (fun v => 63 * F2Z b < 64 * F2Z v)
        (observed_valid_losses (trace s))
  end.

End NearLeast.

(** * Properties *)

(** ** The three loops compute the incremental mean of the losses they see *)

Section LoopFacts.

Context {A : Type} {N : LossNum A} {F : Framework A}.

Lemma train_batches_loss (dl : DataLoader) :
  forall (k : nat) (st : Model * OptState * A),
    snd (train_batches k dl st) =
    incremental_mean_from k (snd st) (train_losses_from k dl st).
Proof.
  induction dl as [|b rest IH]; intros k st; simpl; [reflexivity|].
  rewrite IH. f_equal.
  destruct st as [[m o] avg], b as [data target].
  unfold train_batch, batch_loss; simpl.
  destruct (optimizer_step o (params m) _); reflexivity.
Qed.

Lemma valid_batches_loss (m : Model) (dl : DataLoader) :
  forall (k : nat) (avg : A),
    valid_batches k dl m avg =
    incremental_mean_from k avg (map (batch_loss m) dl).
Proof.
  induction dl as [|[data target] rest IH]; intros k avg; simpl;
    [reflexivity|].
  now rewrite IH.
Qed.

Lemma test_batches_loss (m : Model) (dl : DataLoader) :
  forall (k : nat) (st : A * float * float),
    fst (fst (test_batches k dl m st)) =
    incremental_mean_from k (fst (fst st)) (map (batch_loss m) dl).
Proof.
  induction dl as [|[data target] rest IH]; intros k [[avg c] t]; simpl;
    [reflexivity|].
  now rewrite IH.
Qed.

Lemma train_one_epoch_loss (dl : DataLoader) (m : Model) (o : OptState) :
  snd (train_one_epoch dl m o) = incremental_mean (train_losses dl m o).
Proof.
  unfold train_one_epoch, train_losses, incremental_mean.
  now rewrite train_batches_loss.
Qed.

Lemma valid_one_epoch_loss (dl : DataLoader) (m : Model) :
  snd (valid_one_epoch dl m) = incremental_mean (eval_losses dl m).
Proof.
  unfold valid_one_epoch, eval_losses, incremental_mean; simpl.
  apply valid_batches_loss.
Qed.

Lemma one_epoch_test_loss (dl : DataLoader) (m : Model) :
  snd (one_epoch_test dl m) =
  if is_zero (test_total dl m) then Raise ZeroDivisionError
  else Return (incremental_mean (eval_losses dl m)).
Proof.
  unfold one_epoch_test, test_total, eval_losses, incremental_mean.
  pose proof (test_batches_loss (to_device (set_mode false m)) dl 0
                (num_zero, zero, zero)) as H.
  destruct (test_batches 0 dl _ _) as [[tl c] t]; simpl in *.
  unfold truediv. destruct (is_zero t); simpl; [reflexivity|].
  now rewrite <- H.
Qed.

Lemma one_epoch_test_printed (dl : DataLoader) (m : Model) :
  hd_error (snd (fst (one_epoch_test dl m))) =
  Some (PrintTestLoss (incremental_mean (eval_losses dl m))).
Proof.
  unfold one_epoch_test, eval_losses, incremental_mean.
  pose proof (test_batches_loss (to_device (set_mode false m)) dl 0
                (num_zero, zero, zero)) as H.
  destruct (test_batches 0 dl _ _) as [[tl c] t]; simpl in *.
  destruct (truediv _ t); simpl; now rewrite <- H.
Qed.

(** *** The parameters are only written by the optimizer step *)

Lemma params_to_device (m : Model) : params (to_device m) = params m.
Proof. unfold to_device. now destruct cuda_available. Qed.

Lemma valid_one_epoch_model (dl : DataLoader) (m : Model) :
  fst (valid_one_epoch dl m) = to_device (set_mode false m).
Proof. reflexivity. Qed.

Lemma one_epoch_test_model (dl : DataLoader) (m : Model) :
  fst (fst (one_epoch_test dl m)) = to_device (set_mode false m).
Proof.
  unfold one_epoch_test.
  destruct (test_batches 0 dl _ _) as [[tl c] t].
  now destruct (truediv _ t).
Qed.

End LoopFacts.

(** ** NaN in the binary64 update *)

Section NaN.

Lemma is_nan_eq (x : float) : is_nan x = true <-> x = S754_nan.
Proof. destruct x; simpl; split; congruence. Qed.

Lemma update_nan_avg (c x : float) :
  fadd S754_nan (fmul c (fsub x S754_nan)) = S754_nan.
Proof. reflexivity. Qed.

Lemma update_nan_loss (c avg : float) :
  fadd avg (fmul c (fsub S754_nan avg)) = S754_nan.
Proof.
  replace (fsub S754_nan avg) with S754_nan by reflexivity.
  replace (fmul c S754_nan) with S754_nan by now destruct c.
  now destruct avg.
Qed.

Lemma incremental_mean_from_nan_avg (losses : list float) :
  forall k, incremental_mean_from k S754_nan losses = S754_nan.
Proof.
  induction losses as [|l rest IH]; intros k; simpl; [reflexivity|].
  apply IH.
Qed.

Lemma incremental_mean_from_nan (losses : list float) :
  forall k avg,
    existsb is_nan losses = true ->
    incremental_mean_from k avg losses = S754_nan.
Proof.
  induction losses as [|l rest IH]; intros k avg H; simpl in *;
    [discriminate|].
  apply orb_true_iff in H as [H|H].
  - apply is_nan_eq in H; subst l.
    change (num_add avg (num_mul (num_recip (Pos.of_succ_nat k))
                           (num_sub S754_nan avg)))
      with (fadd avg (fmul (int_recip (Pos.of_succ_nat k))
                        (fsub S754_nan avg))).
    rewrite update_nan_loss. apply incremental_mean_from_nan_avg.
  - now apply IH.
Qed.

End NaN.

(** ** The incremental mean in exact arithmetic *)

Section Exact.




End Exact.

(** ** The epoch loop of [optimize] *)

Section OptimizeFacts.

Context {F : Framework float}.

Lemma saves_app (t1 t2 : list event) : saves (t1 ++ t2) = saves t1 ++ saves t2.
Proof.
  induction t1 as [|e t1 IH]; simpl; [reflexivity|].
  destruct e; simpl; now rewrite ?IH.
Qed.

Lemma observed_app (t1 t2 : list event) :
  observed_valid_losses (t1 ++ t2) =
  observed_valid_losses t1 ++ observed_valid_losses t2.
Proof.
  induction t1 as [|e t1 IH]; simpl; [reflexivity|].
  destruct e; simpl; now rewrite ?IH.
Qed.

Lemma checkpointed_app (t1 t2 : list event) :
  checkpointed_losses (t1 ++ t2) =
  checkpointed_losses t1 ++ checkpointed_losses t2.
Proof.
  induction t1 as [|e t1 IH]; simpl; [reflexivity|].
  destruct e; simpl; now rewrite ?IH.
Qed.

Lemma app_singleton_neq (X : Type) (l : list X) (x : X) : l ++ [x] <> l.
Proof.
  intros H. apply (f_equal (@length X)) in H.
  rewrite length_app in H. simpl in H. lia.
Qed.

(** What one epoch does, by the outcome of the test of line 99. *)
Lemma epoch_body_spec (dls : DataLoaders) (n_epochs : Z) (it : bool)
    (epoch : Z) (s : State) :
  let v := epoch_valid_loss dls epoch s in
  let s' := fst (epoch_body dls n_epochs it epoch s) in
  observed_valid_losses (trace s') = observed_valid_losses (trace s) ++ [v] /\
  match improves (valid_loss_min s) v with
  | Raise e =>
      snd (epoch_body dls n_epochs it epoch s) = Raise e /\
      valid_loss_min s' = valid_loss_min s /\
      saves (trace s') = saves (trace s) /\
      checkpointed_losses (trace s') = checkpointed_losses (trace s)
  | Return true =>
      snd (epoch_body dls n_epochs it epoch s) = Return tt /\
      valid_loss_min s' = Some v /\
      saves (trace s') = saves (trace s) ++ [epoch_params dls epoch s] /\
      checkpointed_losses (trace s') = checkpointed_losses (trace s) ++ [v]
  | Return false =>
      snd (epoch_body dls n_epochs it epoch s) = Return tt /\
      valid_loss_min s' = valid_loss_min s /\
      saves (trace s') = saves (trace s) /\
      checkpointed_losses (trace s') = checkpointed_losses (trace s)
  end.
Proof.
  intros v s'. subst s'.
  pose proof (eq_refl v) as Ev. unfold v at 2 in Ev.
  unfold epoch_valid_loss in Ev. unfold epoch_params, epoch_body.
  destruct (train_one_epoch (dl_train dls epoch) (model s) (optimizer s))
    as [[m1 o1] tl].
  cbn [fst snd] in *.
  rewrite (surjective_pairing (valid_one_epoch (dl_valid dls epoch) m1)).
  rewrite <- Ev. clearbody v.
  assert (Hp : params (fst (valid_one_epoch (dl_valid dls epoch) m1)) = params m1).
  { rewrite valid_one_epoch_model, params_to_device. reflexivity. }
  rewrite valid_one_epoch_model in Hp.
  destruct (improves (valid_loss_min s) v) as [[|]|e]; cbn [fst snd].
  - destruct (scheduler_step (scheduler s) v o1) as [sch o2].
    destruct it; cbn [fst snd trace valid_loss_min];
      rewrite ?saves_app, ?observed_app, ?checkpointed_app; simpl;
      rewrite ?app_nil_r, ?Hp; auto.
  - destruct (scheduler_step (scheduler s) v o1) as [sch o2].
    destruct it; cbn [fst snd trace valid_loss_min];
      rewrite ?saves_app, ?observed_app, ?checkpointed_app; simpl;
      rewrite ?app_nil_r; auto.
  - cbn [trace valid_loss_min].
    rewrite ?saves_app, ?observed_app, ?checkpointed_app; simpl;
      rewrite ?app_nil_r; auto.
Qed.

Lemma improves_raise (best : option float) (v : float) (e : exn) :
  improves best v = Raise e <->
  e = ZeroDivisionError /\ exists b, best = Some b /\ is_zero b = true.
Proof.
  unfold improves, truediv. destruct best as [b|].
  - destruct (is_zero b) eqn:Ez; split.
    + intros _. destruct e. eauto.
    + intros [-> _]; reflexivity.
    + discriminate.
    + intros [_ (b' & Hb & Hz)]. inversion Hb; subst. congruence.
  - split; [discriminate|]. intros [_ (b & Hb & _)]. discriminate.
Qed.

Lemma improves_true (best : option float) (v : float) :
  improves best v = Return true <-> checkpoint_rule best v.
Proof.
  unfold improves, checkpoint_rule. destruct best as [b|].
  - destruct (truediv (fsub b v) b) as [r|e] eqn:Ed; split.
    + intros H; inversion H. right. exists b, r. auto.
    + intros [H|(b' & r' & Hb & Hr & Hg)]; [discriminate|].
      inversion Hb; subst b'. rewrite Ed in Hr. inversion Hr; subst.
      now rewrite Hg.
    + discriminate.
    + intros [H|(b' & r' & Hb & Hr & Hg)]; [discriminate|].
      inversion Hb; subst b'. rewrite Ed in Hr. discriminate.
  - split; auto.
Qed.

(** An invariant of the epoch body is an invariant of the run. *)
Lemma run_epochs_invariant (P : State -> Prop) (dls : DataLoaders)
    (n_epochs : Z) (it : bool) :
  (forall epoch s, P s -> P (fst (epoch_body dls n_epochs it epoch s))) ->
  forall epochs s, P s -> P (fst (run_epochs dls n_epochs it epochs s)).
Proof.
  intros Hstep epochs.
  induction epochs as [|epoch rest IH]; intros s Hs; simpl; [exact Hs|].
  specialize (Hstep epoch s Hs).
  destruct (epoch_body dls n_epochs it epoch s) as [s' [u|e]]; simpl in *.
  - now apply IH.
  - exact Hstep.
Qed.

Lemma range_empty (n_epochs : Z) : (n_epochs < 1)%Z -> range 1 (n_epochs + 1) = [].
Proof.
  intros H. unfold range.
  replace (Z.to_nat (n_epochs + 1 - 1)) with 0%nat by lia. reflexivity.
Qed.

Lemma range_first (n_epochs : Z) :
  (1 <= n_epochs)%Z ->
  exists rest, range 1 (n_epochs + 1) = 1%Z :: rest.
Proof.
  intros H. unfold range.
  destruct (Z.to_nat (n_epochs + 1 - 1)) as [|k] eqn:E; [lia|].
  simpl. eauto.
Qed.

End OptimizeFacts.

(** ** Rounding in binary64

    [binary_round_aux] is the rounding every operation of the format ends
    with.  The lemmas below show that it is monotone and leaves the floats
    in place: a value between two floats is rounded to a float between
    them.  The bounds on sums, differences, products and reciprocals, and
    on the running average, follow from that. *)

Module Binary64Facts.

Local Open Scope Z_scope.

(** *** Powers of two and binary digits *)
Lemma digits2_pos_bounds (m : positive) :
  2 ^ (Zpos (digits2_pos m) - 1) <= Zpos m < 2 ^ Zpos (digits2_pos m).
Proof.
  induction m as [m IH|m IH|]; simpl digits2_pos.
  - rewrite Pos2Z.inj_succ.
    replace (Z.succ (Zpos (digits2_pos m)) - 1) with (Z.succ (Zpos (digits2_pos m) - 1)) by lia.
    rewrite !Z.pow_succ_r by lia. lia.
  - rewrite Pos2Z.inj_succ.
    replace (Z.succ (Zpos (digits2_pos m)) - 1) with (Z.succ (Zpos (digits2_pos m) - 1)) by lia.
    rewrite !Z.pow_succ_r by lia. lia.
  - simpl. lia.
Qed.

Lemma iter_pos_nat (X : Type) (f : X -> X) (p : positive) (x : X) :
  iter_pos f p x = Nat.iter (Pos.to_nat p) f x.
Proof.
  revert x. induction p as [p IH|p IH|]; intros x; cbn [iter_pos].
  - rewrite !IH, Pos2Nat.inj_xI, Nat.iter_succ_r.
    replace (2 * Pos.to_nat p)%nat with (Pos.to_nat p + Pos.to_nat p)%nat by lia.
    now rewrite Nat.iter_add.
  - rewrite !IH, Pos2Nat.inj_xO.
    replace (2 * Pos.to_nat p)%nat with (Pos.to_nat p + Pos.to_nat p)%nat by lia.
    now rewrite Nat.iter_add.
  - reflexivity.
Qed.

Lemma Zdigits2_bounds (x : Z) :
  0 < x -> 2 ^ (Zdigits2 x - 1) <= x < 2 ^ Zdigits2 x.
Proof.
  destruct x as [|p|p]; try lia. intros _. apply digits2_pos_bounds.
Qed.

Lemma Zdigits2_pos (x : Z) : 0 < x -> 0 < Zdigits2 x.
Proof. destruct x; simpl; lia. Qed.

Lemma Zdigits2_le (x k : Z) : 0 < x -> x < 2 ^ k -> Zdigits2 x <= k.
Proof.
  intros Hx Hk. pose proof (Zdigits2_bounds Hx) as [Hl _].
  destruct (Z_le_gt_dec (Zdigits2 x) k) as [|Hgt]; [assumption|].
  assert (0 <= k). { destruct (Z_le_gt_dec 0 k); [assumption|]. rewrite Z.pow_neg_r in Hk; lia. }
  assert (2 ^ k <= 2 ^ (Zdigits2 x - 1)) by (apply Z.pow_le_mono_r; lia).
  lia.
Qed.

Lemma Zdigits2_ge (x k : Z) : 0 < x -> 2 ^ (k - 1) <= x -> k <= Zdigits2 x.
Proof.
  intros Hx Hk. pose proof (Zdigits2_bounds Hx) as [_ Hu].
  pose proof (Zdigits2_pos Hx).
  destruct (Z_le_gt_dec k (Zdigits2 x)) as [|Hgt]; [assumption|].
  assert (2 ^ Zdigits2 x <= 2 ^ (k - 1)) by (apply Z.pow_le_mono_r; lia).
  lia.
Qed.

(** *** The right shift of a mantissa with its round and sticky bits *)

Lemma shr_1_rep (N D : Z) (r : shr_record) :
  shr_rep N D r -> shr_rep N (D * 2) (shr_1 r).
Proof.
  intros (HD & HN & Hm & Hx).
  assert (Hq : N / (D * 2) = N / D / 2) by (rewrite Z.div_div; lia).
  assert (Hr : N mod (D * 2) = N mod D + D * ((N / D) mod 2))
    by (apply Z.rem_mul_r; lia).
  pose proof (Z.mod_pos_bound N D HD) as Hb.
  pose proof (Z.div_pos N D HN HD) as Hp.
  destruct r as [m rb sb]; simpl in *. subst m.
  unfold shr_rep. split; [lia|]. split; [lia|].
  rewrite Hq, Hr.
  destruct (N / D) as [|[p|p|]|p] eqn:E; simpl shr_m; simpl shr_r; simpl shr_s;
    try lia.
  - split; [reflexivity|]. intros H0.
    rewrite Z.mod_0_l in H0 by lia.
    destruct Hx as [-> ->]; [lia|]. auto.
  - split; [rewrite Pos2Z.inj_xI; apply Z.div_unique with 1; lia|].
    intros H0. exfalso.
    replace (Z.pos p~1 mod 2) with 1 in H0; [lia|].
    rewrite Pos2Z.inj_xI. apply Z.mod_unique with (Zpos p); lia.
  - split; [rewrite Pos2Z.inj_xO; apply Z.div_unique with 0; lia|].
    intros H0.
    replace (Z.pos p~0 mod 2) with 0 in H0.
    2:{ rewrite Pos2Z.inj_xO. apply Z.mod_unique with (Zpos p); lia. }
    destruct Hx as [-> ->]; [lia|]. auto.
  - split; [reflexivity|]. intros H0. exfalso.
    change (1 mod 2) with 1 in H0. lia.
Qed.

Lemma shr_iter_rep (N D : Z) (n : nat) (r : shr_record) :
  shr_rep N D r -> shr_rep N (D * 2 ^ Z.of_nat n) (Nat.iter n shr_1 r).
Proof.
  intros H. induction n as [|n IH].
  - simpl. now rewrite Z.mul_1_r.
  - rewrite Nat2Z.inj_succ, Z.pow_succ_r by lia. simpl Nat.iter.
    replace (D * (2 * 2 ^ Z.of_nat n)) with (D * 2 ^ Z.of_nat n * 2) by lia.
    now apply shr_1_rep.
Qed.

Lemma shr_rep_shift (N D e n : Z) (r : shr_record) :
  shr_rep N D r -> 0 <= n ->
  snd (shr r e n) = e + n /\ shr_rep N (D * 2 ^ n) (fst (shr r e n)).
Proof.
  intros H Hn. unfold shr. destruct n as [|p|p]; try lia; simpl fst; simpl snd.
  - split; [lia|]. now rewrite Z.mul_1_r.
  - split; [reflexivity|]. rewrite iter_pos_nat.
    rewrite <- (positive_nat_Z p). now apply shr_iter_rep.
Qed.

(** *** The rounding step *)

Lemma fexp_unfold (x : Z) : fexp prec emax x = Z.max (x - 53) (-1074).
Proof. reflexivity. Qed.

Lemma round_nearest_even_bounds (m : Z) (l : location) :
  m <= round_nearest_even m l <= m + 1.
Proof. destruct l as [|[| |]]; simpl; try destruct (Z.even m); lia. Qed.

Lemma shr_rep_round (N D : Z) (r : shr_record) :
  shr_rep N D r ->
  N / D <= round_nearest_even (shr_m r) (loc_of_shr_record r) <= N / D + 1 /\
  (N mod D = 0 ->
   round_nearest_even (shr_m r) (loc_of_shr_record r) = N / D).
Proof.
  intros (HD & HN & Hm & Hx). rewrite <- Hm. split.
  - apply round_nearest_even_bounds.
  - intros H0. destruct (Hx H0) as [Hr Hs].
    destruct r as [m rb sb]; simpl in *. now subst.
Qed.

Lemma shr_rep_exact (m : Z) : 0 <= m -> shr_rep m 1 (shr_record_of_loc m loc_Exact).
Proof.
  intros Hm. unfold shr_rep; simpl. rewrite Z.div_1_r. repeat split; auto; lia.
Qed.

Lemma div_pow2_lt (m n k : Z) :
  0 <= n -> 0 <= k -> m < 2 ^ (n + k) -> m / 2 ^ n < 2 ^ k.
Proof.
  intros Hn Hk H. apply Z.div_lt_upper_bound; [apply Z.pow_pos_nonneg; lia|].
  now rewrite <- Z.pow_add_r.
Qed.

Lemma div_pow2_ge (m n k : Z) :
  0 <= n -> 0 <= k -> 2 ^ (n + k) <= m -> 2 ^ k <= m / 2 ^ n.
Proof.
  intros Hn Hk H. apply Z.div_le_lower_bound; [apply Z.pow_pos_nonneg; lia|].
  now rewrite <- Z.pow_add_r.
Qed.

(** The second shift of [binary_round_aux]: it renormalizes a rounded
    mantissa, which is at most 2^53. *)
Lemma renormalize (s : bool) (m2 e' : Z) :
  0 < m2 ->
  (2 ^ 52 <= m2 <= 2 ^ 53 /\ -1074 <= e') \/ (m2 <= 2 ^ 52 /\ e' = -1074) ->
  exists m3 e3,
    m2 = Zpos m3 * 2 ^ (e3 - e') /\ e' <= e3 /\
    canonical_mantissa prec emax m3 e3 = true /\
    (let '(mrs, e'') := shr_fexp prec emax m2 e' loc_Exact in
     match shr_m mrs with
     | Z0 => S754_zero s
     | Zpos m => if e'' <=? emax - prec then S754_finite s m e''
                 else S754_infinity s
     | Zneg _ => S754_nan
     end) = if e3 <=? emax - prec then S754_finite s m3 e3
            else S754_infinity s.
Proof.
  change (2 ^ 52) with 4503599627370496.
  change (2 ^ 53) with 9007199254740992.
  intros Hpos Hcase. unfold shr_fexp. rewrite fexp_unfold.
  destruct (Z.eq_dec m2 9007199254740992) as [E|NE].
  - (* the rounded mantissa has 54 digits: one more shift *)
    destruct Hcase as [[_ He]|[Hm _]]; [|lia].
    subst m2. change (Zdigits2 9007199254740992) with 54.
    replace (Z.max (54 + e' - 53) (-1074) - e') with 1 by lia.
    exists 4503599627370496%positive, (e' + 1). simpl shr. cbv beta iota.
    repeat split; try lia.
    + replace (e' + 1 - e') with 1 by lia. reflexivity.
    + unfold canonical_mantissa. rewrite fexp_unfold.
      change (Zpos (digits2_pos 4503599627370496)) with 53. apply Z.eqb_eq. lia.
  - assert (Hd : Zdigits2 m2 <= 53).
    { apply Zdigits2_le; [lia|]. change (2 ^ 53) with 9007199254740992. lia. }
    assert (Hf : Z.max (Zdigits2 m2 + e' - 53) (-1074) = e').
    { destruct Hcase as [[[Hl Hu] He]|[Hm He]].
      - assert (53 <= Zdigits2 m2).
        { apply Zdigits2_ge; [lia|]. change (2 ^ (53 - 1)) with 4503599627370496. lia. }
        lia.
      - lia. }
    rewrite Hf, Z.sub_diag. simpl shr. cbv beta iota.
    destruct m2 as [|m3|m3]; try lia.
    exists m3, e'. simpl shr_m. cbv beta iota.
    repeat split; try lia.
    + rewrite Z.sub_diag. simpl. lia.
    + unfold canonical_mantissa. rewrite fexp_unfold. apply Z.eqb_eq.
      exact Hf.
Qed.

Lemma shr_zero (e n : Z) :
  shr_m (fst (shr (shr_record_of_loc 0 loc_Exact) e n)) = 0.
Proof.
  destruct (Z_le_gt_dec 0 n) as [Hn|Hn].
  - destruct (shr_rep_shift e (shr_rep_exact (Z.le_refl 0)) Hn) as [_ (_ & _ & H & _)].
    rewrite H. apply Z.div_0_l.
    pose proof (Z.pow_pos_nonneg 2 n). lia.
  - destruct n; try lia. reflexivity.
Qed.

(** What [binary_round_aux] returns for the quotient N / D scaled by 2^e:
    a mantissa [R] on the grid of exponent [e'] that is the integer part of
    the scaled quotient or the next integer (the integer part itself when
    the quotient is on the grid), renormalized into a canonical float. *)
Lemma binary_round_aux_spec (s : bool) (N D e : Z) (l : location) :
  0 < D -> D <= N ->
  shr_rep N D (shr_record_of_loc (N / D) l) ->
  e <= fexp prec emax (Zdigits2 (N / D) + e) ->
  let e' := fexp prec emax (Zdigits2 (N / D) + e) in
  let D' := D * 2 ^ (e' - e) in
  exists R : Z,
    N / D' <= R <= N / D' + 1 /\
    (N mod D' = 0 -> R = N / D') /\
    ((R = 0 /\ binary_round_aux prec emax s (N / D) e l = S754_zero s) \/
     (exists m3 e3,
        R = Zpos m3 * 2 ^ (e3 - e') /\ e' <= e3 /\
        canonical_mantissa prec emax m3 e3 = true /\
        binary_round_aux prec emax s (N / D) e l =
          if e3 <=? emax - prec then S754_finite s m3 e3
          else S754_infinity s)).
Proof.
  intros HD HN Hrep He e' D'.
  assert (Hn : 0 <= e' - e) by (subst e'; lia).
  assert (Hm : 0 < N / D) by (apply Z.div_str_pos; lia).
  assert (Hbra : exists rec1,
    shr_rep N D' rec1 /\
    binary_round_aux prec emax s (N / D) e l =
      let '(mrs, e'') :=
        shr_fexp prec emax
          (round_nearest_even (shr_m rec1) (loc_of_shr_record rec1)) e'
          loc_Exact in
      match shr_m mrs with
      | Z0 => S754_zero s
      | Zpos m => if e'' <=? emax - prec then S754_finite s m e''
                  else S754_infinity s
      | Zneg _ => S754_nan
      end).
  { unfold binary_round_aux. unfold shr_fexp at 1. fold e'.
    destruct (shr_rep_shift e Hrep Hn) as [He1 Hrep1].
    destruct (shr (shr_record_of_loc (N / D) l) e (e' - e)) as [rec1 e1].
    simpl in He1, Hrep1. fold D' in Hrep1.
    replace e1 with e' by lia.
    exists rec1. split; [exact Hrep1|reflexivity]. }
  destruct Hbra as (rec1 & Hrep1 & ->).
  destruct (shr_rep_round Hrep1) as [Hb Hx].
  set (m2 := round_nearest_even (shr_m rec1) (loc_of_shr_record rec1)) in *.
  exists m2. split; [exact Hb|]. split; [exact Hx|].
  assert (Hq : N / D' = N / D / 2 ^ (e' - e)).
  { unfold D'. rewrite Z.div_div; auto; try lia. }
  assert (H1 : 0 <= N / D').
  { rewrite Hq. apply Z.div_pos; [lia|apply Z.pow_pos_nonneg; lia]. }
  destruct (Z.eq_dec m2 0) as [E0|NE0].
  - left. split; [exact E0|]. rewrite E0.
    pose proof (shr_zero e' (fexp prec emax (Zdigits2 0 + e') - e')) as Hz.
    unfold shr_fexp.
    destruct (shr (shr_record_of_loc 0 loc_Exact) e' _) as [mrs e''].
    simpl in Hz. now rewrite Hz.
  - right.
    assert (Hpos : 0 < m2) by lia.
    destruct (Zdigits2_bounds Hm) as [Hlo Hhi].
    pose proof (Zdigits2_pos Hm) as Hdp.
    set (d := Zdigits2 (N / D)) in *.
    assert (Hcase : (2 ^ 52 <= m2 <= 2 ^ 53 /\ -1074 <= e') \/
                    (m2 <= 2 ^ 52 /\ e' = -1074)).
    { subst e'. rewrite fexp_unfold in *.
      destruct (Z_le_gt_dec (-1074) (d + e - 53)) as [Hnorm|Hsub].
      - left. rewrite Z.max_l in * by lia.
        replace (d + e - 53 - e) with (d - 53) in * by lia.
        assert (2 ^ 52 <= N / D / 2 ^ (d - 53)).
        { apply div_pow2_ge; try lia.
          now replace (d - 53 + 52) with (d - 1) by lia. }
        assert (N / D / 2 ^ (d - 53) < 2 ^ 53).
        { apply div_pow2_lt; try lia.
          now replace (d - 53 + 53) with d by lia. }
        lia.
      - right. rewrite Z.max_r in * by lia. split; [|reflexivity].
        assert (N / D / 2 ^ (-1074 - e) < 2 ^ 52).
        { apply div_pow2_lt; try lia.
          apply Z.lt_le_trans with (2 ^ d); [exact Hhi|].
          apply Z.pow_le_mono_r; lia. }
        lia. }
    destruct (renormalize s Hpos Hcase) as (m3 & e3 & HR & He3 & Hc & Hres).
    exists m3, e3. repeat split; auto.
Qed.

Lemma normal_quotient (N D e : Z) :
  0 < D -> D <= N ->
  let e' := fexp prec emax (Zdigits2 (N / D) + e) in
  e <= e' -> -1074 < e' -> 2 ^ 52 <= N / (D * 2 ^ (e' - e)).
Proof.
  intros HD HN e' He Hn.
  assert (Hm : 0 < N / D) by (apply Z.div_str_pos; lia).
  destruct (Zdigits2_bounds Hm) as [Hlo Hhi].
  subst e'. rewrite fexp_unfold in *.
  rewrite <- Z.div_div; try lia.
  rewrite Z.max_l in * by lia.
  apply div_pow2_ge; try lia.
  now replace (Zdigits2 (N / D) + e - 53 - e + 52)
    with (Zdigits2 (N / D) - 1) by lia.
Qed.

(** *** Canonical mantissas and exponents *)

Lemma canonical_facts (m : positive) (e : Z) :
  canonical_mantissa prec emax m e = true ->
  -1074 <= e /\ Zpos m < 2 ^ 53 /\ (-1074 < e -> 2 ^ 52 <= Zpos m).
Proof.
  unfold canonical_mantissa. rewrite fexp_unfold. intros H.
  apply Z.eqb_eq in H.
  pose proof (digits2_pos_bounds m) as [Hlo Hhi].
  repeat split; try lia.
  - apply Z.lt_le_trans with (1 := Hhi). apply Z.pow_le_mono_r; lia.
  - intros He. replace (Zpos (digits2_pos m)) with 53 in Hlo by lia.
    exact Hlo.
Qed.

Lemma canonical_digits (m : positive) (e : Z) :
  canonical_mantissa prec emax m e = true ->
  fexp prec emax (Zpos (digits2_pos m) + e) = e.
Proof. unfold canonical_mantissa. apply Z.eqb_eq. Qed.

Lemma pow2_pos (a : Z) : 0 <= a -> 0 < 2 ^ a.
Proof. intros. apply Z.pow_pos_nonneg; lia. Qed.

Lemma pow2_split (a b : Z) : 0 <= a -> 0 <= b -> 2 ^ (a + b) = 2 ^ a * 2 ^ b.
Proof. intros. apply Z.pow_add_r; lia. Qed.

(** Among canonical floats the exponent grows with the value. *)
Lemma canonical_exp_mono (m1 m2 : positive) (e1 e2 : Z) :
  canonical_mantissa prec emax m1 e1 = true ->
  canonical_mantissa prec emax m2 e2 = true ->
  Zpos m1 * 2 ^ (e1 + 1074) <= Zpos m2 * 2 ^ (e2 + 1074) ->
  e1 <= e2.
Proof.
  intros H1 H2 Hv.
  destruct (canonical_facts _ _ H1) as (He1 & Hu1 & Hn1).
  destruct (canonical_facts _ _ H2) as (He2 & Hu2 & Hn2).
  destruct (Z_le_gt_dec e1 e2) as [|Hgt]; [assumption|exfalso].
  specialize (Hn1 ltac:(lia)).
  replace (e1 + 1074) with ((e1 - e2 - 1) + 1 + (e2 + 1074)) in Hv by lia.
  rewrite !pow2_split in Hv by lia.
  pose proof (@pow2_pos (e2 + 1074) ltac:(lia)).
  pose proof (@pow2_pos (e1 - e2 - 1) ltac:(lia)).
  change (2 ^ 52) with 4503599627370496 in *.
  change (2 ^ 53) with 9007199254740992 in *.
  change (2 ^ 1) with 2 in *.
  set (A := 2 ^ (e1 - e2 - 1)) in *. set (B := 2 ^ (e2 + 1074)) in *.
  assert (Hc : Zpos m1 * (A * 2) <= Zpos m2).
  { apply Z.mul_le_mono_pos_r with B; [assumption|].
    rewrite <- Z.mul_assoc. exact Hv. }
  assert (Zpos m1 * 2 <= Zpos m1 * (A * 2)).
  { apply Z.mul_le_mono_nonneg_l; lia. }
  lia.
Qed.

Lemma bounded_split (m : positive) (e : Z) :
  bounded prec emax m e = true <->
  canonical_mantissa prec emax m e = true /\ e <= 971.
Proof.
  unfold bounded. rewrite andb_true_iff, Z.leb_le.
  change (emax - prec) with 971. reflexivity.
Qed.

Lemma rescale (m e e' : Z) :
  -1074 <= e' -> e' <= e ->
  m * 2 ^ (e + 1074) = m * 2 ^ (e - e') * 2 ^ (e' + 1074).
Proof.
  intros H1 H2. rewrite <- Z.mul_assoc, <- pow2_split by lia.
  do 2 f_equal. lia.
Qed.

Lemma fexp_ge (x : Z) : -1074 <= fexp prec emax x.
Proof. rewrite fexp_unfold. lia. Qed.

(** *** Rounding is monotone and leaves floats in place

    The value rounded is (N / D) * 2^e; it is compared with a float across
    a common scale 2^k. *)

Section RoundBounds.

Variables (s : bool) (N D e : Z) (l : location) (k : Z).
Hypothesis HD : 0 < D.
Hypothesis HN : D <= N.
Hypothesis Hrep : shr_rep N D (shr_record_of_loc (N / D) l).
Hypothesis He : e <= fexp prec emax (Zdigits2 (N / D) + e).
Hypothesis Hk : 0 <= k.
Hypothesis Hek : 0 <= e + 1074 + k.

Let r := binary_round_aux prec emax s (N / D) e l.
Let e' := fexp prec emax (Zdigits2 (N / D) + e).
Let D' := D * 2 ^ (e' - e).

Lemma round_upper (mh : positive) (eh : Z) :
  bounded prec emax mh eh = true ->
  N * 2 ^ (e + 1074 + k) <= Zpos mh * 2 ^ (eh + 1074) * D * 2 ^ k ->
  r = S754_zero s \/
  exists m3 e3, r = S754_finite s m3 e3 /\
                bounded prec emax m3 e3 = true /\
                Zpos m3 * 2 ^ (e3 + 1074) <= Zpos mh * 2 ^ (eh + 1074).
Proof.
  intros Hb Hv. apply bounded_split in Hb as [Hc Hmax].
  destruct (canonical_facts _ _ Hc) as (Heh & Hmh & _).
  pose proof (canonical_digits _ _ Hc) as Hfh.
  assert (Hm : 0 < N / D) by (apply Z.div_str_pos; lia).
  destruct (Zdigits2_bounds Hm) as [Hlo _].
  pose proof (Zdigits2_pos Hm) as Hdp.
  pose proof (digits2_pos_bounds mh) as [_ Hdh].
  pose proof (Z.mul_div_le N D HD) as Hfl.
  set (d := Zdigits2 (N / D)) in *.
  set (dh := Zpos (digits2_pos mh)) in *.
  set (P := 2 ^ (e + 1074 + k)) in *.
  assert (HP : 0 < P) by (apply pow2_pos; lia).
  (* the bound lies on the grid of the result *)
  assert (Hee : e' <= eh).
  { assert (Hlt : 2 ^ (d - 1 + (e + 1074 + k)) < 2 ^ (dh + (eh + 1074 + k))).
    { assert (0 < dh) by (unfold dh; lia).
      rewrite (pow2_split (a:=d - 1) (b:=e + 1074 + k)) by lia. fold P.
      apply Z.mul_lt_mono_pos_l with D; [assumption|].
      apply Z.le_lt_trans with (N * P).
      - rewrite Z.mul_assoc. apply Z.mul_le_mono_nonneg_r; [lia|].
        apply Z.le_trans with (D * (N / D)); [|assumption].
        apply Z.mul_le_mono_nonneg_l; lia.
      - apply Z.le_lt_trans with (1 := Hv).
        rewrite (pow2_split (a:=dh) (b:=eh + 1074 + k)) by lia.
        rewrite (pow2_split (a:=eh + 1074) (b:=k)) by lia.
        pose proof (@pow2_pos (eh + 1074) ltac:(lia)).
        pose proof (@pow2_pos k Hk).
        replace (D * (2 ^ dh * (2 ^ (eh + 1074) * 2 ^ k)))
          with (2 ^ dh * (2 ^ (eh + 1074) * D * 2 ^ k)) by ring.
        replace (Zpos mh * 2 ^ (eh + 1074) * D * 2 ^ k)
          with (Zpos mh * (2 ^ (eh + 1074) * D * 2 ^ k)) by ring.
        apply Z.mul_lt_mono_pos_r; [|assumption].
        repeat apply Z.mul_pos_pos; assumption. }
    apply Z.pow_lt_mono_r_iff in Hlt; [|lia|lia].
    subst e'. fold d. rewrite fexp_unfold in *. lia. }
  assert (He'e : e <= e') by exact He.
  assert (He' : -1074 <= e') by apply fexp_ge.
  assert (HD' : 0 < D').
  { unfold D'. apply Z.mul_pos_pos; [assumption|apply pow2_pos; lia]. }
  set (H' := Zpos mh * 2 ^ (eh - e')).
  assert (HNH : N <= D' * H').
  { apply Z.mul_le_mono_pos_r with P; [assumption|].
    apply Z.le_trans with (1 := Hv). apply Z.eq_le_incl.
    assert (E : 2 ^ (eh + 1074) * 2 ^ k = 2 ^ (eh - e') * 2 ^ (e' - e) * P).
    { unfold P. rewrite <- !pow2_split by lia. f_equal. lia. }
    replace (Zpos mh * 2 ^ (eh + 1074) * D * 2 ^ k)
      with (Zpos mh * D * (2 ^ (eh + 1074) * 2 ^ k)) by ring.
    rewrite E. unfold D', H'. ring. }
  pose proof (binary_round_aux_spec s l HD HN Hrep He) as Hspec.
  cbv zeta in Hspec.
  change (fexp prec emax (Zdigits2 (N / D) + e)) with e' in Hspec.
  change (D * 2 ^ (e' - e)) with D' in Hspec.
  change (binary_round_aux prec emax s (N / D) e l) with r in Hspec.
  destruct Hspec as (R & [HR1 HR2] & HRx & Hres).
  assert (HRH : R <= H').
  { assert (N / D' <= H') by (apply Z.div_le_upper_bound; assumption).
    destruct (Z.eq_dec (N mod D') 0) as [E|NE]; [rewrite (HRx E); assumption|].
    pose proof (Z.div_mod N D' ltac:(lia)).
    pose proof (Z.mod_pos_bound N D' HD').
    assert (N / D' < H'); [|lia].
    destruct (Z_lt_ge_dec (N / D') H') as [|Hge]; [assumption|exfalso].
    assert (D' * H' <= D' * (N / D')) by (apply Z.mul_le_mono_nonneg_l; lia).
    lia. }
  destruct Hres as [[_ Hz]|(m3 & e3 & HR & He3 & Hc3 & Hr)]; [now left|right].
  assert (Hval : Zpos m3 * 2 ^ (e3 + 1074) <= Zpos mh * 2 ^ (eh + 1074)).
  { rewrite (rescale (Zpos m3) He' He3), (rescale (Zpos mh) He' Hee).
    apply Z.mul_le_mono_nonneg_r; [apply Z.lt_le_incl, pow2_pos; lia|].
    rewrite <- HR. exact HRH. }
  pose proof (canonical_exp_mono _ _ _ _ Hc3 Hc Hval) as Hle.
  exists m3, e3. change (emax - prec) with 971 in Hr.
  replace (e3 <=? 971) with true in Hr by (symmetry; apply Z.leb_le; lia).
  repeat split; auto. apply bounded_split. split; [assumption|lia].
Qed.

Lemma round_lower (ml : positive) (el : Z) :
  bounded prec emax ml el = true ->
  Zpos ml * 2 ^ (el + 1074) * D * 2 ^ k <= N * 2 ^ (e + 1074 + k) ->
  r = S754_infinity s \/
  exists m3 e3, r = S754_finite s m3 e3 /\
                bounded prec emax m3 e3 = true /\
                Zpos ml * 2 ^ (el + 1074) <= Zpos m3 * 2 ^ (e3 + 1074).
Proof.
  intros Hb Hv. apply bounded_split in Hb as [Hc Hmax].
  destruct (canonical_facts _ _ Hc) as (Hel & Hml & _).
  assert (Hm : 0 < N / D) by (apply Z.div_str_pos; lia).
  set (P := 2 ^ (e + 1074 + k)) in *.
  assert (HP : 0 < P) by (apply pow2_pos; lia).
  assert (He'e : e <= e') by exact He.
  assert (He' : -1074 <= e') by apply fexp_ge.
  assert (HD' : 0 < D').
  { unfold D'. apply Z.mul_pos_pos; [assumption|apply pow2_pos; lia]. }
  pose proof (binary_round_aux_spec s l HD HN Hrep He) as Hspec.
  cbv zeta in Hspec.
  change (fexp prec emax (Zdigits2 (N / D) + e)) with e' in Hspec.
  change (D * 2 ^ (e' - e)) with D' in Hspec.
  change (binary_round_aux prec emax s (N / D) e l) with r in Hspec.
  destruct Hspec as (R & [HR1 HR2] & HRx & Hres).
  (* the rounded mantissa, scaled, is at least the bound *)
  assert (HRL : Zpos ml * 2 ^ (el + 1074) <= R * 2 ^ (e' + 1074)).
  { destruct (Z_le_gt_dec e' el) as [Hle|Hgt].
    - rewrite (rescale (Zpos ml) He' Hle).
      apply Z.mul_le_mono_nonneg_r; [apply Z.lt_le_incl, pow2_pos; lia|].
      apply Z.le_trans with (2 := HR1).
      apply Z.div_le_lower_bound; [assumption|].
      apply Z.mul_le_mono_pos_r with P; [assumption|].
      apply Z.le_trans with (2 := Hv). apply Z.eq_le_incl.
      assert (E : 2 ^ (el + 1074) * 2 ^ k
                  = 2 ^ (el - e') * 2 ^ (e' - e) * P).
      { unfold P. rewrite <- !pow2_split by lia. f_equal. lia. }
      replace (Zpos ml * 2 ^ (el + 1074) * D * 2 ^ k)
        with (Zpos ml * D * (2 ^ (el + 1074) * 2 ^ k)) by ring.
      rewrite E. unfold D'. ring.
    - assert (Hn : -1074 < fexp prec emax (Zdigits2 (N / D) + e))
        by (fold e'; lia).
      pose proof (@normal_quotient N D e HD HN He Hn) as Hq.
      change (fexp prec emax (Zdigits2 (N / D) + e)) with e' in Hq.
      change (D * 2 ^ (e' - e)) with D' in Hq.
      replace (e' + 1074) with ((e' - el - 1) + 1 + (el + 1074)) by lia.
      rewrite (pow2_split (a:=e' - el - 1 + 1) (b:=el + 1074)) by lia.
      rewrite (pow2_split (a:=e' - el - 1) (b:=1)) by lia.
      pose proof (@pow2_pos (el + 1074) ltac:(lia)).
      pose proof (@pow2_pos (e' - el - 1) ltac:(lia)).
      change (2 ^ 52) with 4503599627370496 in *.
      change (2 ^ 53) with 9007199254740992 in *.
      change (2 ^ 1) with 2.
      set (A := 2 ^ (e' - el - 1)) in *. set (B := 2 ^ (el + 1074)) in *.
      rewrite !Z.mul_assoc.
      apply Z.mul_le_mono_nonneg_r; [lia|].
      assert (4503599627370496 * 2 <= R * A * 2); [|lia].
      apply Z.mul_le_mono_nonneg_r; [lia|].
      apply Z.le_trans with (R * 1); [lia|].
      apply Z.mul_le_mono_nonneg_l; lia. }
  assert (HRpos : 0 < R).
  { pose proof (@pow2_pos (el + 1074) ltac:(lia)).
    pose proof (@pow2_pos (e' + 1074) ltac:(lia)).
    assert (0 < R * 2 ^ (e' + 1074)) by nia. nia. }
  destruct Hres as [[Hz _]|(m3 & e3 & HR & He3 & Hc3 & Hr)]; [lia|].
  change (emax - prec) with 971 in Hr.
  destruct (e3 <=? 971) eqn:E3; [right|now left].
  apply Z.leb_le in E3.
  exists m3, e3. repeat split; auto.
  - apply bounded_split. split; assumption.
  - rewrite (rescale (Zpos m3) He' He3), <- HR. exact HRL.
Qed.

End RoundBounds.

Lemma finite_wf_cases (x : float) :
  finite_wf x = true ->
  (exists s, x = S754_zero s) \/
  (exists s m e, x = S754_finite s m e /\ bounded prec emax m e = true).
Proof.
  destruct x as [s|s| |s m e]; simpl; try discriminate; intros H.
  - left. eauto.
  - right. exists s, m, e. auto.
Qed.

Lemma F2Z_pos (m : positive) (e : Z) :
  -1074 <= e -> 0 < Zpos m * 2 ^ (e + 1074).
Proof. intros. apply Z.mul_pos_pos; [lia|apply pow2_pos; lia]. Qed.

Lemma bounded_pos (m : positive) (e : Z) :
  bounded prec emax m e = true -> 0 < Zpos m * 2 ^ (e + 1074).
Proof.
  intros H. apply bounded_split in H as [Hc _].
  apply F2Z_pos. now destruct (canonical_facts _ _ Hc).
Qed.

Section RoundBetween.

Variables (s : bool) (N D e : Z) (l : location) (k : Z).
Hypothesis HD : 0 < D.
Hypothesis HN : D <= N.
Hypothesis Hrep : shr_rep N D (shr_record_of_loc (N / D) l).
Hypothesis He : e <= fexp prec emax (Zdigits2 (N / D) + e).
Hypothesis Hk : 0 <= k.
Hypothesis Hek : 0 <= e + 1074 + k.

Let r := binary_round_aux prec emax s (N / D) e l.

(** Rounding keeps a value between two floats between them. *)
Lemma round_between (lo hi : float) :
  finite_wf lo = true -> finite_wf hi = true ->
  F2Z lo * D * 2 ^ k <= cond_Zopp s (N * 2 ^ (e + 1074 + k)) ->
  cond_Zopp s (N * 2 ^ (e + 1074 + k)) <= F2Z hi * D * 2 ^ k ->
  finite_wf r = true /\ F2Z lo <= F2Z r <= F2Z hi.
Proof.
  intros Hlo Hhi Hl Hh.
  assert (HP : 0 < N * 2 ^ (e + 1074 + k)).
  { apply Z.mul_pos_pos; [lia|apply pow2_pos; lia]. }
  assert (HK : 0 < D * 2 ^ k).
  { apply Z.mul_pos_pos; [lia|apply pow2_pos; lia]. }
  assert (Hsgn : forall v, 0 < v * D * 2 ^ k -> 0 < v).
  { intros v Hv. rewrite <- Z.mul_assoc in Hv. nia. }
  assert (Hsgn' : forall v, v * D * 2 ^ k < 0 -> v < 0).
  { intros v Hv. rewrite <- Z.mul_assoc in Hv. nia. }
  pose proof (@round_upper s N D e l k HD HN Hrep He Hk Hek) as Up.
  pose proof (@round_lower s N D e l k HD HN Hrep He Hk Hek) as Low.
  fold r in Up, Low.
  destruct s; cbn [cond_Zopp] in *.
  - (* a negative value: the lower bound is negative *)
    assert (Hneg : F2Z lo < 0) by (apply Hsgn'; lia).
    destruct (finite_wf_cases _ Hlo) as [[sl ->]|(sl & ml & el & -> & Hbl)];
      [cbn [F2Z] in Hneg; lia|].
    pose proof (bounded_pos _ _ Hbl) as Hpl.
    destruct sl; cbn [F2Z cond_Zopp] in Hneg, Hl; [|lia].
    assert (Hu : N * 2 ^ (e + 1074 + k)
                 <= Zpos ml * 2 ^ (el + 1074) * D * 2 ^ k).
    { rewrite !Z.mul_opp_l in Hl. lia. }
    destruct (Up ml el Hbl Hu) as [Hr|(m3 & e3 & Hr & Hb3 & Hv3)].
    + rewrite Hr. split; [reflexivity|]. cbn [F2Z cond_Zopp]. split; [lia|].
      destruct (finite_wf_cases _ Hhi) as [[sh ->]|(sh & mh & eh & -> & Hbh)];
        [cbn [F2Z cond_Zopp]; lia|].
      pose proof (bounded_pos _ _ Hbh). destruct sh; cbn [F2Z cond_Zopp] in *; [|lia].
      exfalso.
      assert (Hd : Zpos mh * 2 ^ (eh + 1074) * D * 2 ^ k
                   <= N * 2 ^ (e + 1074 + k)).
      { rewrite !Z.mul_opp_l in Hh. lia. }
      destruct (Low mh eh Hbh Hd) as [Hr'|(m4 & e4 & Hr' & _)]; congruence.
    + rewrite Hr. split; [exact Hb3|]. cbn [F2Z cond_Zopp].
      split; [lia|].
      destruct (finite_wf_cases _ Hhi) as [[sh ->]|(sh & mh & eh & -> & Hbh)].
      * pose proof (bounded_pos _ _ Hb3). cbn [F2Z cond_Zopp]. lia.
      * pose proof (bounded_pos _ _ Hbh). pose proof (bounded_pos _ _ Hb3).
        destruct sh; cbn [F2Z cond_Zopp] in *; [|lia].
        assert (Hd : Zpos mh * 2 ^ (eh + 1074) * D * 2 ^ k
                     <= N * 2 ^ (e + 1074 + k)).
        { rewrite !Z.mul_opp_l in Hh. lia. }
        destruct (Low mh eh Hbh Hd) as [Hr'|(m4 & e4 & Hr' & _ & Hv4)];
          [congruence|].
        rewrite Hr in Hr'. inversion Hr'; subst. lia.
  - (* a positive value: the upper bound is positive *)
    assert (Hpos : 0 < F2Z hi) by (apply Hsgn; lia).
    destruct (finite_wf_cases _ Hhi) as [[sh ->]|(sh & mh & eh & -> & Hbh)];
      [cbn [F2Z] in Hpos; lia|].
    pose proof (bounded_pos _ _ Hbh) as Hph.
    destruct sh; cbn [F2Z cond_Zopp] in Hpos, Hh; [lia|].
    destruct (Up mh eh Hbh Hh) as [Hr|(m3 & e3 & Hr & Hb3 & Hv3)].
    + rewrite Hr. split; [reflexivity|]. cbn [F2Z cond_Zopp]. split; [|lia].
      destruct (finite_wf_cases _ Hlo) as [[sl ->]|(sl & ml & el & -> & Hbl)];
        [cbn [F2Z cond_Zopp]; lia|].
      pose proof (bounded_pos _ _ Hbl). destruct sl; cbn [F2Z cond_Zopp] in *; [lia|].
      exfalso.
      destruct (Low ml el Hbl Hl) as [Hr'|(m4 & e4 & Hr' & _)]; congruence.
    + rewrite Hr. split; [exact Hb3|]. cbn [F2Z cond_Zopp].
      split; [|lia].
      destruct (finite_wf_cases _ Hlo) as [[sl ->]|(sl & ml & el & -> & Hbl)].
      * pose proof (bounded_pos _ _ Hb3). cbn [F2Z cond_Zopp]. lia.
      * pose proof (bounded_pos _ _ Hbl). pose proof (bounded_pos _ _ Hb3).
        destruct sl; cbn [F2Z cond_Zopp] in *; [lia|].
        destruct (Low ml el Hbl Hl) as [Hr'|(m4 & e4 & Hr' & _ & Hv4)];
          [congruence|].
        rewrite Hr in Hr'. inversion Hr'; subst. lia.
Qed.

End RoundBetween.

(** *** Sums, differences and products *)

Lemma shl_align_spec (m : positive) (e e0 : Z) :
  snd (shl_align m e e0) = Z.min e e0 /\
  Zpos (fst (shl_align m e e0)) = Zpos m * 2 ^ (e - Z.min e e0).
Proof.
  unfold shl_align. destruct (e0 - e) as [|p|p] eqn:E; simpl fst; simpl snd.
  - rewrite Z.min_l by lia. rewrite Z.sub_diag. simpl. lia.
  - rewrite Z.min_l by lia. rewrite Z.sub_diag. simpl. lia.
  - rewrite Z.min_r by lia. split; [reflexivity|].
    change (Pos.iter xO m p) with (shift_pos p m).
    rewrite shift_pos_correct, Z.pow_pos_fold.
    replace (e - e0) with (Zpos p) by lia. lia.
Qed.

Lemma Zdigits2_shift (m j : Z) :
  0 < m -> 0 <= j -> Zdigits2 (m * 2 ^ j) = Zdigits2 m + j.
Proof.
  intros Hm Hj. destruct (Zdigits2_bounds Hm) as [Hlo Hhi].
  pose proof (Zdigits2_pos Hm) as Hd.
  pose proof (@pow2_pos j Hj) as Hp.
  assert (Hmp : 0 < m * 2 ^ j) by (apply Z.mul_pos_pos; assumption).
  apply Z.le_antisymm.
  - apply Zdigits2_le; [assumption|].
    rewrite pow2_split by lia. apply Z.mul_lt_mono_pos_r; assumption.
  - apply Zdigits2_ge; [assumption|].
    replace (Zdigits2 m + j - 1) with (Zdigits2 m - 1 + j) by lia.
    rewrite pow2_split by lia. apply Z.mul_le_mono_nonneg_r; lia.
Qed.

Section RoundOps.

Variables (lo hi : float).
Hypothesis Hlo : finite_wf lo = true.
Hypothesis Hhi : finite_wf hi = true.

(** The same for an integer mantissa, as [binary_round_aux] is called by
    the multiplication. *)
Lemma round_exact_between (s : bool) (m : positive) (e k : Z) :
  e <= fexp prec emax (Zpos (digits2_pos m) + e) ->
  0 <= k -> 0 <= e + 1074 + k ->
  F2Z lo * 2 ^ k <= cond_Zopp s (Zpos m * 2 ^ (e + 1074 + k)) ->
  cond_Zopp s (Zpos m * 2 ^ (e + 1074 + k)) <= F2Z hi * 2 ^ k ->
  finite_wf (binary_round_aux prec emax s (Zpos m) e loc_Exact) = true /\
  F2Z lo <= F2Z (binary_round_aux prec emax s (Zpos m) e loc_Exact) <= F2Z hi.
Proof.
  intros He Hk Hek Hl Hh.
  rewrite <- (Z.div_1_r (Zpos m)).
  apply round_between with (k := k); auto; try lia.
  - rewrite Z.div_1_r. apply shr_rep_exact. lia.
  - rewrite Z.div_1_r. exact He.
Qed.

Lemma binary_round_between (s : bool) (m : positive) (e k : Z) :
  0 <= k -> 0 <= e + 1074 + k ->
  F2Z lo * 2 ^ k <= cond_Zopp s (Zpos m * 2 ^ (e + 1074 + k)) ->
  cond_Zopp s (Zpos m * 2 ^ (e + 1074 + k)) <= F2Z hi * 2 ^ k ->
  finite_wf (binary_round prec emax s m e) = true /\
  F2Z lo <= F2Z (binary_round prec emax s m e) <= F2Z hi.
Proof.
  intros Hk Hek Hl Hh. unfold binary_round.
  set (f := fexp prec emax (Zpos (digits2_pos m) + e)).
  destruct (shl_align_spec m e f) as [Hez Hmz].
  destruct (shl_align m e f) as [mz ez]. cbn [fst snd] in Hez, Hmz.
  pose proof (fexp_ge (Zpos (digits2_pos m) + e)) as Hf. fold f in Hf.
  assert (Hdig : Zpos (digits2_pos mz) + ez = Zpos (digits2_pos m) + e).
  { change (Zpos (digits2_pos mz)) with (Zdigits2 (Zpos mz)).
    rewrite Hmz, Zdigits2_shift by lia. simpl Zdigits2. lia. }
  assert (Hval : Zpos mz * 2 ^ (ez + 1074 + k) = Zpos m * 2 ^ (e + 1074 + k)).
  { rewrite Hmz, <- Z.mul_assoc, <- pow2_split by lia.
    do 2 f_equal. lia. }
  apply round_exact_between with (k := k); try lia.
  - rewrite Hdig. fold f. lia.
  - now rewrite Hval.
  - now rewrite Hval.
Qed.

Lemma binary_normalize_between (z e k : Z) (szero : bool) :
  0 <= k -> 0 <= e + 1074 + k ->
  F2Z lo * 2 ^ k <= z * 2 ^ (e + 1074 + k) <= F2Z hi * 2 ^ k ->
  finite_wf (binary_normalize prec emax z e szero) = true /\
  F2Z lo <= F2Z (binary_normalize prec emax z e szero) <= F2Z hi.
Proof.
  intros Hk Hek [Hl Hh]. pose proof (@pow2_pos k Hk) as Hp.
  destruct z as [|m|m]; simpl binary_normalize.
  - split; [reflexivity|]. simpl F2Z. nia.
  - apply binary_round_between with (k := k); auto.
  - apply binary_round_between with (k := k); auto;
      cbn [cond_Zopp]; rewrite <- Z.mul_opp_l; assumption.
Qed.

End RoundOps.

Lemma aligned_value (s : bool) (m : positive) (e ez : Z) :
  ez <= e -> -1074 <= ez ->
  cond_Zopp s (Zpos (fst (shl_align m e ez))) * 2 ^ (ez + 1074)
  = F2Z (S754_finite s m e).
Proof.
  intros H1 H2. destruct (shl_align_spec m e ez) as [_ Hm].
  rewrite Hm, Z.min_r by lia. cbn [F2Z].
  replace (e + 1074) with ((e - ez) + (ez + 1074)) by lia.
  rewrite (pow2_split (a:=e - ez) (b:=ez + 1074)) by lia.
  destruct s; cbn [cond_Zopp]; ring.
Qed.

Lemma bounded_exp (m : positive) (e : Z) :
  bounded prec emax m e = true -> -1074 <= e.
Proof.
  intros H. apply bounded_split in H as [Hc _].
  now destruct (canonical_facts _ _ Hc).
Qed.

Section Operations.

Variables (x y lo hi : float).
Hypothesis Hx : finite_wf x = true.
Hypothesis Hy : finite_wf y = true.
Hypothesis Hlo : finite_wf lo = true.
Hypothesis Hhi : finite_wf hi = true.

Lemma fadd_between :
  F2Z lo <= F2Z x + F2Z y <= F2Z hi ->
  finite_wf (fadd x y) = true /\ F2Z lo <= F2Z (fadd x y) <= F2Z hi.
Proof.
  intros Hb.
  destruct (finite_wf_cases _ Hx) as [[sx ->]|(sx & mx & ex & -> & Hbx)];
    destruct (finite_wf_cases _ Hy) as [[sy ->]|(sy & my & ey & -> & Hby)].
  - destruct sx, sy; cbn in *; split; auto; lia.
  - cbn [fadd SFadd] in *. unfold fadd; cbn [SFadd]. split; [assumption|].
    cbn [F2Z] in *. lia.
  - unfold fadd; cbn [SFadd]. split; [assumption|]. cbn [F2Z] in *. lia.
  - unfold fadd; cbn [SFadd].
    pose proof (bounded_exp _ _ Hbx). pose proof (bounded_exp _ _ Hby).
    apply binary_normalize_between with (k := 0); auto; try lia.
    rewrite !Z.add_0_r. change (2 ^ 0) with 1. rewrite !Z.mul_1_r.
    rewrite Z.mul_add_distr_r, !aligned_value by lia. exact Hb.
Qed.

Lemma fsub_between :
  F2Z lo <= F2Z x - F2Z y <= F2Z hi ->
  finite_wf (fsub x y) = true /\ F2Z lo <= F2Z (fsub x y) <= F2Z hi.
Proof.
  intros Hb.
  destruct (finite_wf_cases _ Hx) as [[sx ->]|(sx & mx & ex & -> & Hbx)];
    destruct (finite_wf_cases _ Hy) as [[sy ->]|(sy & my & ey & -> & Hby)].
  - destruct sx, sy; cbn in *; split; auto; lia.
  - unfold fsub; cbn [SFsub]. split; [exact Hy|].
    cbn [F2Z] in *. destruct sy; cbn [negb cond_Zopp] in *; lia.
  - unfold fsub; cbn [SFsub]. split; [assumption|]. cbn [F2Z] in *. lia.
  - unfold fsub; cbn [SFsub].
    pose proof (bounded_exp _ _ Hbx). pose proof (bounded_exp _ _ Hby).
    apply binary_normalize_between with (k := 0); auto; try lia.
    rewrite !Z.add_0_r. change (2 ^ 0) with 1. rewrite !Z.mul_1_r.
    rewrite Z.mul_sub_distr_r, !aligned_value by lia. exact Hb.
Qed.

Lemma fmul_between :
  F2Z lo * 2 ^ 1074 <= F2Z x * F2Z y <= F2Z hi * 2 ^ 1074 ->
  finite_wf (fmul x y) = true /\ F2Z lo <= F2Z (fmul x y) <= F2Z hi.
Proof.
  intros Hb. pose proof (@pow2_pos 1074 ltac:(lia)) as HU.
  set (U := 2 ^ 1074) in *.
  destruct (finite_wf_cases _ Hx) as [[sx ->]|(sx & mx & ex & -> & Hbx)];
    destruct (finite_wf_cases _ Hy) as [[sy ->]|(sy & my & ey & -> & Hby)].
  - unfold fmul; cbn [SFmul F2Z] in *. split; [reflexivity|nia].
  - unfold fmul; cbn [SFmul]. cbn [F2Z] in Hb |- *. split; [reflexivity|nia].
  - unfold fmul; cbn [SFmul]. cbn [F2Z] in Hb |- *.
    rewrite Z.mul_0_r in Hb. split; [reflexivity|nia].
  - unfold fmul; cbn [SFmul].
    apply bounded_split in Hbx as [Hcx _]. apply bounded_split in Hby as [Hcy _].
    destruct (canonical_facts _ _ Hcx) as (Hex & Hux & Hnx).
    destruct (canonical_facts _ _ Hcy) as (Hey & Huy & Hny).
    assert (Hval : cond_Zopp (xorb sx sy)
                     (Zpos (mx * my) * 2 ^ (ex + ey + 1074 + 1074))
                   = F2Z (S754_finite sx mx ex) * F2Z (S754_finite sy my ey)).
    { cbn [F2Z]. replace (ex + ey + 1074 + 1074)
        with ((ex + 1074) + (ey + 1074)) by lia.
      rewrite (pow2_split (a:=ex + 1074) (b:=ey + 1074)), Pos2Z.inj_mul
        by lia.
      destruct sx, sy; cbn [xorb cond_Zopp]; ring. }
    apply round_exact_between with (k := 1074); auto; try lia.
    (* the product has enough digits for its exponent *)
    rewrite fexp_unfold.
      destruct (Z_le_gt_dec (ex + ey) (-1074)) as [|Hgt]; [lia|].
      assert (Hp : 2 ^ 52 <= Zpos (mx * my)).
      { rewrite Pos2Z.inj_mul.
        destruct (Z_le_gt_dec ex (-1074)).
        - specialize (Hny ltac:(lia)). nia.
        - specialize (Hnx ltac:(lia)). nia. }
      assert (53 <= Zdigits2 (Zpos (mx * my)))
        by (apply Zdigits2_ge; [lia|exact Hp]).
      cbn [Zdigits2] in *. lia.
Qed.

End Operations.

(** *** The reciprocal of a batch number *)

Lemma pow2_float_spec (s : bool) (j : Z) :
  0 <= j <= 2097 ->
  finite_wf (pow2_float s j) = true /\
  F2Z (pow2_float s j) = cond_Zopp s (2 ^ j).
Proof.
  intros Hj. unfold pow2_float. pose proof (@pow2_pos j ltac:(lia)) as Hp.
  destruct (Z.ltb_spec j 52) as [Hlt|Hge].
  - split.
    + unfold finite_wf, wf; cbn [is_finite valid_binary andb].
      apply bounded_split. split; [|lia].
      unfold canonical_mantissa. apply Z.eqb_eq. rewrite fexp_unfold.
      change (Zpos (digits2_pos (Z.to_pos (2 ^ j))))
        with (Zdigits2 (Zpos (Z.to_pos (2 ^ j)))).
      rewrite Z2Pos.id by assumption.
      replace (2 ^ j) with (1 * 2 ^ j) by lia.
      rewrite Zdigits2_shift by lia. cbn [Zdigits2 digits2_pos]. lia.
    + cbn [F2Z]. rewrite Z2Pos.id by assumption.
      change (2 ^ (-1074 + 1074)) with 1. now rewrite Z.mul_1_r.
  - split.
    + unfold finite_wf, wf; cbn [is_finite valid_binary andb].
      apply bounded_split. split; [|lia].
      unfold canonical_mantissa. apply Z.eqb_eq. rewrite fexp_unfold.
      change (Zpos (digits2_pos 4503599627370496)) with 53. lia.
    + cbn [F2Z]. change 4503599627370496 with (2 ^ 52).
      rewrite <- pow2_split by lia. do 2 f_equal. lia.
Qed.

Lemma binary_round_lower (s : bool) (m ml : positive) (e el : Z) :
  -1074 <= e ->
  bounded prec emax ml el = true ->
  Zpos ml * 2 ^ (el + 1074) <= Zpos m * 2 ^ (e + 1074) ->
  binary_round prec emax s m e = S754_infinity s \/
  exists m3 e3, binary_round prec emax s m e = S754_finite s m3 e3 /\
                bounded prec emax m3 e3 = true /\
                Zpos ml * 2 ^ (el + 1074) <= Zpos m3 * 2 ^ (e3 + 1074).
Proof.
  intros He Hb Hv. unfold binary_round.
  set (f := fexp prec emax (Zpos (digits2_pos m) + e)).
  destruct (shl_align_spec m e f) as [Hez Hmz].
  destruct (shl_align m e f) as [mz ez]. cbn [fst snd] in Hez, Hmz.
  pose proof (fexp_ge (Zpos (digits2_pos m) + e)) as Hf. fold f in Hf.
  assert (Hdig : Zpos (digits2_pos mz) + ez = Zpos (digits2_pos m) + e).
  { change (Zpos (digits2_pos mz)) with (Zdigits2 (Zpos mz)).
    rewrite Hmz, Zdigits2_shift by lia. simpl Zdigits2. lia. }
  assert (Hval : Zpos mz * 2 ^ (ez + 1074) = Zpos m * 2 ^ (e + 1074)).
  { rewrite Hmz, <- Z.mul_assoc, <- pow2_split by lia.
    do 2 f_equal. lia. }
  rewrite <- (Z.div_1_r (Zpos mz)).
  apply round_lower with (k := 0); try lia.
  - rewrite Z.div_1_r. apply shr_rep_exact. lia.
  - rewrite Z.div_1_r. cbn [Zdigits2]. rewrite Hdig. fold f. lia.
  - assumption.
  - rewrite Z.add_0_r, Hval. change (2 ^ 0) with 1. lia.
Qed.

Lemma new_location_rep (N D : Z) :
  0 < D -> 0 <= N ->
  shr_rep N D (shr_record_of_loc (N / D) (new_location D (N mod D))).
Proof.
  intros HD HN. unfold shr_rep. repeat split; auto.
  - now destruct (new_location D (N mod D)) as [|[| |]].
  - rewrite H. unfold new_location, new_location_even, new_location_odd.
    now destruct (Z.even D).
  - rewrite H. unfold new_location, new_location_even, new_location_odd.
    now destruct (Z.even D).
Qed.

(** [1.0 / y] for a float [y >= 2] is at most 0.5. *)
Lemma recip_bounds (my : positive) (ey : Z) :
  bounded prec emax my ey = true ->
  2 ^ 1075 <= Zpos my * 2 ^ (ey + 1074) ->
  let c := SFdiv prec emax (S754_finite false 4503599627370496 (-52))
             (S754_finite false my ey) in
  finite_wf c = true /\ 0 <= F2Z c <= 2 ^ 1073.
Proof.
  intros Hb Hv c. subst c. cbn [SFdiv xorb].
  apply bounded_split in Hb as [Hc Hmax].
  destruct (canonical_facts _ _ Hc) as (Hey & Hmy & _).
  pose proof (digits2_pos_bounds my) as [Hdl Hdh].
  unfold SFdiv_core_binary.
  change (Zdigits2 (Zpos 4503599627370496)) with 53.
  cbn [Zdigits2].
  set (d2 := Zpos (digits2_pos my)) in *.
  assert (Hd2 : 1 <= d2 <= 53).
  { split; [unfold d2; lia|].
    change (Zpos my) with (Zpos my) in Hmy.
    unfold d2. change (Zpos (digits2_pos my)) with (Zdigits2 (Zpos my)).
    apply Zdigits2_le; [lia|exact Hmy]. }
  set (e' := Z.min (fexp prec emax (53 + -52 - (d2 + ey))) (-52 - ey)).
  assert (He' : -1074 <= e').
  { unfold e'. rewrite fexp_unfold. lia. }
  set (sh := -52 - ey - e').
  assert (Hsh : 1 <= sh).
  { unfold sh, e'. rewrite fexp_unfold. lia. }
  assert (Hm' : forall m1,
             match sh with
             | Z0 => m1
             | Zpos _ => Z.shiftl m1 sh
             | Zneg _ => 0
             end = m1 * 2 ^ sh).
  { intros m1. clearbody sh. destruct sh as [|p|p]; try lia.
    apply Z.shiftl_mul_pow2. lia. }
  rewrite Hm'. clear Hm'.
  change (Zpos 4503599627370496) with (2 ^ 52).
  rewrite <- pow2_split by lia.
  set (N := 2 ^ (52 + sh)).
  assert (HN : Zpos my <= N).
  { unfold N. apply Z.le_trans with (2 ^ 53); [lia|].
    apply Z.pow_le_mono_r; lia. }
  assert (HNpos : 0 < N) by (apply pow2_pos; lia).
  assert (Hdiv : Z.div_eucl N (Zpos my) = (N / Zpos my, N mod Zpos my)).
  { unfold Z.div, Z.modulo. now destruct (Z.div_eucl N (Zpos my)). }
  rewrite Hdiv.
  assert (Hq : 2 ^ (52 + sh - d2) <= N / Zpos my).
  { apply Z.div_le_lower_bound; [lia|].
    apply Z.le_trans with (2 ^ d2 * 2 ^ (52 + sh - d2)).
    - apply Z.mul_le_mono_nonneg_r; [apply Z.lt_le_incl, pow2_pos; lia|lia].
    - rewrite <- pow2_split by lia. unfold N. apply Z.eq_le_incl.
      f_equal. lia. }
  assert (Hqpos : 0 < N / Zpos my).
  { apply Z.lt_le_trans with (2 := Hq). apply pow2_pos. lia. }
  assert (Hdq : 53 + sh - d2 <= Zdigits2 (N / Zpos my)).
  { apply Zdigits2_ge; [assumption|].
    now replace (53 + sh - d2 - 1) with (52 + sh - d2) by lia. }
  destruct (pow2_float_spec false (j:=1073) ltac:(lia)) as [Hhw Hhv].
  cbn [cond_Zopp] in Hhv.
  assert (R : finite_wf (binary_round_aux prec emax false (N / Zpos my) e'
                           (new_location (Zpos my) (N mod Zpos my))) = true /\
              F2Z zero
              <= F2Z (binary_round_aux prec emax false (N / Zpos my) e'
                        (new_location (Zpos my) (N mod Zpos my)))
              <= F2Z (pow2_float false 1073)).
  { apply round_between with (k := 0); auto; try lia.
    - apply new_location_rep; lia.
    - unfold e' at 1. rewrite !fexp_unfold. unfold sh in Hdq. lia.
    - cbn [F2Z zero cond_Zopp]. rewrite Z.add_0_r.
      pose proof (@pow2_pos (e' + 1074) ltac:(lia)). nia.
    - rewrite Hhv. cbn [cond_Zopp]. rewrite Z.add_0_r.
      change (2 ^ 0) with 1. rewrite Z.mul_1_r.
      unfold N. rewrite <- pow2_split by lia.
      replace (52 + sh + (e' + 1074)) with (1074 - ey) by (unfold sh; lia).
      pose proof (@pow2_pos (ey + 1074) ltac:(lia)) as Hpe.
      apply Z.mul_le_mono_pos_r with (2 ^ (ey + 1074)); [assumption|].
      rewrite <- pow2_split by lia.
      replace (1074 - ey + (ey + 1074)) with (1073 + 1075) by lia.
      rewrite pow2_split by lia. rewrite <- Z.mul_assoc.
      apply Z.mul_le_mono_nonneg_l; [apply Z.lt_le_incl, pow2_pos; lia|].
      exact Hv. }
  rewrite Hhv in R. exact R.
Qed.

Lemma int_recip_one : int_recip 1 = S754_finite false 4503599627370496 (-52).
Proof. vm_compute. reflexivity. Qed.

Lemma int_recip_bounds (k : positive) :
  2 <= Zpos k ->
  finite_wf (int_recip k) = true /\ 0 <= F2Z (int_recip k) <= 2 ^ 1073.
Proof.
  intros Hk. unfold int_recip.
  change (of_int 1) with (S754_finite false 4503599627370496 (-52)).
  unfold of_int. cbn [binary_normalize].
  destruct (@binary_round_lower false k 4503599627370496 0 (-51))
    as [Hr|(m & e & Hr & Hb & Hv)]; try lia; try reflexivity.
  - rewrite Hr. cbn [SFdiv xorb F2Z]. split; [reflexivity|].
    pose proof (@pow2_pos 1073 ltac:(lia)). lia.
  - rewrite Hr. apply recip_bounds; [assumption|].
    apply Z.le_trans with (2 := Hv). apply Z.eq_le_incl. reflexivity.
Qed.

(** *** The running average stays between its inputs *)

Lemma log2_up_bounds (t : Z) :
  0 < t -> t <= 2 ^ 2097 ->
  let j := Z.log2_up t in
  0 <= j <= 2097 /\ t <= 2 ^ j /\ 2 ^ Z.max (j - 1) 0 <= t.
Proof.
  intros Ht Hu j. subst j.
  pose proof (Z.log2_up_nonneg t) as Hnn.
  assert (Hle : Z.log2_up t <= 2097) by (apply Z.log2_up_le_pow2; lia).
  destruct (Z.eq_dec t 1) as [->|Hne].
  - change (Z.log2_up 1) with 0. simpl. lia.
  - destruct (Z.log2_up_spec t ltac:(lia)) as [Hl Hh].
    assert (0 < Z.log2_up t) by (apply Z.log2_up_pos; lia).
    rewrite Z.max_l by lia.
    replace (Z.log2_up t - 1) with (Z.pred (Z.log2_up t)) by lia. lia.
Qed.

Section Step.

Variables (c avg x : float) (L H : Z).
Hypothesis Hc : finite_wf c = true.
Hypothesis Hcv : 0 <= F2Z c <= 2 ^ 1073.
Hypothesis Havg : finite_wf avg = true.
Hypothesis Hx : finite_wf x = true.
Hypothesis HL : - 2 ^ 2096 <= L.
Hypothesis HH : H <= 2 ^ 2096.
Hypothesis Hab : L <= F2Z avg <= H.
Hypothesis Hxb : L <= F2Z x <= H.

(** With a factor of at most one half the new average lies between the old
    one and the batch loss. *)
Lemma update_between :
  finite_wf (update c avg x) = true /\
  Z.min (F2Z avg) (F2Z x) <= F2Z (update c avg x) <= Z.max (F2Z avg) (F2Z x).
Proof.
  unfold update.
  assert (E97 : 2 ^ 2097 = 2 * 2 ^ 2096) by reflexivity.
  pose proof (@pow2_pos 2096 ltac:(lia)) as HP.
  pose proof (@pow2_pos 1074 ltac:(lia)) as HU.
  assert (E74 : 2 ^ 1074 = 2 * 2 ^ 1073) by reflexivity.
  set (t := F2Z x - F2Z avg).
  destruct (Z.lt_trichotomy t 0) as [Hneg|[Hz|Hpos]].
  - (* the loss is below the average *)
    destruct (@log2_up_bounds (- t) ltac:(lia) ltac:(unfold t; lia))
      as (Hj & Hjt & Hjl).
    set (j := Z.log2_up (- t)) in *.
    destruct (pow2_float_spec true Hj) as [Hw1 Hv1].
    destruct (@pow2_float_spec true (Z.max (j - 1) 0) ltac:(lia))
      as [Hw2 Hv2].
    cbn [cond_Zopp] in Hv1, Hv2.
    destruct (@fsub_between x avg (pow2_float true j) zero Hx Havg Hw1
                eq_refl) as [Hd Hdv].
    { rewrite Hv1. cbn [F2Z zero]. fold t. lia. }
    rewrite Hv1 in Hdv. cbn [F2Z zero] in Hdv.
    destruct (@fmul_between c (fsub x avg) (pow2_float true (Z.max (j - 1) 0))
                zero Hc Hd Hw2 eq_refl) as [Hp Hpv].
    { rewrite Hv2. cbn [F2Z zero]. split; [|nia].
      apply Z.le_trans with (2 ^ 1073 * - 2 ^ j); [|nia].
      destruct (Z.eq_dec j 0) as [E|NE].
      - rewrite E. simpl Z.max. change (2 ^ 0) with 1. lia.
      - rewrite Z.max_l by lia.
        replace j with (j - 1 + 1) at 2 by lia.
        rewrite (pow2_split (a:=j - 1) (b:=1)) by lia.
        change (2 ^ 1) with 2. lia. }
    rewrite Hv2 in Hpv. cbn [F2Z zero] in Hpv.
    destruct (@fadd_between avg (fmul c (fsub x avg)) x avg Havg Hp Hx Havg)
      as [Hr Hrv].
    { fold t in Hjl. lia. }
    split; [exact Hr|]. lia.
  - (* the loss equals the average *)
    destruct (@fsub_between x avg zero zero Hx Havg eq_refl eq_refl)
      as [Hd Hdv].
    { cbn [F2Z zero]. fold t. lia. }
    cbn [F2Z zero] in Hdv.
    destruct (@fmul_between c (fsub x avg) zero zero Hc Hd eq_refl eq_refl)
      as [Hp Hpv].
    { cbn [F2Z zero]. replace (F2Z (fsub x avg)) with 0 by lia. lia. }
    cbn [F2Z zero] in Hpv.
    destruct (@fadd_between avg (fmul c (fsub x avg)) avg avg Havg Hp Havg
                Havg) as [Hr Hrv].
    { lia. }
    split; [exact Hr|]. lia.
  - (* the loss is above the average *)
    destruct (@log2_up_bounds t ltac:(lia) ltac:(unfold t; lia))
      as (Hj & Hjt & Hjl).
    set (j := Z.log2_up t) in *.
    destruct (pow2_float_spec false Hj) as [Hw1 Hv1].
    destruct (@pow2_float_spec false (Z.max (j - 1) 0) ltac:(lia))
      as [Hw2 Hv2].
    cbn [cond_Zopp] in Hv1, Hv2.
    destruct (@fsub_between x avg zero (pow2_float false j) Hx Havg eq_refl
                Hw1) as [Hd Hdv].
    { rewrite Hv1. cbn [F2Z zero]. fold t. lia. }
    rewrite Hv1 in Hdv. cbn [F2Z zero] in Hdv.
    destruct (@fmul_between c (fsub x avg) zero
                (pow2_float false (Z.max (j - 1) 0)) Hc Hd eq_refl Hw2)
      as [Hp Hpv].
    { rewrite Hv2. cbn [F2Z zero]. split; [nia|].
      apply Z.le_trans with (2 ^ 1073 * 2 ^ j); [nia|].
      destruct (Z.eq_dec j 0) as [E|NE].
      - rewrite E. simpl Z.max. change (2 ^ 0) with 1. lia.
      - rewrite Z.max_l by lia.
        replace j with (j - 1 + 1) at 1 by lia.
        rewrite (pow2_split (a:=j - 1) (b:=1)) by lia.
        change (2 ^ 1) with 2. lia. }
    rewrite Hv2 in Hpv. cbn [F2Z zero] in Hpv.
    destruct (@fadd_between avg (fmul c (fsub x avg)) avg x Havg Hp Havg Hx)
      as [Hr Hrv].
    { lia. }
    split; [exact Hr|]. lia.
Qed.

End Step.

Lemma moderate_spec (x : float) :
  moderate x = true <->
  finite_wf x = true /\ - 2 ^ 2096 <= F2Z x <= 2 ^ 2096.
Proof.
  unfold moderate. rewrite andb_true_iff, Z.leb_le.
  pose proof (@pow2_pos 2096 ltac:(lia)). split; intros [? ?]; split; auto; lia.
Qed.

Lemma incremental_mean_from_between (losses : list float) :
  forall (k : nat) (avg : float) (L H : Z),
    (1 <= k)%nat ->
    - 2 ^ 2096 <= L -> H <= 2 ^ 2096 ->
    finite_wf avg = true -> L <= F2Z avg <= H ->
    Forall (fun x => finite_wf x = true /\ L <= F2Z x <= H) losses ->
    finite_wf (incremental_mean_from k avg losses) = true /\
    L <= F2Z (incremental_mean_from k avg losses) <= H.
Proof.
  induction losses as [|x rest IH]; intros k avg L H Hk HL HH Ha Hab Hall.
  - simpl. auto.
  - inversion Hall as [|? ? [Hx Hxb] Hrest]; subst.
    cbn [incremental_mean_from].
    change (num_add avg (num_mul (num_recip (Pos.of_succ_nat k))
                           (num_sub x avg)))
      with (update (int_recip (Pos.of_succ_nat k)) avg x).
    destruct (@int_recip_bounds (Pos.of_succ_nat k) ltac:(lia)) as [Hc Hcv].
    destruct (@update_between _ avg x L H Hc Hcv Ha Hx HL HH Hab Hxb)
      as [Hu Hub].
    apply IH; auto; lia.
Qed.

Lemma first_update (x : float) :
  finite_wf x = true ->
  finite_wf (update (int_recip 1) zero x) = true /\
  F2Z (update (int_recip 1) zero x) = F2Z x.
Proof.
  intros Hx. unfold update. rewrite int_recip_one.
  set (one := S754_finite false 4503599627370496 (-52)).
  destruct (@fsub_between x zero x x Hx eq_refl Hx Hx) as [Hd Hdv].
  { cbn [F2Z zero]. lia. }
  destruct (@fmul_between one (fsub x zero) x x eq_refl Hd Hx Hx) as [Hp Hpv].
  { change (F2Z one) with (2 ^ 1074).
    replace (F2Z (fsub x zero)) with (F2Z x) by lia. lia. }
  destruct (@fadd_between zero (fmul one (fsub x zero)) x x eq_refl Hp Hx Hx)
    as [Hr Hrv].
  { cbn [F2Z zero]. lia. }
  split; [exact Hr|lia].
Qed.

(** The binary64 running average of moderate losses is a finite float, and
    every pair of bounds on the losses bounds it too. *)
Lemma incremental_mean_between (losses : list float) :
  forallb moderate losses = true ->
  finite_wf (incremental_mean losses) = true /\
  forall L H : Z,
    losses <> [] ->
    Forall (fun x => L <= F2Z x <= H) losses ->
    L <= F2Z (incremental_mean losses) <= H.
Proof.
  intros Hall. rewrite forallb_forall in Hall.
  destruct losses as [|x rest]; [split; [reflexivity|congruence]|].
  unfold incremental_mean. cbn [incremental_mean_from].
  change (num_add num_zero (num_mul (num_recip (Pos.of_succ_nat 0))
                              (num_sub x num_zero)))
    with (update (int_recip 1) zero x).
  assert (Hx : moderate x = true) by (apply Hall; now left).
  apply moderate_spec in Hx as [Hx Hxb].
  destruct (first_update x Hx) as [H1 H1v].
  pose proof (@pow2_pos 2096 ltac:(lia)) as HP.
  split.
  - apply (@incremental_mean_from_between rest 1 _ (- 2 ^ 2096) (2 ^ 2096));
      auto; try lia.
    apply Forall_forall. intros y Hy.
    apply moderate_spec. apply Hall. now right.
  - intros L H _ Hb. inversion Hb as [|? ? Hxl Hrest]; subst.
    destruct (@incremental_mean_from_between rest 1
                (update (int_recip 1) zero x)
                (Z.max L (- 2 ^ 2096)) (Z.min H (2 ^ 2096)))
      as [_ Hr]; auto; try lia.
    apply Forall_forall. intros y Hy.
    rewrite Forall_forall in Hrest. specialize (Hrest y Hy).
    assert (Hm : moderate y = true) by (apply Hall; now right).
    apply moderate_spec in Hm as [Hm Hmb]. split; [assumption|lia].
Qed.

(** *** Signs and comparisons *)

Lemma binary_round_aux_sign (s : bool) (m e : Z) (l : location) :
  let r := binary_round_aux prec emax s m e l in
  r = S754_zero s \/ (exists m' e', r = S754_finite s m' e') \/
  r = S754_infinity s \/ r = S754_nan.
Proof.
  unfold binary_round_aux.
  destruct (shr_fexp prec emax m e l) as [mrs' e'].
  destruct (shr_fexp prec emax _ e' loc_Exact) as [mrs'' e''].
  destruct (shr_m mrs'') as [|p|p]; auto.
  destruct (e'' <=? emax - prec); eauto.
Qed.

Lemma not_above_when_negative (r : float) :
  r = S754_zero true \/ (exists m' e', r = S754_finite true m' e') \/
  r = S754_infinity true \/ r = S754_nan ->
  gt r lit_0_01 = false.
Proof. intros [->|[(m' & e' & ->)|[->| ->]]]; reflexivity. Qed.

(** On well-formed finite floats [<] is the order of the values. *)
Lemma SFltb_of_F2Z (x y : float) :
  finite_wf x = true -> finite_wf y = true ->
  F2Z x < F2Z y -> SFltb x y = true.
Proof.
  intros Hx Hy Hv.
  destruct (finite_wf_cases _ Hx) as [[sx ->]|(sx & mx & ex & -> & Hbx)];
    destruct (finite_wf_cases _ Hy) as [[sy ->]|(sy & my & ey & -> & Hby)];
    cbn [F2Z] in Hv; try lia.
  - pose proof (bounded_pos _ _ Hby).
    destruct sy; cbn [cond_Zopp] in Hv; [lia|reflexivity].
  - pose proof (bounded_pos _ _ Hbx).
    destruct sx; cbn [cond_Zopp] in Hv; [reflexivity|lia].
  - pose proof (bounded_pos _ _ Hbx) as Hpx.
    pose proof (bounded_pos _ _ Hby) as Hpy.
    apply bounded_split in Hbx as [Hcx _]. apply bounded_split in Hby as [Hcy _].
    pose proof (bounded_exp mx ex) as _.
    unfold SFltb, SFcompare.
    destruct sx, sy; cbn [cond_Zopp] in Hv; try reflexivity; try lia.
    + (* both negative *)
      destruct (Z.compare_spec ex ey) as [E|E|E].
      * subst ey.
        assert (Zpos my < Zpos mx).
        { pose proof (@pow2_pos (ex + 1074)
                        ltac:(destruct (canonical_facts _ _ Hcx); lia)). nia. }
        change (Pos.compare_cont Eq mx my) with (Pos.compare mx my).
        rewrite (proj2 (Pos.compare_gt_iff mx my)) by lia. reflexivity.
      * pose proof (canonical_exp_mono _ _ _ _ Hcy Hcx ltac:(lia)). lia.
      * reflexivity.
    + (* both positive *)
      destruct (Z.compare_spec ex ey) as [E|E|E].
      * subst ey.
        assert (Zpos mx < Zpos my).
        { pose proof (@pow2_pos (ex + 1074)
                        ltac:(destruct (canonical_facts _ _ Hcx); lia)). nia. }
        change (Pos.compare_cont Eq mx my) with (Pos.compare mx my).
        rewrite (proj2 (Pos.compare_lt_iff mx my)) by lia. reflexivity.
      * reflexivity.
      * pose proof (canonical_exp_mono _ _ _ _ Hcx Hcy ltac:(lia)). lia.
Qed.

Lemma fsub_finite (sx : bool) (mx : positive) (ex : Z)
    (sy : bool) (my : positive) (ey : Z) :
  fsub (S754_finite sx mx ex) (S754_finite sy my ey) =
  binary_normalize prec emax
    (cond_Zopp sx (Zpos (fst (shl_align mx ex (Z.min ex ey))))
     - cond_Zopp sy (Zpos (fst (shl_align my ey (Z.min ex ey)))))
    (Z.min ex ey) false.
Proof. reflexivity. Qed.

(** With a positive stored minimum, a quotient above 0.01 means that the
    current loss is below the minimum. *)
Lemma improvement_is_decrease (b v r : float) :
  finite_wf b = true -> lt zero b = true -> wf v = true ->
  truediv (fsub b v) b = Return r ->
  gt r lit_0_01 = true ->
  lt v b = true.
Proof.
  intros Hb Hpos Hv Hdiv Hgt.
  destruct (finite_wf_cases _ Hb) as [[sb ->]|(sb & mb & eb & -> & Hbb)];
    [discriminate|].
  destruct sb; [discriminate|].
  assert (Hr : r = SFdiv prec emax (fsub (S754_finite false mb eb) v)
                     (S754_finite false mb eb)).
  { unfold truediv in Hdiv. cbn [is_zero] in Hdiv. congruence. }
  subst r. clear Hdiv.
  destruct v as [sv|sv| |sv mv ev].
  - reflexivity.
  - destruct sv; [reflexivity|discriminate].
  - discriminate.
  - rewrite fsub_finite in Hgt.
    pose proof (bounded_exp _ _ Hbb) as Heb.
    pose proof (bounded_exp _ _ Hv) as Hev.
    set (ez := Z.min eb ev) in *.
    pose proof (@aligned_value false mb eb ez ltac:(lia) ltac:(lia)) as Hvb.
    pose proof (@aligned_value sv mv ev ez ltac:(lia) ltac:(lia)) as Hvv.
    set (z := cond_Zopp false (Zpos (fst (shl_align mb eb ez)))
              - cond_Zopp sv (Zpos (fst (shl_align mv ev ez)))) in *.
    assert (Hz : z * 2 ^ (ez + 1074)
                 = F2Z (S754_finite false mb eb) - F2Z (S754_finite sv mv ev)).
    { unfold z. rewrite Z.mul_sub_distr_r, Hvb, Hvv. reflexivity. }
    pose proof (@pow2_pos (ez + 1074) ltac:(lia)) as Hp.
    destruct z as [|p|p] eqn:Ez.
    + discriminate.
    + apply SFltb_of_F2Z; auto. nia.
    + exfalso. cbn [binary_normalize] in Hgt. unfold binary_round in Hgt.
      destruct (shl_align p ez _) as [mz ez'].
      pose proof (binary_round_aux_sign true (Zpos mz) ez' loc_Exact) as Hs.
      cbv zeta in Hs.
      destruct Hs as [Hs|[(m' & e' & Hs)|[Hs|Hs]]]; rewrite Hs in Hgt;
        cbn [SFdiv xorb] in Hgt; try discriminate.
      destruct (SFdiv_core_binary prec emax (Zpos m') e' (Zpos mb) eb)
        as [[mq eq] lq].
      rewrite not_above_when_negative in Hgt; [discriminate|].
      apply binary_round_aux_sign.
Qed.

Lemma incremental_mean_finite_between (losses : list float) :
  forallb moderate losses = true ->
  finite_between losses (incremental_mean losses).
Proof.
  intros Hall. destruct (incremental_mean_between losses Hall) as [Hf Hb].
  unfold finite_between. unfold finite_wf in Hf.
  apply andb_true_iff in Hf as [Hfin Hwf].
  split; [exact Hfin|]. split; [|split; [exact Hwf|exact Hb]].
  destruct (incremental_mean losses); simpl in *; congruence.
Qed.

End Binary64Facts.

Import Binary64Facts.

(** ** Checkpointing *)

Section Checkpointing.

Context {F : Framework float}.

Lemma checkpoint_rule_of_save (dls : DataLoaders) (n_epochs : Z) (it : bool)
    (epoch : Z) (s : State) :
  saves (trace (fst (epoch_body dls n_epochs it epoch s))) <> saves (trace s) ->
  checkpoint_rule (valid_loss_min s) (epoch_valid_loss dls epoch s).
Proof.
  intros Hsaved.
  destruct (epoch_body_spec dls n_epochs it epoch s) as [_ H].
  pose proof (improves_true (valid_loss_min s)
                (epoch_valid_loss dls epoch s)) as Ht.
  destruct (improves (valid_loss_min s) (epoch_valid_loss dls epoch s))
    as [[|]|e]; destruct H as (_ & _ & Hs & _).
  - now apply Ht.
  - congruence.
  - congruence.
Qed.

(** C1. In every epoch the model state is written to [save_path] iff no
    minimum is stored yet or (best - current) / best > 0.01; the stored
    minimum becomes the current validation loss exactly when a checkpoint is
    written.  The epoch ends normally unless the stored minimum is zero, in
    which case the division raises and nothing is written. *)
Theorem checkpoint_iff_rule (dls : DataLoaders) (n_epochs : Z) (it : bool)
    (epoch : Z) (s : State) :
  let v := epoch_valid_loss dls epoch s in
  let r := epoch_body dls n_epochs it epoch s in
  let saved := saves (trace (fst r)) <> saves (trace s) in
  (saved <-> checkpoint_rule (valid_loss_min s) v) /\
  (saved ->
     saves (trace (fst r)) = saves (trace s) ++ [epoch_params dls epoch s] /\
     valid_loss_min (fst r) = Some v) /\
  (~ saved -> valid_loss_min (fst r) = valid_loss_min s) /\
  (snd r = Return tt \/
   snd r = Raise ZeroDivisionError /\
   exists b, valid_loss_min s = Some b /\ is_zero b = true).
Proof.
  intros v r saved. subst saved r.
  destruct (epoch_body_spec dls n_epochs it epoch s) as [_ H].
  fold v in H.
  pose proof (improves_true (valid_loss_min s) v) as Ht.
  destruct (improves (valid_loss_min s) v) as [[|]|e] eqn:Ei;
    destruct H as (Hr & Hm & Hs & _); rewrite Hs, Hr, Hm.
  - repeat split; auto.
    + intros _. now apply Ht.
    + intros _. apply app_singleton_neq.
    + intros H. exfalso. apply H. apply app_singleton_neq.
  - repeat split; auto; try congruence.
    intros H. apply Ht in H. discriminate.
  - repeat split; auto; try congruence.
    + intros H. apply Ht in H. discriminate.
    + right. apply improves_raise in Ei as [-> Hb]. auto.
Qed.

Lemma last_option_snoc (X : Type) (l : list X) (x : X) :
  last_option (l ++ [x]) = Some x.
Proof.
  unfold last_option. rewrite map_app. simpl. apply last_last.
Qed.

Lemma minimum_invariant_step (dls : DataLoaders) (n_epochs : Z) (it : bool)
    (epoch : Z) (s : State) :
  minimum_invariant s ->
  minimum_invariant (fst (epoch_body dls n_epochs it epoch s)).
Proof.
  intros (Hm & Hl & Hi).
  destruct (epoch_body_spec dls n_epochs it epoch s) as [Ho H].
  unfold minimum_invariant. rewrite Ho.
  destruct (improves _ _) as [[|]|e]; destruct H as (_ & Hm' & Hs & Hc);
    rewrite Hm', Hs, Hc.
  - repeat split.
    + now rewrite last_option_snoc.
    + rewrite !length_app. simpl. lia.
    + apply incl_app; [now apply incl_appl|apply incl_appr, incl_refl].
  - repeat split; auto. now apply incl_appl.
  - repeat split; auto. now apply incl_appl.
Qed.

(** C3 (amended). After any run of [optimize], the stored minimum is the
    validation loss of the most recent epoch that wrote a checkpoint (and
    nothing before the first checkpoint): there is one announced minimum
    per checkpoint, and each of them is one of the validation losses
    observed so far.  It need not be the least of them. *)
Theorem stored_minimum_is_last_checkpoint (dls : DataLoaders) (m : Model)
    (o : OptState) (n_epochs : Z) (it : bool) :
  let s' := fst (optimize dls m o n_epochs it) in
  valid_loss_min s' = last_option (checkpointed_losses (trace s')) /\
  length (checkpointed_losses (trace s')) = length (saves (trace s')) /\
  (forall v, valid_loss_min s' = Some v ->
             In v (observed_valid_losses (trace s'))).
Proof.
  intros s'.
  assert (H : minimum_invariant s').
  { subst s'. unfold optimize.
    apply run_epochs_invariant with (P := minimum_invariant).
    - intros; now apply minimum_invariant_step.
    - repeat split; simpl; auto. apply incl_refl. }
  destruct H as (Hm & Hl & Hi). repeat split; auto.
  intros v Hv. apply Hi. rewrite Hm in Hv.
  destruct (checkpointed_losses (trace s')) as [|c cs _] using rev_ind;
    [discriminate|].
  rewrite last_option_snoc in Hv. inversion Hv; subst.
  apply in_or_app. right. now left.
Qed.

Lemma saves_grow_step (dls : DataLoaders) (n_epochs : Z) (it : bool)
    (epoch : Z) (s : State) (p : Params) :
  (exists l, saves (trace s) = p :: l) ->
  exists l, saves (trace (fst (epoch_body dls n_epochs it epoch s))) = p :: l.
Proof.
  intros [l Hl].
  destruct (epoch_body_spec dls n_epochs it epoch s) as [_ H].
  destruct (improves _ _) as [[|]|e]; destruct H as (_ & _ & Hs & _);
    rewrite Hs, Hl; eauto.
  exists (l ++ [epoch_params dls epoch s]). reflexivity.
Qed.

(** C5 (amended). A run of [optimize] with [n_epochs >= 1] writes at least
    one checkpoint: the first epoch always writes one, holding the
    parameters it trained, and it is still the first checkpoint of the
    trace when the run ends, normally or by an exception. *)
Theorem first_epoch_writes_checkpoint (dls : DataLoaders) (m : Model)
    (o : OptState) (n_epochs : Z) (it : bool) :
  (1 <= n_epochs)%Z ->
  exists later,
    saves (trace (fst (optimize dls m o n_epochs it))) =
    epoch_params dls 1 (initial_state m o) :: later.
Proof.
  intros Hn. unfold optimize.
  destruct (range_first Hn) as [rest ->]. simpl.
  destruct (epoch_body_spec dls n_epochs it 1 (initial_state m o)) as [_ H].
  simpl in H. destruct H as (Hr & _ & Hs & _).
  destruct (epoch_body dls n_epochs it 1 (initial_state m o)) as [s1 r1].
  simpl in *. subst r1.
  apply run_epochs_invariant with (P := fun s =>
    exists l, saves (trace s) = epoch_params dls 1 (initial_state m o) :: l).
  - intros. now apply saves_grow_step.
  - exists []. exact Hs.
Qed.

(** C10. For [n_epochs < 1] the epoch loop is empty: [optimize] returns at
    once, having printed and written nothing, with the model, the optimizer
    and the (unset) stored minimum as they were. *)
Theorem no_epochs_no_effect (dls : DataLoaders) (m : Model) (o : OptState)
    (n_epochs : Z) (it : bool) :
  (n_epochs < 1)%Z ->
  let s' := fst (optimize dls m o n_epochs it) in
  snd (optimize dls m o n_epochs it) = Return tt /\
  trace s' = [] /\
  saves (trace s') = [] /\
  observed_valid_losses (trace s') = [] /\
  model s' = m /\
  optimizer s' = o /\
  valid_loss_min s' = None.
Proof.
  intros Hn s'. subst s'. unfold optimize.
  rewrite (range_empty Hn). simpl. repeat split.
Qed.

(** A stored minimum of zero ends the run: in the next epoch the division
    of line 99 raises ZeroDivisionError, and nothing is written. *)
Theorem zero_minimum_raises (dls : DataLoaders) (n_epochs : Z) (it : bool)
    (epoch : Z) (s : State) (b : float) :
  valid_loss_min s = Some b -> is_zero b = true ->
  let r := epoch_body dls n_epochs it epoch s in
  snd r = Raise ZeroDivisionError /\
  saves (trace (fst r)) = saves (trace s) /\
  valid_loss_min (fst r) = Some b.
Proof.
  intros Hb Hz r. subst r.
  destruct (epoch_body_spec dls n_epochs it epoch s) as [_ H].
  assert (Hi : improves (valid_loss_min s) (epoch_valid_loss dls epoch s)
               = Raise ZeroDivisionError).
  { apply improves_raise. split; [reflexivity|]. exists b. auto. }
  rewrite Hi in H. destruct H as (Hr & Hm & Hs & _).
  rewrite Hr, Hs, Hm. auto.
Qed.

(** C4 (amended). A checkpoint is written in an epoch only if no minimum
    is stored yet (the first epoch) or (previous_min - current) /
    previous_min > 0.01; and when the stored minimum is a positive finite
    float, a checkpoint is written only if the current validation loss (a
    well-formed float, as every value Python holds) is below it. *)
Theorem save_needs_improvement (dls : DataLoaders) (n_epochs : Z) (it : bool)
    (epoch : Z) (s : State) :
  let v := epoch_valid_loss dls epoch s in
  let r := epoch_body dls n_epochs it epoch s in
  saves (trace (fst r)) <> saves (trace s) ->
  (valid_loss_min s = None \/
   exists b q, valid_loss_min s = Some b /\
               truediv (fsub b v) b = Return q /\
               gt q lit_0_01 = true) /\
  (forall b, valid_loss_min s = Some b ->
             finite_wf b = true -> lt zero b = true -> wf v = true ->
             lt v b = true).
Proof.
  intros v r Hsaved.
  destruct (checkpoint_rule_of_save dls n_epochs it epoch s Hsaved)
    as [Hn|(b & q & Hb & Hq & Hg)].
  - split; [now left|]. intros b Hb. congruence.
  - split; [right; exists b, q; auto|].
    intros b' Hb' Hf Hp Hw. assert (b' = b) by congruence. subst b'.
    now apply improvement_is_decrease with (r := q).
Qed.

End Checkpointing.

(** ** The loops at binary64 *)

Section Loops64.

Context {F : Framework float}.


(** C6 (amended). When every batch loss a loop sees is a finite float of
    magnitude at most 2^1022, the loss it returns is finite and not NaN,
    and it lies within any bounds on the batch losses.  For
    [one_epoch_test] that loss is the test loss it prints and, unless the
    accuracy line raises, the value it returns. *)
Theorem moderate_losses_finite_mean :
  (forall (dl : DataLoader) (m : Model) (o : OptState),
      forallb moderate (train_losses dl m o) = true ->
      finite_between (train_losses dl m o) (snd (train_one_epoch dl m o))) /\
  (forall (dl : DataLoader) (m : Model),
      forallb moderate (eval_losses dl m) = true ->
      finite_between (eval_losses dl m) (snd (valid_one_epoch dl m))) /\
  (forall (dl : DataLoader) (m : Model),
      forallb moderate (eval_losses dl m) = true ->
      exists r, finite_between (eval_losses dl m) r /\
        hd_error (snd (fst (one_epoch_test dl m))) = Some (PrintTestLoss r) /\
        snd (one_epoch_test dl m) =
          if is_zero (test_total dl m) then Raise ZeroDivisionError
          else Return r).
Proof.
  split; [|split]; intros.
  - rewrite train_one_epoch_loss.
    now apply incremental_mean_finite_between.
  - rewrite valid_one_epoch_loss.
    now apply incremental_mean_finite_between.
  - exists (incremental_mean (eval_losses dl m)). split; [|split].
    + now apply incremental_mean_finite_between.
    + apply one_epoch_test_printed.
    + apply one_epoch_test_loss.
Qed.

End Loops64.

Section LoopsAny.

Context {A : Type} {N : LossNum A} {F : Framework A}.

(** C9. [valid_one_epoch] and [one_epoch_test] leave the parameters of the
    model as they found them (they only switch it to evaluation mode and
    move it to the device). *)
Theorem evaluation_keeps_parameters (dl : DataLoader) (m : Model) :
  params (fst (valid_one_epoch dl m)) = params m /\
  params (fst (fst (one_epoch_test dl m))) = params m.
Proof.
  rewrite valid_one_epoch_model, one_epoch_test_model, params_to_device.
  split; reflexivity.
Qed.

(** C7, at the input where the code departs from it. On an empty loader
    [train_one_epoch] and [valid_one_epoch] return the initial average 0.0,
    and [one_epoch_test] prints that test loss and then raises
    ZeroDivisionError in the accuracy line instead of returning it. *)
Theorem empty_loader_test_raises (m : Model) (o : OptState) :
  snd (train_one_epoch [] m o) = num_zero /\
  snd (valid_one_epoch [] m) = num_zero /\
  snd (fst (one_epoch_test [] m)) = [PrintTestLoss num_zero] /\
  snd (one_epoch_test [] m) = Raise ZeroDivisionError.
Proof. repeat split. Qed.

(** Everywhere else the three loops agree: each returns the incremental
    mean of the batch losses it saw, so equal loss sequences give equal
    results whenever [one_epoch_test] has counted a sample. *)
Lemma loops_agree (dl1 dl2 dl3 : DataLoader) (m1 m2 m3 : Model)
    (o : OptState) (losses : list A) :
  train_losses dl1 m1 o = losses ->
  eval_losses dl2 m2 = losses ->
  eval_losses dl3 m3 = losses ->
  snd (train_one_epoch dl1 m1 o) = snd (valid_one_epoch dl2 m2) /\
  snd (one_epoch_test dl3 m3) =
    if is_zero (test_total dl3 m3) then Raise ZeroDivisionError
    else Return (snd (valid_one_epoch dl2 m2)).
Proof.
  intros H1 H2 H3.
  rewrite train_one_epoch_loss, valid_one_epoch_loss, one_epoch_test_loss.
  rewrite H1, H2, H3. split; reflexivity.
Qed.

Lemma train_losses_from_length (dl : DataLoader) :
  forall k st, length (train_losses_from k dl st) = length dl.
Proof.
  induction dl as [|b rest IH]; intros k st; simpl; [reflexivity|].
  now rewrite IH.
Qed.

Lemma train_losses_nonempty (dl : DataLoader) (m : Model) (o : OptState) :
  dl <> [] -> train_losses dl m o <> [].
Proof.
  intros Hne H. apply (f_equal (@length A)) in H.
  unfold train_losses in H. rewrite train_losses_from_length in H.
  destruct dl; simpl in *; congruence.
Qed.

Lemma eval_losses_nonempty (dl : DataLoader) (m : Model) :
  dl <> [] -> eval_losses dl m <> [].
Proof.
  intros Hne H. unfold eval_losses in H. apply map_eq_nil in H. congruence.
Qed.

End LoopsAny.

Section LoopsExact.

Context {F : Framework Q}.


End LoopsExact.

(** ** The epoch loop, continued *)

Section OptimizeMore.
Context {F : Framework float}.

Lemma epochs_started_app (t1 t2 : list event) :
  epochs_started (t1 ++ t2) = epochs_started t1 ++ epochs_started t2.
Proof.
  induction t1 as [|e t1 IH]; simpl; [reflexivity|].
  destruct e; simpl; now rewrite ?IH.
Qed.

Lemma plot_updates_app (t1 t2 : list event) :
  plot_updates (t1 ++ t2) = plot_updates t1 ++ plot_updates t2.
Proof.
  induction t1 as [|e t1 IH]; simpl; [reflexivity|].
  destruct e; simpl; now rewrite ?IH.
Qed.

Lemma without_plots_app (t1 t2 : list event) :
  without_plots (t1 ++ t2) = without_plots t1 ++ without_plots t2.
Proof.
  induction t1 as [|e t1 IH]; simpl; [reflexivity|].
  destruct e; simpl; now rewrite ?IH.
Qed.

(** The trace of one epoch, in full. *)
Lemma epoch_body_trace (dls : DataLoaders) (n_epochs : Z) (it : bool)
    (epoch : Z) (s : State) :
  let r := epoch_body dls n_epochs it epoch s in
  let tl := snd (train_one_epoch (dl_train dls epoch) (model s) (optimizer s)) in
  let v := epoch_valid_loss dls epoch s in
  trace (fst r) =
    trace s
    ++ [PrintEpochStart epoch n_epochs; PrintTrainLoss epoch tl;
        PrintValidLoss epoch v]
    ++ match improves (valid_loss_min s) v with
       | Return true =>
           [PrintNewMinimum v; TorchSave (epoch_params dls epoch s)]
       | _ => []
       end
    ++ match improves (valid_loss_min s) v with
       | Return _ =>
           if it then [LiveLossSend tl v (current_lr (optimizer (fst r)))]
           else []
       | Raise _ => []
       end.
Proof.
  intros r tl v. subst r tl.
  pose proof (eq_refl v) as Ev. unfold v at 2 in Ev.
  unfold epoch_valid_loss in Ev. unfold epoch_params, epoch_body.
  destruct (train_one_epoch (dl_train dls epoch) (model s) (optimizer s))
    as [[m1 o1] tl'].
  cbn [fst snd] in *.
  rewrite (surjective_pairing (valid_one_epoch (dl_valid dls epoch) m1)).
  rewrite <- Ev. clearbody v.
  assert (Hp : params (fst (valid_one_epoch (dl_valid dls epoch) m1)) = params m1).
  { rewrite valid_one_epoch_model, params_to_device. reflexivity. }
  rewrite valid_one_epoch_model in Hp.
  destruct (improves (valid_loss_min s) v) as [[|]|e]; cbn [fst snd].
  - destruct (scheduler_step (scheduler s) v o1) as [sch o2].
    destruct it; cbn [fst snd trace optimizer];
      rewrite <- ?app_assoc; cbn [app];
      rewrite ?valid_one_epoch_model, ?Hp, ?app_nil_r; reflexivity.
  - destruct (scheduler_step (scheduler s) v o1) as [sch o2].
    destruct it; cbn [fst snd trace optimizer];
      rewrite <- ?app_assoc; simpl; rewrite ?app_nil_r; reflexivity.
  - cbn [trace]. rewrite <- ?app_assoc; simpl; rewrite ?app_nil_r; reflexivity.
Qed.

Lemma epoch_body_started (dls : DataLoaders) (n_epochs : Z) (it : bool)
    (epoch : Z) (s : State) :
  epochs_started (trace (fst (epoch_body dls n_epochs it epoch s))) =
  epochs_started (trace s) ++ [epoch].
Proof.
  pose proof (epoch_body_trace dls n_epochs it epoch s) as H.
  cbv zeta in H. rewrite H. rewrite !epochs_started_app. simpl.
  destruct (improves _ _) as [[|]|e]; destruct it; simpl; reflexivity.
Qed.


Lemma range_length (a b : Z) : length (range a b) = Z.to_nat (b - a).
Proof. unfold range. now rewrite length_map, length_seq. Qed.

(** The epochs of a run are taken in order; each of them prints one
    validation loss, the one that raises included. *)
Lemma run_epochs_started (dls : DataLoaders) (n_epochs : Z) (it : bool) :
  forall (epochs : list Z) (s : State),
    let r := run_epochs dls n_epochs it epochs s in
    exists ran later,
      epochs = ran ++ later /\
      epochs_started (trace (fst r)) = epochs_started (trace s) ++ ran /\
      length (observed_valid_losses (trace (fst r))) =
        (length (observed_valid_losses (trace s)) + length ran)%nat /\
      (snd r = Return tt -> later = []).
Proof.
  induction epochs as [|epoch rest IH]; intros s; cbn zeta.
  - exists [], []. simpl. rewrite app_nil_r. auto.
  - cbn [run_epochs].
    pose proof (epoch_body_started dls n_epochs it epoch s) as Hst.
    destruct (epoch_body_spec dls n_epochs it epoch s) as [Hob _].
    destruct (epoch_body dls n_epochs it epoch s) as [s' [u|e]];
      cbn [fst snd] in *.
    + destruct (IH s') as (ran & later & -> & H1 & H2 & H3).
      exists (epoch :: ran), later. repeat split; auto.
      * rewrite H1, Hst, <- app_assoc. reflexivity.
      * rewrite H2, Hob, length_app. simpl. lia.
    + exists [epoch], rest. repeat split; auto.
      * rewrite Hob, length_app. reflexivity.
      * discriminate.
Qed.

(** [optimize] runs the epochs 1, 2, ... in order and stops at the first
    one that raises: the epochs started are a prefix of range(1, n_epochs +
    1), each of them has printed one validation loss, and a run that
    returns has gone through all of them. *)
Theorem epochs_run_in_order (dls : DataLoaders) (m : Model) (o : OptState)
    (n_epochs : Z) (it : bool) :
  let r := optimize dls m o n_epochs it in
  (exists later,
      range 1 (n_epochs + 1) = epochs_started (trace (fst r)) ++ later) /\
  length (observed_valid_losses (trace (fst r))) =
    length (epochs_started (trace (fst r))) /\
  (snd r = Return tt ->
     epochs_started (trace (fst r)) = range 1 (n_epochs + 1) /\
     length (observed_valid_losses (trace (fst r))) = Z.to_nat n_epochs).
Proof.
  intros r. subst r. unfold optimize.
  destruct (run_epochs_started dls n_epochs it (range 1 (n_epochs + 1))
              (initial_state m o)) as (ran & later & E & H1 & H2 & H3).
  simpl in H1, H2. rewrite H1, H2. split; [|split].
  - exists later. exact E.
  - reflexivity.
  - intros Hr. specialize (H3 Hr). subst later. rewrite app_nil_r in E.
    split; [congruence|].
    rewrite <- E, range_length. f_equal. lia.
Qed.

(** *** Interactive tracking *)


Lemma epoch_body_tracking (dls : DataLoaders) (n_epochs epoch : Z)
    (s1 s0 : State) :
  same_but_plots s1 s0 ->
  same_but_plots (fst (epoch_body dls n_epochs true epoch s1))
                 (fst (epoch_body dls n_epochs false epoch s0)) /\
  snd (epoch_body dls n_epochs true epoch s1) =
  snd (epoch_body dls n_epochs false epoch s0).
Proof.
  intros (Hm & Ho & Hs & Hv & Ht & Hp).
  destruct s1 as [m1 o1 sc1 v1 t1], s0 as [m0 o0 sc0 v0 t0].
  cbn [model optimizer scheduler valid_loss_min trace] in *. subst.
  unfold epoch_body, same_but_plots.
  cbn [model optimizer scheduler valid_loss_min trace].
  destruct (train_one_epoch (dl_train dls epoch) m0 o0) as [[m o] tl].
  destruct (valid_one_epoch (dl_valid dls epoch) m) as [m' v].
  destruct (improves v0 v) as [[|]|e]; cbn [fst snd].
  - destruct (scheduler_step sc0 v o) as [sch o2].
    cbn [fst snd model optimizer scheduler valid_loss_min trace].
    rewrite !without_plots_app, !plot_updates_app, Hp. simpl.
    rewrite app_nil_r. auto 10.
  - destruct (scheduler_step sc0 v o) as [sch o2].
    cbn [fst snd model optimizer scheduler valid_loss_min trace].
    rewrite !without_plots_app, !plot_updates_app, Hp. simpl.
    rewrite app_nil_r. auto 10.
  - cbn [fst snd model optimizer scheduler valid_loss_min trace].
    rewrite !without_plots_app, !plot_updates_app, Hp. simpl. auto 10.
Qed.

Lemma run_epochs_tracking (dls : DataLoaders) (n_epochs : Z) :
  forall (epochs : list Z) (s1 s0 : State),
    same_but_plots s1 s0 ->
    same_but_plots (fst (run_epochs dls n_epochs true epochs s1))
                   (fst (run_epochs dls n_epochs false epochs s0)) /\
    snd (run_epochs dls n_epochs true epochs s1) =
    snd (run_epochs dls n_epochs false epochs s0).
Proof.
  induction epochs as [|epoch rest IH]; intros s1 s0 H; cbn [run_epochs].
  - auto.
  - destruct (epoch_body_tracking dls n_epochs epoch H) as [H' Hr].
    destruct (epoch_body dls n_epochs true epoch s1) as [s1' r1].
    destruct (epoch_body dls n_epochs false epoch s0) as [s0' r0].
    cbn [fst snd] in *. subst r1. destruct r0 as [u|e]; auto.
Qed.

(** [interactive_tracking] only adds the plot updates: with and
    without it a run ends the same way, in the same model, optimizer,
    scheduler and stored minimum, and prints and writes the same things in
    the same order; without it no plot update is sent. *)
Theorem tracking_only_plots (dls : DataLoaders) (m : Model) (o : OptState)
    (n_epochs : Z) :
  let r1 := optimize dls m o n_epochs true in
  let r0 := optimize dls m o n_epochs false in
  snd r1 = snd r0 /\
  model (fst r1) = model (fst r0) /\
  optimizer (fst r1) = optimizer (fst r0) /\
  scheduler (fst r1) = scheduler (fst r0) /\
  valid_loss_min (fst r1) = valid_loss_min (fst r0) /\
  without_plots (trace (fst r1)) = trace (fst r0) /\
  plot_updates (trace (fst r0)) = [].
Proof.
  intros r1 r0. subst r1 r0. unfold optimize.
  destruct (run_epochs_tracking dls n_epochs (range 1 (n_epochs + 1))
              (s1 := initial_state m o) (s0 := initial_state m o))
    as [(H1 & H2 & H3 & H4 & H5 & H6) Hr].
  - repeat split.
  - auto 10.
Qed.

(** *** When a run raises *)

Lemma run_epochs_raise (dls : DataLoaders) (n_epochs : Z) (it : bool) :
  forall (epochs : list Z) (s : State) (e : exn),
    snd (run_epochs dls n_epochs it epochs s) = Raise e ->
    exists b,
      valid_loss_min (fst (run_epochs dls n_epochs it epochs s)) = Some b /\
      is_zero b = true.
Proof.
  induction epochs as [|epoch rest IH]; intros s e; cbn [run_epochs].
  - discriminate.
  - destruct (epoch_body_spec dls n_epochs it epoch s) as [_ H].
    pose proof (improves_raise (valid_loss_min s)
                  (epoch_valid_loss dls epoch s)) as Hi.
    destruct (epoch_body dls n_epochs it epoch s) as [s' [u|e']];
      cbn [fst snd] in *.
    + apply IH.
    + intros _.
      destruct (improves (valid_loss_min s) (epoch_valid_loss dls epoch s))
        as [[|]|e'']; destruct H as (Hr & Hm & _); try discriminate.
      destruct (proj1 (Hi e'') eq_refl) as [_ (b & Hb & Hz)].
      exists b. rewrite Hm. auto.
Qed.


Lemma last_option_in (X : Type) (l : list X) (x : X) :
  last_option l = Some x -> In x l.
Proof.
  destruct l as [|c cs _] using rev_ind; [discriminate|].
  rewrite last_option_snoc. intros H. inversion H; subst.
  apply in_or_app. right. now left.
Qed.



(** *** Validation losses that are not finite *)

Lemma improves_nonfinite (b v : float) :
  is_finite b = false -> improves (Some b) v = Return false.
Proof.
  destruct b as [sb|sb| |sb mb eb]; try discriminate; intros _;
    destruct v as [sv|sv| |sv mv ev]; try destruct sb; try destruct sv;
    reflexivity.
Qed.

Lemma improves_nan (best : option float) (v : float) :
  best <> None -> is_nan v = true -> improves best v <> Return true.
Proof.
  intros Hb Hv. apply is_nan_eq in Hv. subst v.
  destruct best as [b|]; [clear Hb|congruence].
  unfold improves, truediv.
  replace (fsub b S754_nan) with S754_nan by now destruct b.
  destruct (is_zero b); [discriminate|].
  replace (SFdiv prec emax S754_nan b) with S754_nan by now destruct b.
  discriminate.
Qed.

(** Once the stored minimum is NaN or infinite, it stays: whatever the
    validation losses of the following epochs, none of them writes a
    checkpoint or changes the stored minimum, and the loop runs to its
    end. *)
Theorem nonfinite_minimum_is_final (dls : DataLoaders) (n_epochs : Z)
    (it : bool) (epochs : list Z) (s : State) (b : float) :
  valid_loss_min s = Some b -> is_finite b = false ->
  let r := run_epochs dls n_epochs it epochs s in
  snd r = Return tt /\
  saves (trace (fst r)) = saves (trace s) /\
  valid_loss_min (fst r) = Some b.
Proof.
  intros Hb Hf. revert s Hb.
  induction epochs as [|epoch rest IH]; intros s Hb; cbn zeta;
    cbn [run_epochs]; [auto|].
  destruct (epoch_body_spec dls n_epochs it epoch s) as [_ H].
  rewrite Hb, (improves_nonfinite b (epoch_valid_loss dls epoch s) Hf) in H.
  destruct H as (Hr & Hm & Hs & _).
  destruct (epoch_body dls n_epochs it epoch s) as [s' r'];
    cbn [fst snd] in *. subst r'.
  destruct (IH s' Hm) as (H1 & H2 & H3). rewrite H2, Hs. auto.
Qed.

(** A NaN validation loss is checkpointed by the first epoch only: when a
    minimum is stored, an epoch whose validation loss is NaN writes nothing
    and leaves the stored minimum as it is. *)
Theorem nan_loss_not_checkpointed (dls : DataLoaders) (n_epochs : Z)
    (it : bool) (epoch : Z) (s : State) (b : float) :
  valid_loss_min s = Some b ->
  is_nan (epoch_valid_loss dls epoch s) = true ->
  let r := epoch_body dls n_epochs it epoch s in
  saves (trace (fst r)) = saves (trace s) /\
  checkpointed_losses (trace (fst r)) = checkpointed_losses (trace s) /\
  valid_loss_min (fst r) = Some b.
Proof.
  intros Hb Hn r. subst r.
  destruct (epoch_body_spec dls n_epochs it epoch s) as [_ H].
  assert (Hi : improves (valid_loss_min s) (epoch_valid_loss dls epoch s)
               <> Return true).
  { apply improves_nan; [congruence|exact Hn]. }
  destruct (improves (valid_loss_min s) (epoch_valid_loss dls epoch s))
    as [[|]|e]; [congruence| |]; destruct H as (_ & Hm & Hs & Hc);
    rewrite Hm, Hs, Hc; auto.
Qed.

(** *** The model object after a run *)

Lemma train_batches_mode (dl : DataLoader) :
  forall (k : nat) (st : Model * OptState * float),
    training (fst (fst (train_batches k dl st))) = training (fst (fst st)) /\
    on_cuda (fst (fst (train_batches k dl st))) = on_cuda (fst (fst st)).
Proof.
  induction dl as [|[data target] rest IH]; intros k [[m o] avg];
    cbn [train_batches]; [auto|].
  destruct (IH (S k) (train_batch k (data, target) (m, o, avg))) as [H1 H2].
  rewrite H1, H2. unfold train_batch.
  destruct (optimizer_step o (params m) _); auto.
Qed.

Lemma to_device_mode (m : Model) :
  training (to_device m) = training m /\
  on_cuda (to_device m) = cuda_available || on_cuda m.
Proof. unfold to_device. destruct cuda_available; auto. Qed.

Lemma epoch_body_model (dls : DataLoaders) (n_epochs : Z) (it : bool)
    (epoch : Z) (s : State) :
  let m' := model (fst (epoch_body dls n_epochs it epoch s)) in
  training m' = false /\
  on_cuda m' = cuda_available || on_cuda (model s).
Proof.
  cbv zeta. unfold epoch_body.
  pose proof (train_batches_mode (dl_train dls epoch) 0
                (set_mode true (to_device (model s)), optimizer s, zero)) as Ht.
  unfold train_one_epoch.
  change (@num_zero float binary64) with zero.
  destruct (train_batches 0 (dl_train dls epoch) _) as [[m1 o1] tl].
  cbn [fst snd] in Ht. destruct Ht as [_ Hc].
  cbn [set_mode on_cuda] in Hc.
  rewrite (proj2 (to_device_mode (model s))) in Hc.
  assert (Hm : training (to_device (set_mode false m1)) = false /\
               on_cuda (to_device (set_mode false m1)) =
               cuda_available || on_cuda (model s)).
  { destruct (to_device_mode (set_mode false m1)) as [-> ->].
    cbn [set_mode training on_cuda]. rewrite Hc.
    destruct cuda_available; auto. }
  unfold valid_one_epoch.
  destruct (improves _ _) as [save|e].
  - destruct (scheduler_step _ _ _) as [sch o2]. exact Hm.
  - exact Hm.
Qed.

(** A run of [optimize] of at least one epoch leaves the model in
    evaluation mode (the last call that touches it is the [model.eval()] of
    the validation pass), on the GPU iff it was there or one is available;
    this holds also when the run raises. *)
Theorem optimize_leaves_eval_mode (dls : DataLoaders) (m : Model)
    (o : OptState) (n_epochs : Z) (it : bool) :
  (1 <= n_epochs)%Z ->
  let s' := fst (optimize dls m o n_epochs it) in
  training (model s') = false /\
  on_cuda (model s') = cuda_available || on_cuda m.
Proof.
  intros Hn. cbv zeta. unfold optimize.
  destruct (range_first Hn) as [rest ->]. cbn [run_epochs].
  pose proof (epoch_body_model dls n_epochs it 1 (initial_state m o)) as H1.
  cbv zeta in H1. cbn [initial_state model] in H1.
  destruct (epoch_body dls n_epochs it 1 (initial_state m o)) as [s1 [u|e]];
    cbn [fst snd] in *; [|exact H1].
  apply run_epochs_invariant with (P := fun s =>
    training (model s) = false /\
    on_cuda (model s) = cuda_available || on_cuda m); [|exact H1].
  intros epoch s [_ Hc].
  destruct (epoch_body_model dls n_epochs it epoch s) as [Ht Hc'].
  split; [exact Ht|]. rewrite Hc', Hc. now destruct cuda_available.
Qed.

End OptimizeMore.

(** ** Batch losses that are not finite *)

Section NonFinite.

Lemma fsub_nonfinite (x y : float) :
  is_finite x = false -> is_finite (fsub x y) = false.
Proof.
  destruct x as [s|s| |s m e]; try discriminate; intros _;
    destruct y as [s'|s'| |s' m' e']; try destruct s; try destruct s';
    reflexivity.
Qed.

Lemma fmul_nonfinite (c y : float) :
  is_finite y = false -> is_finite (fmul c y) = false.
Proof.
  destruct y as [s|s| |s m e]; try discriminate; intros _;
    destruct c as [s'|s'| |s' m' e']; try destruct s; try destruct s';
    reflexivity.
Qed.

Lemma fadd_nonfinite_l (x y : float) :
  is_finite x = false -> is_finite (fadd x y) = false.
Proof.
  destruct x as [s|s| |s m e]; try discriminate; intros _;
    destruct y as [s'|s'| |s' m' e']; try destruct s; try destruct s';
    reflexivity.
Qed.

Lemma fadd_nonfinite_r (x y : float) :
  is_finite y = false -> is_finite (fadd x y) = false.
Proof.
  destruct y as [s|s| |s m e]; try discriminate; intros _;
    destruct x as [s'|s'| |s' m' e']; try destruct s; try destruct s';
    reflexivity.
Qed.

Lemma incremental_mean_from_nonfinite_avg (losses : list float) :
  forall k avg,
    is_finite avg = false ->
    is_finite (incremental_mean_from k avg losses) = false.
Proof.
  induction losses as [|l rest IH]; intros k avg H; cbn [incremental_mean_from];
    [exact H|].
  apply IH. now apply fadd_nonfinite_l.
Qed.

Lemma incremental_mean_from_nonfinite (losses : list float) :
  forall k avg,
    forallb is_finite losses = false ->
    is_finite (incremental_mean_from k avg losses) = false.
Proof.
  induction losses as [|l rest IH]; intros k avg H;
    cbn [incremental_mean_from forallb] in *; [discriminate|].
  apply andb_false_iff in H as [H|H].
  - apply incremental_mean_from_nonfinite_avg.
    apply fadd_nonfinite_r, fmul_nonfinite, fsub_nonfinite, H.
  - now apply IH.
Qed.

End NonFinite.

Section Loops64More.

Context {F : Framework float}.

(** An infinite batch loss is not averaged away: if one of the batch
    losses a loop sees is infinite or NaN, the loss it computes is infinite
    or NaN. *)
Theorem nonfinite_loss_propagates :
  (forall (dl : DataLoader) (m : Model) (o : OptState),
      forallb is_finite (train_losses dl m o) = false ->
      is_finite (snd (train_one_epoch dl m o)) = false) /\
  (forall (dl : DataLoader) (m : Model),
      forallb is_finite (eval_losses dl m) = false ->
      is_finite (snd (valid_one_epoch dl m)) = false) /\
  (forall (dl : DataLoader) (m : Model),
      forallb is_finite (eval_losses dl m) = false ->
      exists r, is_finite r = false /\
        hd_error (snd (fst (one_epoch_test dl m))) = Some (PrintTestLoss r) /\
        snd (one_epoch_test dl m) =
          if is_zero (test_total dl m) then Raise ZeroDivisionError
          else Return r).
Proof.
  split; [|split]; intros.
  - rewrite train_one_epoch_loss.
    now apply incremental_mean_from_nonfinite.
  - rewrite valid_one_epoch_loss.
    now apply incremental_mean_from_nonfinite.
  - exists (incremental_mean (eval_losses dl m)). split; [|split].
    + now apply incremental_mean_from_nonfinite.
    + apply one_epoch_test_printed.
    + apply one_epoch_test_loss.
Qed.

End Loops64More.

(** ** Batch losses that are all the same *)

Section Constant.

Local Open Scope Z_scope.

(** A finite well-formed float other than zero is determined by its value. *)
Lemma F2Z_inj (x y : float) :
  finite_wf x = true -> finite_wf y = true ->
  F2Z x = F2Z y -> F2Z x <> 0 -> x = y.
Proof.
  intros Hx Hy E Hnz.
  destruct (@finite_wf_cases _ Hx) as [[s ->]|(s1 & m1 & e1 & -> & Hb1)];
    [now cbn [F2Z] in Hnz|].
  destruct (@finite_wf_cases _ Hy) as [[s ->]|(s2 & m2 & e2 & -> & Hb2)];
    [cbn [F2Z] in E, Hnz; lia|].
  cbn [F2Z] in E.
  pose proof (bounded_pos _ _ Hb1) as P1.
  pose proof (bounded_pos _ _ Hb2) as P2.
  assert (s1 = s2) by (destruct s1, s2; cbn [cond_Zopp] in E; lia || reflexivity).
  subst s2.
  assert (E' : Zpos m1 * 2 ^ (e1 + 1074) = Zpos m2 * 2 ^ (e2 + 1074))
    by (destruct s1; cbn [cond_Zopp] in E; lia).
  apply bounded_split in Hb1 as [Hc1 _]. apply bounded_split in Hb2 as [Hc2 _].
  assert (e1 = e2).
  { apply Z.le_antisymm;
      [apply (canonical_exp_mono _ _ _ _ Hc1 Hc2)
      |apply (canonical_exp_mono _ _ _ _ Hc2 Hc1)]; lia. }
  subst e2.
  destruct (canonical_facts _ _ Hc1) as (He & _ & _).
  pose proof (@pow2_pos (e1 + 1074) ltac:(lia)) as Hp.
  assert (Zpos m1 = Zpos m2) by nia.
  congruence.
Qed.

Lemma int_recip_finite (k : positive) : is_finite (int_recip k) = true.
Proof.
  destruct (Pos.eq_dec k 1) as [->|Hk]; [reflexivity|].
  destruct (@int_recip_bounds k) as [H _]; [lia|].
  unfold finite_wf in H. now apply andb_true_iff in H as [H _].
Qed.

(** Averaging in a loss equal to the running average changes nothing. *)
Lemma update_fixed (c : float) (s : bool) (m : positive) (e : Z) :
  is_finite c = true ->
  update c (S754_finite s m e) (S754_finite s m e) = S754_finite s m e.
Proof.
  intros Hc. unfold update. rewrite fsub_finite, Z.sub_diag.
  cbn [binary_normalize].
  destruct c as [sc|sc| |sc mc ec]; try discriminate; reflexivity.
Qed.

Lemma update_zeros (c : float) (sx : bool) :
  is_finite c = true -> update c zero (S754_zero sx) = zero.
Proof.
  intros Hc.
  destruct c as [sc|sc| |sc mc ec]; try discriminate;
    destruct sx, sc; reflexivity.
Qed.

Lemma incremental_mean_from_fixed (s : bool) (m : positive) (e : Z)
    (losses : list float) :
  forall k,
    Forall (eq (S754_finite s m e)) losses ->
    incremental_mean_from k (S754_finite s m e) losses = S754_finite s m e.
Proof.
  induction losses as [|l rest IH]; intros k H; cbn [incremental_mean_from];
    [reflexivity|].
  inversion H as [|? ? Hl Hrest]; subst.
  change (num_add (S754_finite s m e)
            (num_mul (num_recip (Pos.of_succ_nat k))
               (num_sub (S754_finite s m e) (S754_finite s m e))))
    with (update (int_recip (Pos.of_succ_nat k)) (S754_finite s m e)
            (S754_finite s m e)).
  rewrite update_fixed by apply int_recip_finite. now apply IH.
Qed.

Lemma incremental_mean_from_zeros (sx : bool) (losses : list float) :
  forall k,
    Forall (eq (S754_zero sx)) losses ->
    incremental_mean_from k zero losses = zero.
Proof.
  induction losses as [|l rest IH]; intros k H; cbn [incremental_mean_from];
    [reflexivity|].
  inversion H as [|? ? Hl Hrest]; subst.
  change (num_add zero
            (num_mul (num_recip (Pos.of_succ_nat k))
               (num_sub (S754_zero sx) zero)))
    with (update (int_recip (Pos.of_succ_nat k)) zero (S754_zero sx)).
  rewrite update_zeros by apply int_recip_finite. now apply IH.
Qed.

Lemma incremental_mean_constant (x : float) (losses : list float) :
  finite_wf x = true -> losses <> [] -> Forall (eq x) losses ->
  incremental_mean losses = if is_zero x then zero else x.
Proof.
  intros Hx Hne Hall. unfold incremental_mean.
  destruct (@finite_wf_cases _ Hx) as [[s ->]|(s & m & e & -> & Hb)].
  - cbn [is_zero]. now apply incremental_mean_from_zeros with (sx := s).
  - cbn [is_zero]. destruct losses as [|l rest]; [congruence|].
    inversion Hall as [|? ? Hl Hrest]; subst l.
    cbn [incremental_mean_from].
    change (num_add num_zero
              (num_mul (num_recip (Pos.of_succ_nat 0))
                 (num_sub (S754_finite s m e) num_zero)))
      with (update (int_recip 1) zero (S754_finite s m e)).
    destruct (@first_update _ Hx) as [Hw Hv].
    assert (Hnz : F2Z (S754_finite s m e) <> 0).
    { pose proof (bounded_pos _ _ Hb). cbn [F2Z]. destruct s; cbn [cond_Zopp]; lia. }
    rewrite (@F2Z_inj _ _ Hw Hx Hv) by (rewrite Hv; exact Hnz).
    now apply incremental_mean_from_fixed.
Qed.

End Constant.

Section ConstantLoops.

Context {F : Framework float}.

(** When every batch of a pass has the same finite loss, the running
    average commits no rounding error: each loop computes that very float
    (0.0 when the loss is 0.0 or -0.0). *)
Theorem constant_losses_exact (x : float) :
  finite_wf x = true ->
  (forall (dl : DataLoader) (m : Model) (o : OptState),
      dl <> [] -> Forall (eq x) (train_losses dl m o) ->
      snd (train_one_epoch dl m o) = if is_zero x then zero else x) /\
  (forall (dl : DataLoader) (m : Model),
      dl <> [] -> Forall (eq x) (eval_losses dl m) ->
      snd (valid_one_epoch dl m) = if is_zero x then zero else x) /\
  (forall (dl : DataLoader) (m : Model),
      dl <> [] -> Forall (eq x) (eval_losses dl m) ->
      hd_error (snd (fst (one_epoch_test dl m))) =
        Some (PrintTestLoss (if is_zero x then zero else x)) /\
      snd (one_epoch_test dl m) =
        if is_zero (test_total dl m) then Raise ZeroDivisionError
        else Return (if is_zero x then zero else x)).
Proof.
  intros Hx. split; [|split]; intros.
  - rewrite train_one_epoch_loss.
    apply incremental_mean_constant; auto. now apply train_losses_nonempty.
  - rewrite valid_one_epoch_loss.
    apply incremental_mean_constant; auto. now apply eval_losses_nonempty.
  - rewrite one_epoch_test_printed, one_epoch_test_loss.
    rewrite (@incremental_mean_constant x); auto.
    now apply eval_losses_nonempty.
Qed.

End ConstantLoops.

(** ** The counters of [one_epoch_test] *)

Section Counting.

Local Open Scope Z_scope.

Lemma test_batches_counts {A : Type} {N : LossNum A} {F : Framework A}
    (m : Model) (dl : DataLoader) :
  forall (k : nat) (st : A * float * float),
    snd (test_batches k dl m st) =
      add_counts (snd st) (map (fun b : Batch => size0 (fst b)) dl) /\
    snd (fst (test_batches k dl m st)) =
      add_counts (snd (fst st))
        (map (fun b : Batch =>
                n_correct (forward (params m) (training m) (fst b)) (snd b))
             dl).
Proof.
  induction dl as [|[data target] rest IH]; intros k [[avg c] t];
    cbn [test_batches map]; [split; reflexivity|].
  destruct (IH (S k) (test_batch k (data, target) m (avg, c, t))) as [H1 H2].
  rewrite H1, H2. split; reflexivity.
Qed.

(** *** Counts never come back to zero *)

Lemma positive_round (p : positive) (e : Z) :
  -1074 <= e ->
  binary_round prec emax false p e = S754_infinity false \/
  exists m3 e3, binary_round prec emax false p e = S754_finite false m3 e3 /\
                bounded prec emax m3 e3 = true.
Proof.
  intros He.
  destruct (@binary_round_lower false p 1 e (-1074))
    as [Hr|(m3 & e3 & Hr & Hb & _)]; try lia; try reflexivity.
  - now left.
  - right. eauto.
Qed.

Lemma of_int_count (n : Z) :
  0 <= n ->
  count_like (of_int n) /\ (is_zero (of_int n) = true <-> n = 0).
Proof.
  intros Hn. destruct n as [|p|p]; try lia.
  - split; [now left|]. split; reflexivity.
  - unfold of_int. cbn [binary_normalize].
    destruct (@positive_round p 0) as [Hr|(m & e & Hr & Hb)]; try lia;
      rewrite Hr; (split; [|split; [discriminate|lia]]).
    + right. now left.
    + right. right. eauto.
Qed.

Lemma fadd_count (t u : float) :
  count_like t -> count_like u ->
  count_like (fadd t u) /\
  (is_zero (fadd t u) = true <-> is_zero t = true /\ is_zero u = true).
Proof.
  intros [->|[->|(mt & et & -> & Hbt)]] [->|[->|(mu & eu & -> & Hbu)]];
    unfold fadd; cbn [SFadd Bool.eqb is_zero].
  - split; [now left|]. tauto.
  - split; [right; now left|]. split; [discriminate|intros [? ?]; discriminate].
  - split; [right; right; eauto|].
    split; [discriminate|intros [? ?]; discriminate].
  - split; [right; now left|]. split; [discriminate|intros [? ?]; discriminate].
  - split; [right; now left|]. split; [discriminate|intros [? ?]; discriminate].
  - split; [right; now left|]. split; [discriminate|intros [? ?]; discriminate].
  - split; [right; right; eauto|].
    split; [discriminate|intros [? ?]; discriminate].
  - split; [right; now left|]. split; [discriminate|intros [? ?]; discriminate].
  - cbn [cond_Zopp Z.add binary_normalize].
    pose proof (bounded_exp _ _ Hbt). pose proof (bounded_exp _ _ Hbu).
    destruct (@positive_round
                (fst (shl_align mt et (Z.min et eu)) +
                 fst (shl_align mu eu (Z.min et eu))) (Z.min et eu))
      as [Hr|(m & e & Hr & Hb)]; try lia; rewrite Hr; cbn [is_zero].
    + split; [right; now left|].
      split; [discriminate|intros [? ?]; discriminate].
    + split; [right; right; eauto|].
      split; [discriminate|intros [? ?]; discriminate].
Qed.

Lemma add_counts_zero (l : list nat) :
  forall t,
    count_like t ->
    count_like (add_counts t l) /\
    (is_zero (add_counts t l) = true <->
     is_zero t = true /\ list_sum l = 0%nat).
Proof.
  induction l as [|n rest IH]; intros t Ht; cbn [add_counts fold_left list_sum].
  - split; [exact Ht|]. tauto.
  - destruct (@of_int_count (Z.of_nat n)) as [Hc Hz]; [lia|].
    destruct (fadd_count Ht Hc) as [Hc' Hz'].
    destruct (IH _ Hc') as [H1 H2]. split; [exact H1|].
    unfold add_counts in H2. rewrite H2, Hz', Hz. split.
    + intros [[? ?] ?]. split; [assumption|]. simpl list_sum. lia.
    + simpl list_sum. intros [? ?]. repeat split; auto; lia.
Qed.

End Counting.

Section TestCounts.

Context {A : Type} {N : LossNum A} {F : Framework A}.

Lemma test_total_zero (dl : DataLoader) (m : Model) :
  is_zero (test_total dl m) = true <-> n_samples dl = 0%nat.
Proof.
  unfold test_total, n_samples.
  rewrite (proj1 (test_batches_counts _ dl 0 (num_zero, zero, zero))).
  cbn [snd].
  destruct (@add_counts_zero (map (fun b : Batch => size0 (fst b)) dl) zero)
    as [_ H]; [now left|].
  rewrite H. cbn. tauto.
Qed.

(** [one_epoch_test] raises exactly when the loader yields no sample at
    all (no batch, or empty batches only): the accuracy line then divides
    by zero.  It returns its test loss in every other case. *)
Theorem test_raises_iff_no_sample (dl : DataLoader) (m : Model) :
  (snd (one_epoch_test dl m) = Raise ZeroDivisionError <->
   n_samples dl = 0%nat) /\
  (snd (one_epoch_test dl m) = Return (incremental_mean (eval_losses dl m)) <->
   n_samples dl <> 0%nat).
Proof.
  rewrite one_epoch_test_loss.
  pose proof (test_total_zero dl m) as H.
  destruct (is_zero (test_total dl m)); split; split; intros H'.
  - now apply H.
  - reflexivity.
  - discriminate.
  - exfalso. apply H'. now apply H.
  - discriminate.
  - apply H in H'. discriminate.
  - intros E. apply H in E. discriminate.
  - reflexivity.
Qed.

End TestCounts.

(** *** Counts below 2^53 are exact *)

Section ExactCounts.

Local Open Scope Z_scope.

(** Every integer from 0 to 2^53 is a float. *)
Lemma int_float (n : Z) :
  0 <= n <= 2 ^ 53 ->
  exists f, finite_wf f = true /\ F2Z f = n * 2 ^ 1074.
Proof.
  intros Hn.
  destruct (Z.eq_dec n 0) as [->|Hn0]; [exists zero; split; reflexivity|].
  destruct (Z.eq_dec n (2 ^ 53)) as [->|Hn53].
  { exists (pow2_float false 1127).
    destruct (@pow2_float_spec false 1127) as [Hw Hv]; [lia|].
    split; [exact Hw|]. rewrite Hv. cbn [cond_Zopp].
    rewrite <- pow2_split by lia. reflexivity. }
  assert (Hpos : 0 < n) by lia.
  pose proof (Zdigits2_bounds Hpos) as [Hdl Hdh].
  pose proof (Zdigits2_pos Hpos) as Hdp.
  assert (Hd : Zdigits2 n <= 53) by (apply Zdigits2_le; lia).
  set (d := Zdigits2 n) in *.
  pose proof (@pow2_pos (53 - d) ltac:(lia)) as Hp.
  assert (Hm : 0 < n * 2 ^ (53 - d)) by nia.
  exists (S754_finite false (Z.to_pos (n * 2 ^ (53 - d))) (d - 53)). split.
  - unfold finite_wf, wf; cbn [is_finite valid_binary andb].
    apply bounded_split. split; [|lia].
    unfold canonical_mantissa. apply Z.eqb_eq. rewrite fexp_unfold.
    change (Zpos (digits2_pos (Z.to_pos (n * 2 ^ (53 - d)))))
      with (Zdigits2 (Zpos (Z.to_pos (n * 2 ^ (53 - d))))).
    rewrite Z2Pos.id by assumption.
    rewrite Zdigits2_shift by lia. fold d. lia.
  - cbn [F2Z cond_Zopp]. rewrite Z2Pos.id by assumption.
    rewrite <- Z.mul_assoc, <- pow2_split by lia. do 2 f_equal. lia.
Qed.

Lemma of_int_exact (n : Z) :
  0 <= n <= 2 ^ 53 ->
  finite_wf (of_int n) = true /\ F2Z (of_int n) = n * 2 ^ 1074.
Proof.
  intros Hn. destruct (int_float Hn) as (f & Hw & Hv).
  destruct (@binary_normalize_between f f Hw Hw n 0 0 false) as [H1 H2];
    try lia.
  split; [exact H1|]. unfold of_int. lia.
Qed.

Lemma of_int_add (a b : Z) :
  0 <= a -> 0 <= b -> a + b <= 2 ^ 53 ->
  fadd (of_int a) (of_int b) = of_int (a + b).
Proof.
  intros Ha Hb Hab.
  destruct (Z.eq_dec (a + b) 0) as [E|NE].
  { replace a with 0 by lia. replace b with 0 by lia. reflexivity. }
  destruct (@of_int_exact a) as [Hwa Hva]; [lia|].
  destruct (@of_int_exact b) as [Hwb Hvb]; [lia|].
  destruct (@of_int_exact (a + b)) as [Hws Hvs]; [lia|].
  destruct (@fadd_between (of_int a) (of_int b) (of_int (a + b))
              (of_int (a + b)) Hwa Hwb Hws Hws) as [Hw Hv]; [lia|].
  apply F2Z_inj; auto; [lia|].
  pose proof (@pow2_pos 1074 ltac:(lia)). nia.
Qed.

Lemma add_counts_exact (l : list nat) :
  forall a,
    0 <= a -> a + Z.of_nat (list_sum l) <= 2 ^ 53 ->
    add_counts (of_int a) l = of_int (a + Z.of_nat (list_sum l)).
Proof.
  induction l as [|n rest IH]; intros a Ha Hs; cbn [add_counts fold_left].
  - simpl list_sum. now rewrite Z.add_0_r.
  - simpl list_sum in *. rewrite of_int_add by lia.
    fold (add_counts (of_int (a + Z.of_nat n)) rest).
    rewrite IH by lia. f_equal. lia.
Qed.

End ExactCounts.

Section TestLine.

Context {A : Type} {N : LossNum A} {F : Framework A}.

(** The accumulators of [one_epoch_test] when its loop ends. *)
Lemma test_accumulators (dl : DataLoader) (m : Model) :
  (Z.of_nat (n_samples dl) <= 2 ^ 53)%Z ->
  (Z.of_nat (n_right dl m) <= 2 ^ 53)%Z ->
  test_batches 0 dl (to_device (set_mode false m)) (num_zero, zero, zero) =
  (incremental_mean (eval_losses dl m),
   of_int (Z.of_nat (n_right dl m)),
   of_int (Z.of_nat (n_samples dl))).
Proof.
  intros Hn Hr. unfold eval_losses, incremental_mean.
  pose proof (test_batches_loss (to_device (set_mode false m)) dl 0
                (num_zero, zero, zero)) as Hl.
  destruct (test_batches_counts (to_device (set_mode false m)) dl 0
              (num_zero, zero, zero)) as [Ht Hc].
  destruct (test_batches 0 dl _ _) as [[tl c] t]. cbn [fst snd] in *.
  change zero with (of_int 0) in Ht, Hc.
  rewrite add_counts_exact in Ht by (fold (n_samples dl); lia).
  rewrite add_counts_exact in Hc
    by (fold (n_right dl m); cbv zeta; lia).
  cbn [Z.add] in Ht, Hc.
  fold (n_samples dl) in Ht. fold (n_right dl m) in Hc. cbv zeta in Hc.
  now subst t c tl.
Qed.

Lemma total_not_zero (n : nat) :
  (0 < n)%nat -> is_zero (of_int (Z.of_nat n)) = false.
Proof.
  intros Hn. destruct (@of_int_count (Z.of_nat n)) as [_ H]; [lia|].
  destruct (is_zero (of_int (Z.of_nat n))); [|reflexivity].
  assert (Z.of_nat n = 0%Z) by now apply H. lia.
Qed.

(** As long as the loader yields at most 2^53 samples, [one_epoch_test]
    counts them exactly: when it holds at least one, the function prints
    its test loss and then the accuracy line with [correct] and [total]
    equal to the numbers of correct predictions and of samples, the
    percentage being the float quotient [100. * correct / total], and
    returns the test loss. *)
Theorem test_counts_exact (dl : DataLoader) (m : Model) :
  (0 < n_samples dl)%nat ->
  (Z.of_nat (n_samples dl) <= 2 ^ 53)%Z ->
  (Z.of_nat (n_right dl m) <= 2 ^ 53)%Z ->
  let correct := of_int (Z.of_nat (n_right dl m)) in
  let total := of_int (Z.of_nat (n_samples dl)) in
  let test_loss := incremental_mean (eval_losses dl m) in
  snd (fst (one_epoch_test dl m)) =
    [PrintTestLoss test_loss;
     PrintTestAccuracy (SFdiv prec emax (fmul lit_100 correct) total)
       correct total] /\
  snd (one_epoch_test dl m) = Return test_loss.
Proof.
  intros Hpos Hn Hr correct total test_loss.
  unfold one_epoch_test. rewrite (test_accumulators _ _ Hn Hr).
  fold correct total test_loss. unfold truediv, total.
  rewrite (total_not_zero Hpos). split; reflexivity.
Qed.

End TestLine.

(** ** The order of the batches *)

Section Order.




Context {F : Framework Q}.


End Order.

(** ** What makes the tests pass or fail *)

Section TestFacts.

Context {F : Framework float}.

Local Open Scope string_scope.

Lemma range_0_2 : range 0 2 = [0%Z; 1%Z].
Proof. reflexivity. Qed.

Lemma range_1_3 : range 1 (2 + 1) = [1%Z; 2%Z].
Proof. reflexivity. Qed.

Lemma finite_between_not_nan (losses : list float) (r : float) :
  finite_between losses r -> is_nan r = false.
Proof. now intros (_ & H & _). Qed.

(** [test_optimize] passes unless the validation loss of the first of
    its two epochs is zero: then the second epoch divides by the stored
    minimum 0.0 and the test ends in ZeroDivisionError. *)
Theorem test_optimize_outcome (dls : DataLoaders) (m : Model) (o : OptState) :
  snd (test_optimize dls m o) =
    if is_zero (epoch_valid_loss dls 1 (initial_state m o))
    then Errored ZeroDivisionError else Passed.
Proof.
  unfold test_optimize, optimize. rewrite range_1_3. cbn [run_epochs].
  destruct (epoch_body_spec dls 2 false 1 (initial_state m o)) as [_ H1].
  cbn [initial_state valid_loss_min improves] in H1.
  destruct H1 as (Hr1 & Hm1 & _).
  set (v1 := epoch_valid_loss dls 1 (initial_state m o)) in *.
  destruct (epoch_body dls 2 false 1 (initial_state m o)) as [s1 r1].
  cbn [fst snd] in *. subst r1.
  destruct (epoch_body_spec dls 2 false 2 s1) as [_ H2].
  rewrite Hm1 in H2. unfold improves, truediv in H2.
  destruct (epoch_body dls 2 false 2 s1) as [s2 r2]. cbn [fst snd] in *.
  destruct (is_zero v1).
  - destruct H2 as (-> & _). reflexivity.
  - destruct (gt _ _); destruct H2 as (-> & _); reflexivity.
Qed.

Lemma batch_loss_eval (m1 m2 : Model) (b : Batch) :
  params m1 = params m2 ->
  batch_loss (to_device (set_mode false m1)) b =
  batch_loss (to_device (set_mode false m2)) b.
Proof.
  intros H. unfold batch_loss.
  rewrite !params_to_device. cbn [set_mode params].
  rewrite H. unfold to_device. destruct cuda_available; reflexivity.
Qed.

Lemma eval_losses_params (dl : DataLoader) (m1 m2 : Model) :
  params m1 = params m2 -> eval_losses dl m1 = eval_losses dl m2.
Proof.
  intros H. unfold eval_losses. apply map_ext. intros b.
  now apply batch_loss_eval.
Qed.

(** The three loss tests pass when the batch losses of the passes they
    make are finite floats of magnitude at most 2^1022 (and, for
    [test_one_epoch_test], the test loader holds a sample). *)
Theorem loss_tests_pass (dls : DataLoaders) (test_dl : DataLoader)
    (m : Model) (o : OptState) :
  (let '(m1, o1, _) := train_one_epoch (dl_train dls 0) m o in
   forallb moderate (train_losses (dl_train dls 0) m o) = true ->
   forallb moderate (train_losses (dl_train dls 1) m1 o1) = true ->
   snd (test_train_one_epoch dls m o) = Passed) /\
  (forallb moderate (eval_losses (dl_valid dls 0) m) = true ->
   forallb moderate (eval_losses (dl_valid dls 1) m) = true ->
   snd (test_valid_one_epoch dls m) = Passed) /\
  (forallb moderate (eval_losses test_dl m) = true ->
   n_samples test_dl <> 0%nat ->
   snd (test_one_epoch_test test_dl m) = Passed).
Proof.
  split; [|split].
  - unfold test_train_one_epoch. rewrite range_0_2. cbn [train_passes].
    pose proof (train_one_epoch_loss (dl_train dls 0) m o) as E0.
    destruct (train_one_epoch (dl_train dls 0) m o) as [[m1 o1] l0].
    cbn [snd] in E0. intros H0 H1.
    pose proof (train_one_epoch_loss (dl_train dls 1) m1 o1) as E1.
    destruct (train_one_epoch (dl_train dls 1) m1 o1) as [[m2 o2] l1].
    cbn [snd] in E1.
    rewrite E0, (finite_between_not_nan (incremental_mean_finite_between _ H0)).
    rewrite E1, (finite_between_not_nan (incremental_mean_finite_between _ H1)).
    reflexivity.
  - intros H0 H1.
    unfold test_valid_one_epoch. rewrite range_0_2. cbn [valid_passes].
    pose proof (valid_one_epoch_loss (dl_valid dls 0) m) as E0.
    pose proof (valid_one_epoch_model (dl_valid dls 0) m) as M0.
    destruct (valid_one_epoch (dl_valid dls 0) m) as [m1 l0].
    cbn [fst snd] in E0, M0.
    pose proof (valid_one_epoch_loss (dl_valid dls 1) m1) as E1.
    destruct (valid_one_epoch (dl_valid dls 1) m1) as [m2 l1].
    cbn [snd] in E1.
    rewrite (@eval_losses_params (dl_valid dls 1) m1 m) in E1
      by (rewrite M0, params_to_device; reflexivity).
    rewrite E0, (finite_between_not_nan (incremental_mean_finite_between _ H0)).
    rewrite E1, (finite_between_not_nan (incremental_mean_finite_between _ H1)).
    reflexivity.
  - intros H0 Hn. unfold test_one_epoch_test.
    pose proof (one_epoch_test_loss test_dl m) as E.
    pose proof (test_total_zero test_dl m) as Z.
    destruct (one_epoch_test test_dl m) as [[m1 out] r]. cbn [snd] in E.
    destruct (is_zero (test_total test_dl m)).
    + exfalso. apply Hn. now apply Z.
    + rewrite E,
        (finite_between_not_nan (incremental_mean_finite_between _ H0)).
      reflexivity.
Qed.

(** A NaN batch loss fails the loss tests: each of them stops at its
    first pass with the message of its [assert]; [test_one_epoch_test]
    ends in ZeroDivisionError instead when its loader holds no sample. *)
Theorem loss_tests_fail_on_nan (dls : DataLoaders) (test_dl : DataLoader)
    (m : Model) (o : OptState) :
  (existsb is_nan (train_losses (dl_train dls 0) m o) = true ->
   test_train_one_epoch dls m o =
     (fst (train_one_epoch (dl_train dls 0) m o),
      Failed "Training loss is nan")) /\
  (existsb is_nan (eval_losses (dl_valid dls 0) m) = true ->
   test_valid_one_epoch dls m =
     (to_device (set_mode false m), Failed "Validation loss is nan")) /\
  (existsb is_nan (eval_losses test_dl m) = true ->
   test_one_epoch_test test_dl m =
     (to_device (set_mode false m),
      if Nat.eqb (n_samples test_dl) 0 then Errored ZeroDivisionError
      else Failed "Test loss is nan")).
Proof.
  split; [|split]; intros H.
  - unfold test_train_one_epoch. rewrite range_0_2. cbn [train_passes].
    pose proof (train_one_epoch_loss (dl_train dls 0) m o) as E0.
    destruct (train_one_epoch (dl_train dls 0) m o) as [[m1 o1] l0].
    cbn [fst snd] in *.
    rewrite E0. unfold incremental_mean.
    rewrite incremental_mean_from_nan by exact H. reflexivity.
  - unfold test_valid_one_epoch. rewrite range_0_2. cbn [valid_passes].
    pose proof (valid_one_epoch_loss (dl_valid dls 0) m) as E0.
    pose proof (valid_one_epoch_model (dl_valid dls 0) m) as M0.
    destruct (valid_one_epoch (dl_valid dls 0) m) as [m1 l0].
    cbn [fst snd] in *.
    rewrite E0, M0. unfold incremental_mean.
    rewrite incremental_mean_from_nan by exact H. reflexivity.
  - unfold test_one_epoch_test.
    pose proof (one_epoch_test_loss test_dl m) as E.
    pose proof (one_epoch_test_model test_dl m) as M.
    pose proof (test_total_zero test_dl m) as Z.
    destruct (one_epoch_test test_dl m) as [[m1 out] r].
    cbn [fst snd] in *. subst m1 r.
    destruct (Nat.eqb_spec (n_samples test_dl) 0) as [E|NE].
    + rewrite (proj2 Z E). reflexivity.
    + destruct (is_zero (test_total test_dl m)).
      * exfalso. apply NE. now apply Z.
      * unfold incremental_mean.
        rewrite incremental_mean_from_nan by exact H. reflexivity.
Qed.

End TestFacts.

(** ** Division, and the thresholds of the checkpoint rule *)

Section Division.

Local Open Scope Z_scope.

Lemma SFltb_asym (x y : float) : SFltb x y = true -> SFltb y x = false.
Proof.
  unfold SFltb, SFcompare.
  destruct x as [sx|sx| |sx mx ex], y as [sy|sy| |sy my ey];
    try destruct sx; try destruct sy; try discriminate; try reflexivity;
    rewrite (Z.compare_antisym ex ey);
    change (Pos.compare_cont Eq my mx) with (Pos.compare my mx);
    change (Pos.compare_cont Eq mx my) with (Pos.compare mx my);
    rewrite (Pos.compare_antisym mx my);
    destruct (ex ?= ey); cbn [CompOpp]; try discriminate; try reflexivity;
    destruct (mx ?= my)%positive; cbn [CompOpp]; try discriminate;
    reflexivity.
Qed.

Lemma SFltb_false_of_F2Z (x y : float) :
  finite_wf x = true -> finite_wf y = true ->
  F2Z y <= F2Z x -> SFltb x y = false.
Proof.
  intros Hx Hy Hv.
  destruct (Z.eq_dec (F2Z y) (F2Z x)) as [E|NE].
  - destruct (Z.eq_dec (F2Z y) 0) as [E0|NE0].
    + destruct (finite_wf_cases _ Hx) as [[sx ->]|(sx & mx & ex & -> & Hbx)];
        destruct (finite_wf_cases _ Hy) as [[sy ->]|(sy & my & ey & -> & Hby)];
        try reflexivity; exfalso; cbn [F2Z] in *.
      * pose proof (bounded_pos _ _ Hby). destruct sy; cbn [cond_Zopp] in *; lia.
      * pose proof (bounded_pos _ _ Hbx). destruct sx; cbn [cond_Zopp] in *; lia.
      * pose proof (bounded_pos _ _ Hby). destruct sy; cbn [cond_Zopp] in *; lia.
    + rewrite (@F2Z_inj y x Hy Hx E NE0).
      destruct (SFltb x x) eqn:El; [|reflexivity].
      pose proof (SFltb_asym _ _ El). congruence.
  - apply SFltb_asym. apply SFltb_of_F2Z; auto. lia.
Qed.

(** The quotient of two finite floats, when it is not below the normal
    range: the rounding of an integer quotient [N / my] of at least 53
    digits, scaled by [2^e']. *)
Lemma SFdiv_normal (sx sy : bool) (mx my : positive) (ex ey : Z) :
  bounded prec emax mx ex = true -> bounded prec emax my ey = true ->
  Zpos my * 2 ^ (ey + 1074) <= Zpos mx * 2 ^ (ex + 1074) * 2 ^ 1021 ->
  exists N e',
    SFdiv prec emax (S754_finite sx mx ex) (S754_finite sy my ey) =
      binary_round_aux prec emax (xorb sx sy) (N / Zpos my) e'
        (new_location (Zpos my) (N mod Zpos my)) /\
    Zpos my <= N /\ -1074 <= e' /\
    e' <= fexp prec emax (Zdigits2 (N / Zpos my) + e') /\
    N * 2 ^ (e' + 1074) * 2 ^ (ey + 1074)
      = Zpos mx * 2 ^ (ex + 1074) * 2 ^ 1074.
Proof.
  intros Hbx Hby Hn. cbn [SFdiv].
  apply bounded_split in Hbx as [Hcx Hxmax].
  apply bounded_split in Hby as [Hcy Hymax].
  destruct (canonical_facts _ _ Hcx) as (Hex & Hmx & _).
  destruct (canonical_facts _ _ Hcy) as (Hey & Hmy & _).
  pose proof (digits2_pos_bounds mx) as [Hxl Hxh].
  pose proof (digits2_pos_bounds my) as [Hyl Hyh].
  unfold SFdiv_core_binary. cbn [Zdigits2].
  set (dx := Zpos (digits2_pos mx)) in *.
  set (dy := Zpos (digits2_pos my)) in *.
  assert (Hdx : 1 <= dx <= 53).
  { split; [unfold dx; lia|].
    unfold dx. change (Zpos (digits2_pos mx)) with (Zdigits2 (Zpos mx)).
    apply Zdigits2_le; [lia|exact Hmx]. }
  assert (Hdy : 1 <= dy <= 53).
  { split; [unfold dy; lia|].
    unfold dy. change (Zpos (digits2_pos my)) with (Zdigits2 (Zpos my)).
    apply Zdigits2_le; [lia|exact Hmy]. }
  assert (Hrange : dy + ey <= dx + ex + 1021).
  { assert (H1 : 2 ^ (dy - 1 + (ey + 1074)) <= Zpos my * 2 ^ (ey + 1074)).
    { rewrite pow2_split by lia.
      apply Z.mul_le_mono_nonneg_r; [apply Z.lt_le_incl, pow2_pos; lia|lia]. }
    assert (H2 : Zpos mx * 2 ^ (ex + 1074) * 2 ^ 1021
                 < 2 ^ (dx + (ex + 1074) + 1021)).
    { rewrite (@pow2_split (dx + (ex + 1074)) 1021) by lia.
      rewrite (@pow2_split dx (ex + 1074)) by lia.
      apply Z.mul_lt_mono_pos_r; [apply pow2_pos; lia|].
      apply Z.mul_lt_mono_pos_r; [apply pow2_pos; lia|lia]. }
    assert (H3 : 2 ^ (dy - 1 + (ey + 1074)) < 2 ^ (dx + (ex + 1074) + 1021))
      by lia.
    apply Z.pow_lt_mono_r_iff in H3; lia. }
  set (e' := Z.min (fexp prec emax (dx + ex - (dy + ey))) (ex - ey)).
  assert (He' : e' = dx + ex - dy - ey - 53).
  { unfold e'. rewrite fexp_unfold. lia. }
  set (sh := ex - ey - e').
  assert (Hsh : sh = 53 + dy - dx) by (unfold sh; lia).
  assert (Hm' : forall m1,
             match sh with
             | Z0 => m1
             | Zpos _ => Z.shiftl m1 sh
             | Zneg _ => 0
             end = m1 * 2 ^ sh).
  { intros m1. assert (1 <= sh) by lia. clearbody sh.
    destruct sh as [|p|p]; try lia. apply Z.shiftl_mul_pow2. lia. }
  rewrite Hm'. clear Hm'.
  set (N := Zpos mx * 2 ^ sh).
  assert (HNl : 2 ^ (52 + dy) <= N).
  { unfold N. replace (52 + dy) with (dx - 1 + sh) by lia.
    rewrite pow2_split by lia.
    apply Z.mul_le_mono_nonneg_r; [apply Z.lt_le_incl, pow2_pos; lia|lia]. }
  assert (H52 : 2 ^ 52 * Zpos my <= N).
  { apply Z.le_trans with (2 := HNl). rewrite pow2_split by lia.
    apply Z.mul_le_mono_nonneg_l; [apply Z.lt_le_incl, pow2_pos; lia|lia]. }
  assert (Hdiv : Z.div_eucl N (Zpos my) = (N / Zpos my, N mod Zpos my)).
  { unfold Z.div, Z.modulo. now destruct (Z.div_eucl N (Zpos my)). }
  rewrite Hdiv.
  exists N, e'. split; [reflexivity|].
  assert (Hq : 2 ^ 52 <= N / Zpos my).
  { apply Z.div_le_lower_bound; [lia|]. lia. }
  assert (Hdq : 53 <= Zdigits2 (N / Zpos my)).
  { apply Zdigits2_ge; [|exact Hq].
    apply Z.lt_le_trans with (2 := Hq). apply pow2_pos. lia. }
  split; [|split; [lia|split]].
  - pose proof (@pow2_pos 52 ltac:(lia)). nia.
  - rewrite fexp_unfold. lia.
  - unfold N. rewrite <- !Z.mul_assoc. f_equal.
    rewrite <- !pow2_split by lia. f_equal. lia.
Qed.


Lemma fdiv_between_pos (mx my : positive) (ex ey : Z) (lo hi : float) :
  bounded prec emax mx ex = true -> bounded prec emax my ey = true ->
  finite_wf lo = true -> finite_wf hi = true ->
  Zpos my * 2 ^ (ey + 1074) <= Zpos mx * 2 ^ (ex + 1074) * 2 ^ 1021 ->
  F2Z lo * (Zpos my * 2 ^ (ey + 1074)) <= Zpos mx * 2 ^ (ex + 1074) * 2 ^ 1074 ->
  Zpos mx * 2 ^ (ex + 1074) * 2 ^ 1074 <= F2Z hi * (Zpos my * 2 ^ (ey + 1074)) ->
  let q := SFdiv prec emax (S754_finite false mx ex) (S754_finite false my ey) in
  finite_wf q = true /\ F2Z lo <= F2Z q <= F2Z hi.
Proof.
  intros Hbx Hby Hlo Hhi Hn Hl Hh q. subst q.
  destruct (@SFdiv_normal false false mx my ex ey Hbx Hby Hn)
    as (N & e' & -> & HN & He' & Hf & Hval).
  pose proof (bounded_exp _ _ Hby) as Hey.
  pose proof (@pow2_pos (ey + 1074) ltac:(lia)) as Hp.
  cbn [xorb].
  apply round_between with (k := 0); auto; try lia.
  - apply new_location_rep; lia.
  - cbn [cond_Zopp]. rewrite Z.add_0_r. change (2 ^ 0) with 1.
    rewrite Z.mul_1_r.
    apply Z.mul_le_mono_pos_r with (2 ^ (ey + 1074)); [assumption|].
    rewrite Hval. lia.
  - cbn [cond_Zopp]. rewrite Z.add_0_r. change (2 ^ 0) with 1.
    rewrite Z.mul_1_r.
    apply Z.mul_le_mono_pos_r with (2 ^ (ey + 1074)); [assumption|].
    rewrite Hval. lia.
Qed.

Lemma fdiv_lower_pos (mx my ml : positive) (ex ey el : Z) :
  bounded prec emax mx ex = true -> bounded prec emax my ey = true ->
  bounded prec emax ml el = true ->
  Zpos my * 2 ^ (ey + 1074) <= Zpos mx * 2 ^ (ex + 1074) * 2 ^ 1021 ->
  Zpos ml * 2 ^ (el + 1074) * (Zpos my * 2 ^ (ey + 1074))
    <= Zpos mx * 2 ^ (ex + 1074) * 2 ^ 1074 ->
  let q := SFdiv prec emax (S754_finite false mx ex) (S754_finite false my ey) in
  q = S754_infinity false \/
  exists m3 e3, q = S754_finite false m3 e3 /\
                bounded prec emax m3 e3 = true /\
                Zpos ml * 2 ^ (el + 1074) <= Zpos m3 * 2 ^ (e3 + 1074).
Proof.
  intros Hbx Hby Hbl Hn Hl q. subst q.
  destruct (@SFdiv_normal false false mx my ex ey Hbx Hby Hn)
    as (N & e' & -> & HN & He' & Hf & Hval).
  pose proof (bounded_exp _ _ Hby) as Hey.
  pose proof (@pow2_pos (ey + 1074) ltac:(lia)) as Hp.
  cbn [xorb].
  apply round_lower with (k := 0); auto; try lia.
  - apply new_location_rep; lia.
  - rewrite Z.add_0_r. change (2 ^ 0) with 1. rewrite Z.mul_1_r.
    apply Z.mul_le_mono_pos_r with (2 ^ (ey + 1074)); [assumption|].
    rewrite Hval. lia.
Qed.

(** The difference of a positive float and a float below it is at least
    any float below the exact difference, or it overflows. *)
Lemma fsub_lower_pos (mb ml : positive) (eb el : Z) (v : float) :
  bounded prec emax mb eb = true -> finite_wf v = true ->
  bounded prec emax ml el = true ->
  Zpos ml * 2 ^ (el + 1074) <= Zpos mb * 2 ^ (eb + 1074) - F2Z v ->
  let d := fsub (S754_finite false mb eb) v in
  d = S754_infinity false \/
  exists m3 e3, d = S754_finite false m3 e3 /\
                bounded prec emax m3 e3 = true /\
                Zpos ml * 2 ^ (el + 1074) <= Zpos m3 * 2 ^ (e3 + 1074).
Proof.
  intros Hbb Hv Hbl Hl d. subst d.
  pose proof (bounded_pos _ _ Hbl) as Hlpos.
  destruct (finite_wf_cases _ Hv) as [[sv ->]|(sv & mv & ev & -> & Hbv)].
  - right. exists mb, eb. cbn [F2Z] in Hl. rewrite Z.sub_0_r in Hl.
    split; [reflexivity|]. split; assumption.
  - rewrite fsub_finite.
    pose proof (bounded_exp _ _ Hbb) as Heb.
    pose proof (bounded_exp _ _ Hbv) as Hev.
    set (ez := Z.min eb ev) in *.
    pose proof (@aligned_value false mb eb ez ltac:(lia) ltac:(lia)) as Hvb.
    pose proof (@aligned_value sv mv ev ez ltac:(lia) ltac:(lia)) as Hvv.
    set (z := cond_Zopp false (Zpos (fst (shl_align mb eb ez)))
              - cond_Zopp sv (Zpos (fst (shl_align mv ev ez)))) in *.
    assert (Hz : z * 2 ^ (ez + 1074)
                 = Zpos mb * 2 ^ (eb + 1074) - F2Z (S754_finite sv mv ev)).
    { unfold z. rewrite Z.mul_sub_distr_r, Hvb, Hvv. reflexivity. }
    pose proof (@pow2_pos (ez + 1074) ltac:(lia)) as Hp.
    destruct z as [|p|p] eqn:Ez; try lia.
    cbn [binary_normalize].
    apply binary_round_lower; [lia|assumption|lia].
Qed.

(** Floats that are fractions of a float. *)
Lemma scale_float (m : positive) (e j : Z) :
  bounded prec emax m e = true -> 0 <= j <= e + 1074 ->
  bounded prec emax m (e - j) = true.
Proof.
  intros Hb Hj. apply bounded_split in Hb as [Hc Hmax].
  apply bounded_split. split; [|lia].
  unfold canonical_mantissa in *. apply Z.eqb_eq in Hc. apply Z.eqb_eq.
  rewrite fexp_unfold in *. lia.
Qed.

Lemma unit_float (c : Z) :
  0 < c < 2 ^ 53 -> bounded prec emax (Z.to_pos c) (-1074) = true.
Proof.
  intros Hc. apply bounded_split. split; [|lia].
  unfold canonical_mantissa. apply Z.eqb_eq. rewrite fexp_unfold.
  change (Zpos (digits2_pos (Z.to_pos c))) with (Zdigits2 (Zpos (Z.to_pos c))).
  rewrite Z2Pos.id by lia.
  pose proof (@Zdigits2_le c 53 ltac:(lia) ltac:(lia)).
  pose proof (@Zdigits2_pos c ltac:(lia)). lia.
Qed.

(** The least float that is at least the fraction [1 / 2^j] of a float. *)
Lemma ceil_fraction (mb : positive) (eb j : Z) :
  bounded prec emax mb eb = true -> 0 <= j ->
  exists ml el,
    bounded prec emax ml el = true /\
    Zpos mb * 2 ^ (eb + 1074) <= 2 ^ j * (Zpos ml * 2 ^ (el + 1074)) /\
    forall X, Zpos mb * 2 ^ (eb + 1074) <= 2 ^ j * X ->
              Zpos ml * 2 ^ (el + 1074) <= X.
Proof.
  intros Hb Hj.
  pose proof (bounded_exp _ _ Hb) as Heb.
  pose proof (@pow2_pos j Hj) as Hpj.
  destruct (Z_le_gt_dec j (eb + 1074)) as [Hle|Hgt].
  - exists mb, (eb - j). split; [apply scale_float; auto; lia|].
    assert (E : Zpos mb * 2 ^ (eb + 1074)
                = 2 ^ j * (Zpos mb * 2 ^ (eb - j + 1074))).
    { replace (eb + 1074) with (j + (eb - j + 1074)) by lia.
      rewrite pow2_split by lia. ring. }
    split; [lia|]. intros X HX. rewrite E in HX.
    apply Z.mul_le_mono_pos_l in HX; lia.
  - apply bounded_split in Hb as [Hc _].
    destruct (canonical_facts _ _ Hc) as (_ & Hm & _).
    pose proof (@pow2_pos (eb + 1074) ltac:(lia)) as Hpe.
    set (B := Zpos mb * 2 ^ (eb + 1074)).
    assert (HB : 0 < B) by (unfold B; nia).
    assert (HBlt : B < 2 ^ j * Zpos mb).
    { unfold B. rewrite Z.mul_comm.
      apply Z.mul_lt_mono_pos_r; [lia|].
      apply Z.pow_lt_mono_r; lia. }
    set (c := (B + 2 ^ j - 1) / 2 ^ j).
    assert (Hc1 : B <= 2 ^ j * c).
    { unfold c. pose proof (Z.mul_div_le (B + 2 ^ j - 1) (2 ^ j) Hpj).
      pose proof (Z.mod_pos_bound (B + 2 ^ j - 1) (2 ^ j) Hpj).
      pose proof (Z.div_mod (B + 2 ^ j - 1) (2 ^ j) ltac:(lia)). lia. }
    assert (Hc2 : forall X, B <= 2 ^ j * X -> c <= X).
    { intros X HX. unfold c.
      apply Z.lt_succ_r. apply Z.div_lt_upper_bound; [lia|]. lia. }
    assert (Hc3 : 0 < c).
    { destruct (Z_le_gt_dec c 0); [|lia]. nia. }
    assert (Hc4 : c < 2 ^ 53).
    { specialize (Hc2 (Zpos mb) ltac:(lia)). lia. }
    exists (Z.to_pos c), (-1074). split; [apply unit_float; lia|].
    change (2 ^ (-1074 + 1074)) with 1. rewrite Z2Pos.id, Z.mul_1_r by lia.
    split; [exact Hc1|exact Hc2].
Qed.

(** The greatest float that is at most the fraction [1 / 2^j] of a float. *)
Lemma floor_fraction (mb : positive) (eb j : Z) :
  bounded prec emax mb eb = true -> 0 <= j ->
  exists t,
    finite_wf t = true /\ 0 <= F2Z t /\
    2 ^ j * F2Z t <= Zpos mb * 2 ^ (eb + 1074) /\
    forall X, 2 ^ j * X <= Zpos mb * 2 ^ (eb + 1074) -> X <= F2Z t.
Proof.
  intros Hb Hj.
  pose proof (bounded_exp _ _ Hb) as Heb.
  pose proof (@pow2_pos j Hj) as Hpj.
  destruct (Z_le_gt_dec j (eb + 1074)) as [Hle|Hgt].
  - exists (S754_finite false mb (eb - j)).
    pose proof (@scale_float mb eb j Hb ltac:(lia)) as Hs.
    assert (E : Zpos mb * 2 ^ (eb + 1074)
                = 2 ^ j * (Zpos mb * 2 ^ (eb - j + 1074))).
    { replace (eb + 1074) with (j + (eb - j + 1074)) by lia.
      rewrite pow2_split by lia. ring. }
    pose proof (bounded_pos _ _ Hs).
    cbn [F2Z cond_Zopp]. split; [exact Hs|]. split; [lia|]. split; [lia|].
    intros X HX. rewrite E in HX. apply Z.mul_le_mono_pos_l in HX; lia.
  - apply bounded_split in Hb as [Hc _].
    destruct (canonical_facts _ _ Hc) as (_ & Hm & _).
    pose proof (@pow2_pos (eb + 1074) ltac:(lia)) as Hpe.
    set (B := Zpos mb * 2 ^ (eb + 1074)).
    assert (HB : 0 < B) by (unfold B; nia).
    assert (HBlt : B < 2 ^ j * Zpos mb).
    { unfold B. rewrite Z.mul_comm.
      apply Z.mul_lt_mono_pos_r; [lia|].
      apply Z.pow_lt_mono_r; lia. }
    set (c := B / 2 ^ j).
    assert (Hc1 : 2 ^ j * c <= B) by (apply Z.mul_div_le; lia).
    assert (Hc2 : forall X, 2 ^ j * X <= B -> X <= c).
    { intros X HX. unfold c. apply Z.div_le_lower_bound; lia. }
    assert (Hc3 : 0 <= c) by (apply Z.div_pos; lia).
    assert (Hc4 : c < 2 ^ 53).
    { assert (c < Zpos mb); [|lia].
      apply Z.div_lt_upper_bound; lia. }
    destruct (Z.eq_dec c 0) as [E0|NE0].
    + exists zero. cbn [F2Z zero]. split; [reflexivity|]. split; [lia|].
      split; [lia|]. intros X HX. specialize (Hc2 X HX). lia.
    + exists (S754_finite false (Z.to_pos c) (-1074)).
      pose proof (@unit_float c ltac:(lia)) as Hu.
      cbn [F2Z cond_Zopp]. change (2 ^ (-1074 + 1074)) with 1.
      rewrite Z2Pos.id, Z.mul_1_r by lia.
      split; [exact Hu|]. split; [lia|]. split; [exact Hc1|exact Hc2].
Qed.


Lemma positive_float (b : float) :
  finite_wf b = true -> lt zero b = true ->
  exists mb eb, b = S754_finite false mb eb /\ bounded prec emax mb eb = true.
Proof.
  intros Hb Hpos.
  destruct (finite_wf_cases _ Hb) as [[sb ->]|(sb & mb & eb & -> & Hbb)];
    [discriminate|].
  destruct sb; [discriminate|]. eauto.
Qed.

(** The difference of two positive floats less than a factor two apart is
    a positive float, not much smaller than they are. *)
Lemma near_difference (mb : positive) (eb : Z) (v hi : float) :
  bounded prec emax mb eb = true -> finite_wf v = true ->
  finite_wf hi = true ->
  F2Z v < Zpos mb * 2 ^ (eb + 1074) ->
  Zpos mb * 2 ^ (eb + 1074) <= 2 * F2Z v ->
  Zpos mb * 2 ^ (eb + 1074) - F2Z v <= F2Z hi ->
  let d := fsub (S754_finite false mb eb) v in
  finite_wf d = true /\ 0 < F2Z d <= F2Z hi /\
  Zpos mb * 2 ^ (eb + 1074) <= F2Z d * 2 ^ 54.
Proof.
  intros Hbb Hv Hhi Hlt Hhalf Hup d.
  pose proof (bounded_pos _ _ Hbb) as HB.
  pose proof (bounded_exp _ _ Hbb) as Heb.
  destruct (finite_wf_cases _ Hv) as [[sv ->]|(sv & mv & ev & -> & Hbv)];
    [cbn [F2Z] in Hhalf; lia|].
  pose proof (bounded_pos _ _ Hbv) as HV.
  destruct sv; [cbn [F2Z cond_Zopp] in Hhalf; lia|].
  cbn [F2Z cond_Zopp] in *.
  pose proof (bounded_exp _ _ Hbv) as Hev.
  assert (Hbb' := Hbb). assert (Hbv' := Hbv).
  apply bounded_split in Hbb' as [Hcb Hbmax].
  apply bounded_split in Hbv' as [Hcv _].
  destruct (canonical_facts _ _ Hcb) as (_ & Hmb & _).
  assert (Hez : eb - 1 <= ev).
  { destruct (Z.eq_dec eb (-1074)) as [->|NE]; [lia|].
    pose proof (@scale_float mb eb 1 Hbb ltac:(lia)) as Hs.
    apply bounded_split in Hs as [Hcs _].
    apply (canonical_exp_mono _ _ _ _ Hcs Hcv).
    replace (eb + 1074) with (1 + (eb - 1 + 1074)) in Hhalf by lia.
    rewrite pow2_split in Hhalf by lia. change (2 ^ 1) with 2 in Hhalf. lia. }
  assert (Hez' : ev <= eb).
  { apply (canonical_exp_mono _ _ _ _ Hcv Hcb). lia. }
  set (ez := Z.min eb ev) in *.
  pose proof (@aligned_value false mb eb (Z.min eb ev) ltac:(lia) ltac:(lia)) as Hvb.
  pose proof (@aligned_value false mv ev (Z.min eb ev) ltac:(lia) ltac:(lia)) as Hvv.
  cbn [F2Z cond_Zopp] in Hvb, Hvv.
  pose proof (@pow2_pos (Z.min eb ev + 1074) ltac:(lia)) as Hp.
  assert (Hunit : 2 ^ (Z.min eb ev + 1074)
                  <= Zpos mb * 2 ^ (eb + 1074) - Zpos mv * 2 ^ (ev + 1074)).
  { rewrite <- Hvb, <- Hvv in Hlt |- *.
    assert (Zpos (fst (shl_align mv ev (Z.min eb ev)))
            < Zpos (fst (shl_align mb eb (Z.min eb ev)))).
    { apply Z.mul_lt_mono_pos_r with (2 ^ (Z.min eb ev + 1074)); assumption. }
    nia. }
  destruct (@pow2_float_spec false (Z.min eb ev + 1074)) as [Hlw Hlv]; [lia|].
  cbn [cond_Zopp] in Hlv.
  destruct (@fsub_between (S754_finite false mb eb) (S754_finite false mv ev)
              (pow2_float false (Z.min eb ev + 1074)) hi) as [Hw [Hd1 Hd2]];
    auto.
  { rewrite Hlv. cbn [F2Z cond_Zopp]. lia. }
  fold d in Hw, Hd1, Hd2. rewrite Hlv in Hd1.
  split; [exact Hw|]. split; [lia|].
  apply Z.le_trans with (2 ^ (Z.min eb ev + 1074) * 2 ^ 54);
    [|apply Z.mul_le_mono_nonneg_r; [apply Z.lt_le_incl, pow2_pos|]; lia].
  apply Z.le_trans with (2 ^ 53 * 2 ^ (eb + 1074)).
  - apply Z.mul_le_mono_nonneg_r; [apply Z.lt_le_incl, pow2_pos|]; lia.
  - rewrite <- !pow2_split by lia. apply Z.pow_le_mono_r; lia.
Qed.

(** *** The thresholds of line 99 *)

Lemma lit_0_01_value : 2 ^ 1067 < F2Z lit_0_01 < 2 ^ 1068.
Proof.
  cbn [F2Z lit_0_01 cond_Zopp]. change (-59 + 1074) with 1015.
  replace 1067 with (52 + 1015) by lia. replace 1068 with (53 + 1015) by lia.
  rewrite !pow2_split by lia.
  pose proof (@pow2_pos 1015 ltac:(lia)).
  change (2 ^ 52) with 4503599627370496.
  change (2 ^ 53) with 9007199254740992. nia.
Qed.

(** A loss at most 63/64 of a positive stored minimum passes the test. *)
Lemma improves_below (b v : float) :
  finite_wf b = true -> lt zero b = true -> finite_wf v = true ->
  64 * F2Z v <= 63 * F2Z b ->
  improves (Some b) v = Return true.
Proof.
  intros Hb Hpos Hv Hle.
  destruct (@positive_float _ Hb Hpos) as (mb & eb & -> & Hbb).
  pose proof (bounded_pos _ _ Hbb) as HB.
  cbn [F2Z cond_Zopp] in Hle.
  unfold improves, truediv. cbn [is_zero]. f_equal.
  destruct (@ceil_fraction mb eb 6 Hbb ltac:(lia)) as (ml & el & Hbl & HT & Hmin).
  change (2 ^ 6) with 64 in *.
  pose proof (bounded_pos _ _ Hbl) as HTpos.
  destruct (@fsub_lower_pos mb ml eb el v Hbb Hv Hbl)
    as [Hd|(m3 & e3 & Hd & Hb3 & Hv3)].
  { apply Hmin. lia. }
  - rewrite Hd. reflexivity.
  - rewrite Hd.
    pose proof (bounded_pos _ _ Hb3) as HD.
    assert (Hlo : bounded prec emax 4503599627370496 (-58) = true)
      by reflexivity.
    destruct (@fdiv_lower_pos m3 mb 4503599627370496 e3 eb (-58) Hb3 Hbb Hlo)
      as [Hq|(m4 & e4 & Hq & Hb4 & Hv4)].
    { pose proof (@pow2_pos 1021 ltac:(lia)).
      apply Z.le_trans with (Zpos m3 * 2 ^ (e3 + 1074) * 64); [lia|].
      apply Z.mul_le_mono_nonneg_l; [lia|].
      change 64 with (2 ^ 6). apply Z.pow_le_mono_r; lia. }
    { change (Zpos 4503599627370496) with (2 ^ 52).
      rewrite <- pow2_split by lia. change (52 + (-58 + 1074)) with 1068.
      replace 1074 with (1068 + 6) at 3 by lia.
      rewrite (@pow2_split 1068 6) by lia. change (2 ^ 6) with 64.
      pose proof (@pow2_pos 1068 ltac:(lia)). nia. }
    + rewrite Hq. reflexivity.
    + rewrite Hq. unfold gt. apply SFltb_of_F2Z; [reflexivity| |].
      * unfold finite_wf, wf. cbn [is_finite valid_binary andb]. exact Hb4.
      * pose proof lit_0_01_value as [_ Hl].
        cbn [F2Z cond_Zopp] in Hv4 |- *.
        change (Zpos 4503599627370496) with (2 ^ 52) in Hv4.
        rewrite <- pow2_split in Hv4 by lia.
        change (52 + (-58 + 1074)) with 1068 in Hv4.
        change (F2Z lit_0_01 < Zpos m4 * 2 ^ (e4 + 1074)). lia.
Qed.

(** A loss that is at least 127/128 of a positive stored minimum does not. *)
Lemma improves_near (b v : float) :
  finite_wf b = true -> lt zero b = true -> finite_wf v = true ->
  127 * F2Z b <= 128 * F2Z v ->
  improves (Some b) v = Return false.
Proof.
  intros Hb Hpos Hv Hle.
  destruct (Z_le_gt_dec (F2Z b) (F2Z v)) as [Hge|Hlt].
  { (* the loss has not decreased *)
    destruct (improves (Some b) v) as [[|]|e] eqn:Ei; [|reflexivity|].
    - exfalso. apply improves_true in Ei as [Hn|(b' & r & Eb & Hr & Hg)];
        [discriminate|].
      inversion Eb; subst b'.
      assert (Hwv : wf v = true)
        by (unfold finite_wf in Hv; now apply andb_true_iff in Hv as [_ ?]).
      pose proof (@improvement_is_decrease b v r Hb Hpos Hwv Hr Hg) as Hd.
      unfold lt in Hd.
      rewrite (@SFltb_false_of_F2Z v b Hv Hb Hge) in Hd. discriminate.
    - exfalso. apply improves_raise in Ei as [_ (b' & Eb & Hz)].
      inversion Eb; subst b'.
      destruct (@positive_float _ Hb Hpos) as (mb & eb & -> & _). discriminate. }
  destruct (@positive_float _ Hb Hpos) as (mb & eb & -> & Hbb).
  pose proof (bounded_pos _ _ Hbb) as HB.
  cbn [F2Z cond_Zopp] in Hle, Hlt.
  unfold improves, truediv. cbn [is_zero]. f_equal.
  destruct (@floor_fraction mb eb 7 Hbb ltac:(lia))
    as (t & Ht & Ht0 & Ht1 & Hmax).
  change (2 ^ 7) with 128 in *.
  destruct (@near_difference mb eb v t Hbb Hv Ht) as (Hw & [Hd0 Hd1] & Hd2);
    try lia.
  { apply Hmax. lia. }
  destruct (finite_wf_cases _ Hw) as [[sd Ed]|(sd & md & ed & Ed & Hbd)];
    rewrite Ed in *; [cbn [F2Z] in Hd0; lia|].
  pose proof (bounded_pos _ _ Hbd) as HD.
  destruct sd; cbn [F2Z cond_Zopp] in Hd0, Hd1, Hd2; [lia|].
  destruct (@pow2_float_spec false 1067) as [Hhw Hhv]; [lia|].
  cbn [cond_Zopp] in Hhv.
  destruct (@fdiv_between_pos md mb ed eb zero (pow2_float false 1067)
              Hbd Hbb eq_refl Hhw) as [Hqw [_ Hq]].
  - apply Z.le_trans with (1 := Hd2).
    apply Z.mul_le_mono_nonneg_l; [lia|]. apply Z.pow_le_mono_r; lia.
  - cbn [F2Z zero]. pose proof (@pow2_pos 1074 ltac:(lia)). nia.
  - rewrite Hhv. replace 1074 with (1067 + 7) at 2 by lia.
    rewrite (@pow2_split 1067 7) by lia. change (2 ^ 7) with 128.
    pose proof (@pow2_pos 1067 ltac:(lia)). nia.
  - cbv zeta in Hqw, Hq. rewrite Hhv in Hq.
    unfold gt. apply SFltb_false_of_F2Z; [reflexivity|exact Hqw|].
    pose proof lit_0_01_value as [Hl _]. lia.
Qed.

End Division.

Section Thresholds.

Context {F : Framework float}.

Local Open Scope Z_scope.

(** Line 99 in binary64, for a positive stored minimum and a finite
    validation loss: the epoch ends normally; it writes a checkpoint
    whenever the loss is at most 63/64 of the stored minimum (a decrease of
    1.5625% or more), and writes none whenever the loss is at least 127/128
    of it (a decrease of 0.78125% or less, or an increase). *)
Theorem checkpoint_thresholds (dls : DataLoaders) (n_epochs : Z) (it : bool)
    (epoch : Z) (s : State) (b : float) :
  valid_loss_min s = Some b ->
  finite_wf b = true -> lt zero b = true ->
  finite_wf (epoch_valid_loss dls epoch s) = true ->
  let v := epoch_valid_loss dls epoch s in
  let r := epoch_body dls n_epochs it epoch s in
  snd r = Return tt /\
  (64 * F2Z v <= 63 * F2Z b ->
     saves (trace (fst r)) = saves (trace s) ++ [epoch_params dls epoch s] /\
     valid_loss_min (fst r) = Some v) /\
  (127 * F2Z b <= 128 * F2Z v ->
     saves (trace (fst r)) = saves (trace s) /\
     valid_loss_min (fst r) = Some b).
Proof.
  intros Hm Hb Hpos Hv v r. subst r. fold v in Hv.
  destruct (epoch_body_spec dls n_epochs it epoch s) as [_ H].
  fold v in H. rewrite Hm in H.
  pose proof (@improves_below b v Hb Hpos Hv) as Hlow.
  pose proof (@improves_near b v Hb Hpos Hv) as Hhigh.
  destruct (improves (Some b) v) as [[|]|e] eqn:Ei.
  - destruct H as (Hr & Hm' & Hs & _). split; [exact Hr|]. split.
    + auto.
    + intros Hc. specialize (Hhigh Hc). discriminate.
  - destruct H as (Hr & Hm' & Hs & _). split; [exact Hr|]. split.
    + intros Hc. specialize (Hlow Hc). discriminate.
    + auto.
  - exfalso. apply improves_raise in Ei as [_ (b' & Eb & Hz)].
    inversion Eb; subst b'.
    destruct (@positive_float _ Hb Hpos) as (mb & eb & -> & _). discriminate.
Qed.

Lemma positive_finite_spec (x : float) :
  positive_finite x = true <-> finite_wf x = true /\ lt zero x = true.
Proof. unfold positive_finite. apply andb_true_iff. Qed.

Lemma positive_finite_value (x : float) :
  positive_finite x = true -> 0 < F2Z x.
Proof.
  intros H. apply positive_finite_spec in H as [Hw Hp].
  destruct (@positive_float _ Hw Hp) as (m & e & -> & Hb).
  cbn [F2Z cond_Zopp]. now apply bounded_pos.
Qed.

Lemma SFltb_F2Z (x y : float) :
  finite_wf x = true -> finite_wf y = true ->
  SFltb x y = true -> F2Z x < F2Z y.
Proof.
  intros Hx Hy Hl.
  destruct (Z_lt_ge_dec (F2Z x) (F2Z y)) as [|Hge]; [assumption|].
  rewrite (@SFltb_false_of_F2Z x y Hx Hy) in Hl by lia. discriminate.
Qed.


Lemma near_least_step (dls : DataLoaders) (n_epochs : Z) (it : bool)
    (epoch : Z) (s : State) :
  near_least s ->
  positive_finite (epoch_valid_loss dls epoch s) = true ->
  near_least (fst (epoch_body dls n_epochs it epoch s)) /\
  snd (epoch_body dls n_epochs it epoch s) = Return tt.
Proof.
  intros Hinv Hv.
  pose proof (positive_finite_value _ Hv) as Hvpos.
  apply positive_finite_spec in Hv as [Hvw Hvp].
  destruct (epoch_body_spec dls n_epochs it epoch s) as [Hob H].
  set (v := epoch_valid_loss dls epoch s) in *.
  unfold near_least in *. rewrite Hob.
  destruct (valid_loss_min s) as [b|] eqn:Hm.
  - destruct Hinv as (Hbp & Hck & Hobs).
    pose proof (positive_finite_value _ Hbp) as Hbpos.
    apply positive_finite_spec in Hbp as [Hbw Hbl].
    pose proof (@improves_below b v Hbw Hbl Hvw) as Hlow.
    destruct (improves (Some b) v) as [[|]|e] eqn:Ei.
    + destruct H as (Hr & -> & _ & ->). split; [|exact Hr].
      apply improves_true in Ei as [Hn|(b' & q & Eb & Hq & Hg)];
        [discriminate|].
      inversion Eb; subst b'.
      assert (Hwv : wf v = true)
        by (unfold finite_wf in Hvw; now apply andb_true_iff in Hvw as [_ ?]).
      pose proof (@improvement_is_decrease b v q Hbw Hbl Hwv Hq Hg) as Hd.
      apply SFltb_F2Z in Hd; auto.
      split; [apply positive_finite_spec; auto|]. split.
      * apply Forall_app. split.
        -- eapply Forall_impl; [|exact Hck]. cbv beta. intros; lia.
        -- repeat constructor. lia.
      * apply Forall_app. split.
        -- eapply Forall_impl; [|exact Hobs]. cbv beta. intros; lia.
        -- repeat constructor. lia.
    + destruct H as (Hr & -> & _ & ->). split; [|exact Hr].
      split; [apply positive_finite_spec; auto|]. split; [exact Hck|].
      apply Forall_app. split; [exact Hobs|].
      repeat constructor.
      destruct (Z_lt_ge_dec (63 * F2Z b) (64 * F2Z v)) as [|Hge];
        [assumption|].
      specialize (Hlow ltac:(lia)). discriminate.
    + exfalso. apply improves_raise in Ei as [_ (b' & Eb & Hz)].
      inversion Eb; subst b'.
      destruct (@positive_float _ Hbw Hbl) as (mb & eb & -> & _).
      discriminate.
  - cbn [improves] in H. destruct H as (Hr & -> & _ & ->).
    split; [|exact Hr].
    split; [apply positive_finite_spec; auto|].
    destruct Hinv as [-> ->]. cbn [app].
    split; repeat constructor; lia.
Qed.

Lemma run_epochs_observed (dls : DataLoaders) (n_epochs : Z) (it : bool) :
  forall (epochs : list Z) (s : State),
    exists later,
      observed_valid_losses (trace (fst (run_epochs dls n_epochs it epochs s)))
      = observed_valid_losses (trace s) ++ later.
Proof.
  induction epochs as [|epoch rest IH]; intros s; cbn [run_epochs].
  - exists []. now rewrite app_nil_r.
  - destruct (epoch_body_spec dls n_epochs it epoch s) as [Hob _].
    destruct (epoch_body dls n_epochs it epoch s) as [s1 [u|e]];
      cbn [fst snd] in *.
    + destruct (IH s1) as [later ->]. rewrite Hob, <- app_assoc. eauto.
    + rewrite Hob. eauto.
Qed.

Lemma run_epochs_near_least (dls : DataLoaders) (n_epochs : Z) (it : bool) :
  forall (epochs : list Z) (s : State),
    near_least s ->
    forallb positive_finite
      (observed_valid_losses
         (trace (fst (run_epochs dls n_epochs it epochs s)))) = true ->
    near_least (fst (run_epochs dls n_epochs it epochs s)) /\
    snd (run_epochs dls n_epochs it epochs s) = Return tt.
Proof.
  induction epochs as [|epoch rest IH]; intros s Hinv Hall;
    cbn [run_epochs] in *; [auto|].
  destruct (epoch_body_spec dls n_epochs it epoch s) as [Hob _].
  assert (Hv : positive_finite (epoch_valid_loss dls epoch s) = true).
  { destruct (epoch_body dls n_epochs it epoch s) as [s1 [u|e]];
      cbn [fst snd] in *.
    - destruct (run_epochs_observed dls n_epochs it rest s1) as [later E].
      rewrite E, Hob, !forallb_app in Hall. cbn [forallb] in Hall.
      apply andb_true_iff in Hall as [Hall _].
      apply andb_true_iff in Hall as [_ Hall].
      now apply andb_true_iff in Hall as [Hall _].
    - rewrite Hob, forallb_app in Hall. cbn [forallb] in Hall.
      apply andb_true_iff in Hall as [_ Hall].
      now apply andb_true_iff in Hall as [Hall _]. }
  destruct (near_least_step dls n_epochs it epoch s Hinv Hv) as [Hinv' Hr].
  destruct (epoch_body dls n_epochs it epoch s) as [s1 r1];
    cbn [fst snd] in *. subst r1.
  now apply IH.
Qed.

(** When the validation losses of a run are positive finite floats (none
    of them zero, negative, infinite or NaN), the run returns, and the
    stored minimum approximates the least of them: it is one of the
    observed losses, no checkpointed loss is below it, and no observed loss
    is below 63/64 of it. *)
Theorem stored_minimum_near_least (dls : DataLoaders) (m : Model)
    (o : OptState) (n_epochs : Z) (it : bool) :
  let s' := fst (optimize dls m o n_epochs it) in
  forallb positive_finite (observed_valid_losses (trace s')) = true ->
  snd (optimize dls m o n_epochs it) = Return tt /\
  match valid_loss_min s' with
  | None => observed_valid_losses (trace s') = []
  | Some b =>
      In b (observed_valid_losses (trace s')) /\
      Forall (fun c => F2Z b <= F2Z c) (checkpointed_losses (trace s')) /\
      Forall (fun v => 63 * F2Z b < 64 * F2Z v)
        (observed_valid_losses (trace s'))
  end.
Proof.
  intros s' Hall. subst s'. unfold optimize in *.
  destruct (run_epochs_near_least dls n_epochs it (range 1 (n_epochs + 1))
              (initial_state m o)) as [Hinv Hr]; [split; reflexivity|exact Hall|].
  split; [exact Hr|].
  assert (Hmin : minimum_invariant
                   (fst (run_epochs dls n_epochs it (range 1 (n_epochs + 1))
                           (initial_state m o)))).
  { apply run_epochs_invariant with (P := minimum_invariant).
    - intros; now apply minimum_invariant_step.
    - repeat split; simpl; auto. apply incl_refl. }
  destruct Hmin as (Hl & _ & Hincl).
  unfold near_least in Hinv.
  destruct (valid_loss_min _) as [b|].
  - destruct Hinv as (_ & Hck & Hobs). split; [|split; assumption].
    apply Hincl. apply last_option_in. congruence.
  - apply Hinv.
Qed.

End Thresholds.

Section ZeroLoss.

Context {F : Framework float}.

(** A validation loss of zero ends the run in the epoch that follows: after
    no stored minimum or a positive one, the epoch that observes the zero
    checkpoints it, and the next epoch raises on dividing by it, after
    printing its own validation loss and without writing anything. *)
Theorem zero_loss_ends_run (dls : DataLoaders) (n_epochs : Z) (it : bool)
    (epoch next : Z) (rest : list Z) (s : State) :
  (valid_loss_min s = None \/
   exists b, valid_loss_min s = Some b /\ positive_finite b = true) ->
  is_zero (epoch_valid_loss dls epoch s) = true ->
  let r := run_epochs dls n_epochs it (epoch :: next :: rest) s in
  snd r = Raise ZeroDivisionError /\
  valid_loss_min (fst r) = Some (epoch_valid_loss dls epoch s) /\
  saves (trace (fst r)) = saves (trace s) ++ [epoch_params dls epoch s] /\
  length (observed_valid_losses (trace (fst r))) =
    (length (observed_valid_losses (trace s)) + 2)%nat.
Proof.
  intros Hmin Hz r. subst r. cbn [run_epochs].
  destruct (epoch_body_spec dls n_epochs it epoch s) as [Hob H].
  set (v := epoch_valid_loss dls epoch s) in *.
  assert (Hi : improves (valid_loss_min s) v = Return true).
  { destruct Hmin as [->|(b & -> & Hb)]; [reflexivity|].
    pose proof (positive_finite_value _ Hb) as Hbpos.
    apply positive_finite_spec in Hb as [Hbw Hbl].
    apply improves_below; auto.
    - destruct v; try discriminate. reflexivity.
    - destruct v; try discriminate. cbn [F2Z]. lia. }
  rewrite Hi in H. destruct H as (Hr & Hm & Hs & _).
  destruct (epoch_body dls n_epochs it epoch s) as [s1 r1].
  cbn [fst snd] in *. subst r1.
  destruct (epoch_body_spec dls n_epochs it next s1) as [Hob2 H2].
  assert (Hi2 : improves (valid_loss_min s1) (epoch_valid_loss dls next s1)
                = Raise ZeroDivisionError).
  { apply improves_raise. split; [reflexivity|]. exists v. auto. }
  rewrite Hi2 in H2. destruct H2 as (Hr2 & Hm2 & Hs2 & _).
  destruct (epoch_body dls n_epochs it next s1) as [s2 r2].
  cbn [fst snd] in *. subst r2. cbn [fst snd].
  rewrite Hm2, Hs2, Hob2, Hm, Hs, Hob, !length_app. cbn [length].
  repeat split; auto. lia.
Qed.

End ZeroLoss.

(** *** The accuracy line *)

Section Accuracy.

Local Open Scope Z_scope.

Lemma of_int_pos (n : Z) :
  0 < n <= 2 ^ 53 ->
  exists m e, of_int n = S754_finite false m e /\
              bounded prec emax m e = true /\
              Zpos m * 2 ^ (e + 1074) = n * 2 ^ 1074.
Proof.
  intros Hn. destruct (@of_int_exact n) as [Hw Hv]; [lia|].
  pose proof (@pow2_pos 1074 ltac:(lia)) as Hp.
  destruct (finite_wf_cases _ Hw) as [[s E]|(s & m & e & E & Hb)];
    rewrite E in Hv; cbn [F2Z] in Hv; [nia|].
  pose proof (bounded_pos _ _ Hb).
  destruct s; cbn [cond_Zopp] in Hv; [nia|].
  exists m, e. auto.
Qed.

(** Products of integers are exact up to 2^53. *)
Lemma of_int_mul (a b : Z) :
  0 < a <= 2 ^ 53 -> 0 <= b -> a * b <= 2 ^ 53 ->
  fmul (of_int a) (of_int b) = of_int (a * b).
Proof.
  intros [Ha Ha53] Hb Hab.
  pose proof (@pow2_pos 1074 ltac:(lia)) as Hp.
  destruct (Z.eq_dec b 0) as [->|Hb0].
  { rewrite Z.mul_0_r.
    destruct (@of_int_pos a) as (m & e & -> & _); [lia|]. reflexivity. }
  assert (Hb53 : b <= 2 ^ 53) by nia.
  destruct (@of_int_exact a) as [Hwa Hva]; [lia|].
  destruct (@of_int_exact b) as [Hwb Hvb]; [lia|].
  destruct (@of_int_exact (a * b)) as [Hwp Hvp]; [nia|].
  destruct (@fmul_between (of_int a) (of_int b) (of_int (a * b))
              (of_int (a * b)) Hwa Hwb Hwp Hwp) as [Hw Hv].
  { rewrite Hva, Hvb, Hvp. nia. }
  apply F2Z_inj; auto; [lia|]. nia.
Qed.

(** The percentage [100. * correct / total] of two counts. *)
Lemma percent_bounds (c t : Z) :
  0 <= c <= t -> 0 < t <= 2 ^ 46 ->
  let p := SFdiv prec emax (fmul lit_100 (of_int c)) (of_int t) in
  finite_wf p = true /\ 0 <= F2Z p <= F2Z lit_100 /\
  (c = t -> p = lit_100) /\ (c = 0 -> p = zero).
Proof.
  intros Hc Ht p. subst p.
  pose proof (@pow2_pos 1074 ltac:(lia)) as Hp.
  assert (H46 : 2 ^ 46 * 100 <= 2 ^ 53) by (vm_compute; discriminate).
  assert (H4653 : 2 ^ 46 <= 2 ^ 53) by (vm_compute; discriminate).
  assert (H100 : 100 <= 2 ^ 53) by (vm_compute; discriminate).
  unfold lit_100. rewrite of_int_mul by nia.
  destruct (@of_int_exact 100) as [Hw100 Hv100]; [lia|].
  destruct (@of_int_pos t) as (mt & et & Et & Hbt & Hvt); [lia|].
  rewrite Et.
  destruct (Z.eq_dec c 0) as [->|Hc0].
  { cbn [Z.mul]. change (of_int 0) with zero. cbn [SFdiv zero xorb].
    rewrite Hv100. cbn [F2Z].
    repeat split; try reflexivity; try lia. }
  destruct (@of_int_pos (100 * c)) as (mc & ec & Ec & Hbc & Hvc); [nia|].
  rewrite Ec.
  assert (Hn : Zpos mt * 2 ^ (et + 1074)
               <= Zpos mc * 2 ^ (ec + 1074) * 2 ^ 1021).
  { rewrite Hvt, Hvc.
    assert (2 ^ 46 <= 2 ^ 1021) by (apply Z.pow_le_mono_r; lia).
    assert (t * 2 ^ 1074 <= 100 * c * 2 ^ 1074 * 2 ^ 46) by nia.
    pose proof (@pow2_pos 46 ltac:(lia)).
    apply Z.le_trans with (100 * c * 2 ^ 1074 * 2 ^ 46); [assumption|].
    apply Z.mul_le_mono_nonneg_l; [nia|assumption]. }
  destruct (@fdiv_between_pos mc mt ec et zero (of_int 100) Hbc Hbt
              eq_refl Hw100 Hn) as [Hqw Hq].
  { cbn [F2Z zero]. nia. }
  { rewrite Hv100, Hvt, Hvc. nia. }
  cbv zeta in Hqw, Hq.
  split; [exact Hqw|]. split; [exact Hq|]. split; [|lia].
  intros ->.
  destruct (@fdiv_between_pos mc mt ec et (of_int 100) (of_int 100) Hbc Hbt
              Hw100 Hw100 Hn) as [_ Hq'].
  { rewrite Hv100, Hvt, Hvc. nia. }
  { rewrite Hv100, Hvt, Hvc. nia. }
  cbv zeta in Hq'. apply F2Z_inj; auto; [lia|]. rewrite Hv100 in Hq'. nia.
Qed.

End Accuracy.

Section AccuracyLine.

Context {A : Type} {N : LossNum A} {F : Framework A}.


(** When no more predictions are counted correct than there are samples
    (at most 2^46 of them), the accuracy printed by [one_epoch_test] is a
    finite float from 0.0 to 100.0; it is 100.0 exactly when every
    prediction is correct, and 0.0 when none is. *)
Theorem accuracy_is_a_percentage (dl : DataLoader) (m : Model) :
  (0 < n_samples dl)%nat ->
  (n_right dl m <= n_samples dl)%nat ->
  (Z.of_nat (n_samples dl) <= 2 ^ 46)%Z ->
  exists test_loss percent correct total,
    snd (fst (one_epoch_test dl m)) =
      [PrintTestLoss test_loss; PrintTestAccuracy percent correct total] /\
    finite_wf percent = true /\
    (0 <= F2Z percent <= F2Z lit_100)%Z /\
    (n_right dl m = n_samples dl -> percent = lit_100) /\
    (n_right dl m = 0%nat -> percent = zero).
Proof.
  intros Hpos Hle Hn.
  assert (H4653 : (2 ^ 46 <= 2 ^ 53)%Z) by (vm_compute; discriminate).
  unfold one_epoch_test.
  rewrite test_accumulators by lia.
  unfold truediv. rewrite (total_not_zero Hpos).
  destruct (@percent_bounds (Z.of_nat (n_right dl m))
              (Z.of_nat (n_samples dl))) as (Hw & Hb & H100 & H0); try lia.
  cbv zeta in Hw, Hb, H100, H0.
  do 4 eexists. split; [reflexivity|]. split; [exact Hw|].
  split; [exact Hb|]. split.
  - intros E. apply H100. now rewrite E.
  - intros E. apply H0. now rewrite E.
Qed.

End AccuracyLine.

(** ** Concrete runs *)



(** C3, counterexample. Validation losses 1.0 then 0.9921875: the second
    epoch improves by less than 1%, writes nothing, and the stored minimum
    stays 1.0 although the least observed loss is 0.9921875. *)
Lemma stored_minimum_not_least :
  let s' := fst (optimize (toy64_loaders [zero; of_int 1; dyadic 127 (-7)])
                   toy64_model tt 2 false) in
  observed_valid_losses (trace s') = [of_int 1; dyadic 127 (-7)] /\
  valid_loss_min s' = Some (of_int 1) /\
  list_min (observed_valid_losses (trace s')) = Some (dyadic 127 (-7)) /\
  valid_loss_min s' <> list_min (observed_valid_losses (trace s')).
Proof.
  cbv zeta. repeat split; try (vm_compute; reflexivity).
  vm_compute. discriminate.
Qed.

(** C4, counterexample. The first epoch writes a checkpoint although no
    minimum is stored, so nothing was improved on. *)
Lemma first_epoch_saves_without_minimum :
  let s0 := initial_state toy64_model tt in
  let r := epoch_body (toy64_loaders [zero; of_int 1]) 1 false 1 s0 in
  valid_loss_min s0 = None /\
  saves (trace s0) = [] /\
  saves (trace (fst r)) = [1%nat].
Proof. cbv zeta. repeat split. Qed.

(** C5, counterexample. With [n_epochs = 0] no checkpoint is written. *)
Lemma no_epoch_no_checkpoint :
  snd (optimize (toy64_loaders [zero; of_int 1]) toy64_model tt 0 false)
    = Return tt /\
  saves (trace (fst (optimize (toy64_loaders [zero; of_int 1])
                       toy64_model tt 0 false))) = [].
Proof. split; reflexivity. Qed.

(** A run of one epoch. *)
Lemma first_epoch_writes_checkpoint_witness :
  exists later,
    saves (trace (fst (optimize (toy64_loaders [zero; of_int 1])
                         toy64_model tt 1 false))) =
    epoch_params (toy64_loaders [zero; of_int 1]) 1
      (initial_state toy64_model tt) :: later.
Proof. apply first_epoch_writes_checkpoint. lia. Defined.

(** C6, counterexample. A loader whose second batch loss is NaN: the three
    loops return NaN, which is not finite. *)
Lemma nan_loss_returned :
  let dl := toy64_loader [of_int 1; nan] in
  snd (train_one_epoch dl toy64_model tt) = S754_nan /\
  snd (valid_one_epoch dl toy64_model) = S754_nan /\
  snd (one_epoch_test dl toy64_model) = Return S754_nan /\
  is_finite S754_nan = false.
Proof. cbv zeta. repeat split; vm_compute; reflexivity. Qed.

(** Finite batch losses do not help when they are huge: 2^1023, -2^1023, 0
    drive the running average to -inf and then to NaN. *)
Example finite_losses_overflow :
  let dl := toy64_loader [dyadic 1 1023; dyadic (-1) 1023; zero] in
  forallb is_finite (eval_losses dl toy64_model) = true /\
  snd (valid_one_epoch dl toy64_model) = S754_nan.
Proof. cbv zeta. split; vm_compute; reflexivity. Qed.


(** A run of no epoch. *)
Lemma no_epochs_no_effect_witness :
  let s' := fst (optimize (toy64_loaders [zero; of_int 1])
                   toy64_model tt 0 true) in
  snd (optimize (toy64_loaders [zero; of_int 1]) toy64_model tt 0 true)
    = Return tt /\
  trace s' = [] /\
  saves (trace s') = [] /\
  observed_valid_losses (trace s') = [] /\
  model s' = toy64_model /\
  optimizer s' = tt /\
  valid_loss_min s' = None.
Proof. apply no_epochs_no_effect. lia. Defined.

(** A validation pass with batch losses 1, 2 and 4. *)
Lemma moderate_losses_finite_mean_witness :
  finite_between
    (eval_losses (toy64_loader [of_int 1; of_int 2; of_int 4]) toy64_model)
    (snd (valid_one_epoch (toy64_loader [of_int 1; of_int 2; of_int 4])
            toy64_model)).
Proof.
  apply (proj1 (proj2 (@moderate_losses_finite_mean toy64))).
  vm_compute. reflexivity.
Defined.

(** The second epoch of a run whose validation loss goes from 1.0 to 0.5. *)
Lemma save_needs_improvement_witness :
  let dls := toy64_loaders [zero; of_int 1; dyadic 1 (-1)] in
  let s1 := fst (epoch_body dls 2 false 1 (initial_state toy64_model tt)) in
  let v := epoch_valid_loss dls 2 s1 in
  (valid_loss_min s1 = None \/
   exists b q, valid_loss_min s1 = Some b /\
               truediv (fsub b v) b = Return q /\
               gt q lit_0_01 = true) /\
  (forall b, valid_loss_min s1 = Some b ->
             finite_wf b = true -> lt zero b = true -> wf v = true ->
             lt v b = true).
Proof.
  cbv zeta. apply save_needs_improvement with (n_epochs := 2%Z) (it := false)
    (epoch := 2%Z).
  vm_compute. discriminate.
Defined.

(** The second epoch of a run whose first validation loss is 0.0. *)
Lemma zero_minimum_raises_witness :
  let dls := toy64_loaders [zero; zero; of_int 1] in
  let s1 := fst (epoch_body dls 2 false 1 (initial_state toy64_model tt)) in
  let r := epoch_body dls 2 false 2 s1 in
  snd r = Raise ZeroDivisionError /\
  saves (trace (fst r)) = saves (trace s1) /\
  valid_loss_min (fst r) = Some zero.
Proof.
  cbv zeta. apply zero_minimum_raises; reflexivity.
Defined.

(** The three loops on batches with losses 1, 2 and 4. *)
Lemma loops_agree_witness :
  let dl := toy64_loader [of_int 1; of_int 2; of_int 4] in
  snd (train_one_epoch dl toy64_model tt) = snd (valid_one_epoch dl toy64_model) /\
  snd (one_epoch_test dl toy64_model) =
    if is_zero (test_total dl toy64_model) then Raise ZeroDivisionError
    else Return (snd (valid_one_epoch dl toy64_model)).
Proof.
  cbv zeta.
  apply loops_agree with (losses := [of_int 1; of_int 2; of_int 4]);
    reflexivity.
Defined.

(** With a negative stored minimum the quotient of line 99 exceeds 0.01
    when the loss rises: after -1.0, the loss -0.5 is saved as a new
    minimum although it is the larger of the two. *)
Example negative_minimum_saves_larger_loss :
  let s' := fst (optimize (toy64_loaders [zero; of_int (-1); dyadic (-1) (-1)])
                   toy64_model tt 2 false) in
  observed_valid_losses (trace s') = [of_int (-1); dyadic (-1) (-1)] /\
  saves (trace s') = [1%nat; 2%nat] /\
  valid_loss_min s' = Some (dyadic (-1) (-1)) /\
  lt (of_int (-1)) (dyadic (-1) (-1)) = true.
Proof. cbv zeta. repeat split; vm_compute; reflexivity. Qed.

(** ** More concrete runs *)


(** A run whose first validation loss is NaN: the epochs 2 and 3, with
    validation losses 1.0 and 2.0, write nothing. *)
Lemma nonfinite_minimum_is_final_witness :
  let dls := toy64_loaders [zero; nan; of_int 1; of_int 2] in
  let s1 := fst (epoch_body dls 3 false 1 (initial_state toy64_model tt)) in
  let r := run_epochs dls 3 false [2%Z; 3%Z] s1 in
  snd r = Return tt /\
  saves (trace (fst r)) = saves (trace s1) /\
  valid_loss_min (fst r) = Some nan.
Proof.
  cbv zeta. apply nonfinite_minimum_is_final; reflexivity.
Defined.

(** The second epoch of a run whose validation loss goes from 1.0 to NaN. *)
Lemma nan_loss_not_checkpointed_witness :
  let dls := toy64_loaders [zero; of_int 1; nan] in
  let s1 := fst (epoch_body dls 2 false 1 (initial_state toy64_model tt)) in
  let r := epoch_body dls 2 false 2 s1 in
  saves (trace (fst r)) = saves (trace s1) /\
  checkpointed_losses (trace (fst r)) = checkpointed_losses (trace s1) /\
  valid_loss_min (fst r) = Some (of_int 1).
Proof.
  cbv zeta. apply nan_loss_not_checkpointed; reflexivity.
Defined.

(** A run of one epoch. *)
Lemma optimize_leaves_eval_mode_witness :
  let s' := fst (optimize (toy64_loaders [zero; of_int 1])
                   toy64_model tt 1 false) in
  training (model s') = false /\
  on_cuda (model s') = @cuda_available float toy64 || on_cuda toy64_model.
Proof.
  cbv zeta. apply optimize_leaves_eval_mode. lia.
Defined.

(** A validation pass whose second batch loss is +inf. *)
Lemma nonfinite_loss_propagates_witness :
  is_finite (snd (valid_one_epoch (toy64_loader [of_int 1; inf]) toy64_model))
  = false.
Proof.
  apply (proj1 (proj2 (@nonfinite_loss_propagates toy64))). reflexivity.
Defined.

(** Three batches of loss 0.01. *)
Lemma constant_losses_exact_witness :
  snd (valid_one_epoch (toy64_loader [lit_0_01; lit_0_01; lit_0_01])
         toy64_model)
  = if is_zero lit_0_01 then zero else lit_0_01.
Proof.
  apply (proj1 (proj2 (@constant_losses_exact toy64 lit_0_01 eq_refl)));
    [discriminate|].
  repeat constructor.
Defined.

(** In binary64 the order of the batches shows in the last bit: the
    running averages of 1, 2, 4 and of 4, 2, 1 differ. *)
Example float_loss_depends_on_order :
  snd (valid_one_epoch (toy64_loader [of_int 1; of_int 2; of_int 4])
         toy64_model)
    = S754_finite false 5254199565265578 (-51) /\
  snd (valid_one_epoch (toy64_loader [of_int 4; of_int 2; of_int 1])
         toy64_model)
    = S754_finite false 5254199565265579 (-51).
Proof. split; vm_compute; reflexivity. Qed.


(** A test loader of two batches of one sample each. *)
Lemma test_counts_exact_witness :
  let dl := toy64_loader [of_int 1; of_int 2] in
  let correct := of_int (Z.of_nat (n_right dl toy64_model)) in
  let total := of_int (Z.of_nat (n_samples dl)) in
  let test_loss := incremental_mean (eval_losses dl toy64_model) in
  snd (fst (one_epoch_test dl toy64_model)) =
    [PrintTestLoss test_loss;
     PrintTestAccuracy (SFdiv prec emax (fmul lit_100 correct) total)
       correct total] /\
  snd (one_epoch_test dl toy64_model) = Return test_loss.
Proof.
  cbv zeta. apply test_counts_exact.
  - vm_compute. lia.
  - vm_compute. discriminate.
  - vm_compute. discriminate.
Defined.

(** The second epoch of a run whose validation loss goes from 1.0 to 0.5. *)
Lemma checkpoint_thresholds_witness :
  let dls := toy64_loaders [zero; of_int 1; dyadic 1 (-1)] in
  let s1 := fst (epoch_body dls 2 false 1 (initial_state toy64_model tt)) in
  let v := epoch_valid_loss dls 2 s1 in
  let r := epoch_body dls 2 false 2 s1 in
  snd r = Return tt /\
  ((64 * F2Z v <= 63 * F2Z (of_int 1))%Z ->
     saves (trace (fst r)) = saves (trace s1) ++ [epoch_params dls 2 s1] /\
     valid_loss_min (fst r) = Some v) /\
  ((127 * F2Z (of_int 1) <= 128 * F2Z v)%Z ->
     saves (trace (fst r)) = saves (trace s1) /\
     valid_loss_min (fst r) = Some (of_int 1)).
Proof.
  cbv zeta. apply checkpoint_thresholds; reflexivity.
Defined.

(** A run of three epochs with validation losses 1.0, 0.9921875 and 0.5. *)
Lemma stored_minimum_near_least_witness :
  let s' := fst (optimize
                   (toy64_loaders [zero; of_int 1; dyadic 127 (-7);
                                   dyadic 1 (-1)])
                   toy64_model tt 3 false) in
  snd (optimize (toy64_loaders [zero; of_int 1; dyadic 127 (-7); dyadic 1 (-1)])
         toy64_model tt 3 false) = Return tt /\
  match valid_loss_min s' with
  | None => observed_valid_losses (trace s') = []
  | Some b =>
      In b (observed_valid_losses (trace s')) /\
      Forall (fun c => (F2Z b <= F2Z c)%Z) (checkpointed_losses (trace s')) /\
      Forall (fun v => (63 * F2Z b < 64 * F2Z v)%Z)
        (observed_valid_losses (trace s'))
  end.
Proof.
  cbv zeta. apply stored_minimum_near_least. reflexivity.
Defined.

(** A run of three epochs whose second validation loss is 0.0. *)
Lemma zero_loss_ends_run_witness :
  let dls := toy64_loaders [zero; of_int 1; zero; of_int 1] in
  let s1 := fst (epoch_body dls 3 false 1 (initial_state toy64_model tt)) in
  let r := run_epochs dls 3 false [2%Z; 3%Z] s1 in
  snd r = Raise ZeroDivisionError /\
  valid_loss_min (fst r) = Some (epoch_valid_loss dls 2 s1) /\
  saves (trace (fst r)) = saves (trace s1) ++ [epoch_params dls 2 s1] /\
  length (observed_valid_losses (trace (fst r))) =
    (length (observed_valid_losses (trace s1)) + 2)%nat.
Proof.
  cbv zeta. apply zero_loss_ends_run; [|reflexivity].
  right. exists (of_int 1). split; reflexivity.
Defined.

(** A test loader of two batches of one sample each; the toy model counts
    no prediction as correct. *)
Lemma accuracy_is_a_percentage_witness :
  let dl := toy64_loader [of_int 1; of_int 2] in
  exists test_loss percent correct total,
    snd (fst (one_epoch_test dl toy64_model)) =
      [PrintTestLoss test_loss; PrintTestAccuracy percent correct total] /\
    finite_wf percent = true /\
    (0 <= F2Z percent <= F2Z lit_100)%Z /\
    (n_right dl toy64_model = n_samples dl -> percent = lit_100) /\
    (n_right dl toy64_model = 0%nat -> percent = zero).
Proof.
  cbv zeta. apply accuracy_is_a_percentage.
  - vm_compute. lia.
  - vm_compute. lia.
  - vm_compute. discriminate.
Defined.

Section TestRuns.

Local Open Scope string_scope.

(** The validation test on a loader whose batch has loss 1.0. *)
Lemma loss_tests_pass_witness :
  snd (test_valid_one_epoch (toy64_loaders [of_int 1]) toy64_model) = Passed.
Proof.
  apply (proj1 (proj2 (@loss_tests_pass toy64 (toy64_loaders [of_int 1]) []
                         toy64_model tt))); reflexivity.
Defined.

(** The validation test on a loader whose batch has loss NaN. *)
Lemma loss_tests_fail_on_nan_witness :
  test_valid_one_epoch (toy64_loaders [nan]) toy64_model =
  (to_device (set_mode false toy64_model),
   Failed "Validation loss is nan").
Proof.
  apply (proj1 (proj2 (@loss_tests_fail_on_nan toy64 (toy64_loaders [nan]) []
                         toy64_model tt))); reflexivity.
Defined.

End TestRuns.
